(** * A shallow embedding of the WebRTC signalling server

    The development follows the TypeScript sources:
    - [types.ts]: the envelope ([SignalingMessage]), the message types and
      the extended socket ([WebSocketClient]);
    - [wsUtils.ts]: [sendWsMessage] and [broadcast];
    - [db.ts]: [saveOrUpdatePushToken], [getPushToken] and [closeDbPool];
    - [messageHandler.ts]: [handleWebSocketMessage];
    - [index.ts]: the listeners installed on every connection
      (pong, message, close, error), the heartbeat timer and
      [gracefulShutdown].

    Sockets are JavaScript objects shared by reference between the [ws]
    library, the registry [clients] and the listeners.  They live in a store
    indexed by handles; the registry maps a user id to a handle, so aliasing
    is the aliasing of the program. *)

From Stdlib Require Import ZArith Ascii String List Bool Lia.
From stdpp Require Import base tactics option list gmap strings pretty.

Set Warnings "-register-all".
Open Scope string_scope.
Open Scope list_scope.

(** ** JavaScript values received from [JSON.parse] *)

(** A string is read as a sequence of UTF-16 code units below 256, one
    [ascii] each.  Numbers are the integers that JavaScript prints in plain
    decimal notation. *)
Inductive JsonValue : Type :=
| JNull
| JBool (b : bool)
| JNum (n : Z)
| JStr (s : string)
| JArr (items : list JsonValue)
| JObj (props : list (string * JsonValue)).

(** A possibly [undefined] value is an [option JsonValue]. *)
Definition JsValue : Type := option JsonValue.

(** ToBoolean. *)
Definition truthy (v : JsValue) : bool :=
  match v with
  | None => false
  | Some JNull => false
  | Some (JBool b) => b
  | Some (JNum n) => negb (n =? 0)%Z
  | Some (JStr s) => negb (String.eqb s "")
  | Some (JArr _) => true
  | Some (JObj _) => true
  end.

(** [typeof v === 'string']. *)
Definition is_string (v : JsValue) : bool :=
  match v with
  | Some (JStr _) => true
  | _ => false
  end.

Fixpoint own_property (k : string) (props : list (string * JsonValue)) : JsValue :=
  match props with
  | [] => None
  | (k', v) :: rest => if String.eqb k k' then Some v else own_property k rest
  end.

(** [v?.k] for a key [k] that no built-in prototype defines ([userId],
    [pushToken]): [undefined] unless [v] is an object that owns [k]. *)
Definition optional_member (v : JsValue) (k : string) : JsValue :=
  match v with
  | Some (JObj props) => own_property k props
  | _ => None
  end.

(** ToString, as used by template literals (ECMA-262, 7.1.17).  An
    object goes through [OrdinaryToPrimitive] (7.1.1.1) with the hint
    [string]: [toString] is tried first, then [valueOf].  An object made by
    [JSON.parse] inherits both from [Object.prototype] and prints as
    ["[object Object]"], unless it owns a [toString] property: a JSON value
    is never callable, so that property is skipped, [valueOf] returns the
    object itself, and the conversion throws a [TypeError], here [None].
    An array is joined with commas, [null] elements printing as the empty
    string. *)
Fixpoint ToString (v : JsonValue) : option string :=
  match v with
  | JNull => Some "null"
  | JBool true => Some "true"
  | JBool false => Some "false"
  | JNum n => Some (pretty n)
  | JStr s => Some s
  | JArr items =>
      (fix join (l : list JsonValue) : option string :=
         match l with
         | [] => Some ""
         | x :: rest =>
             match (match x with JNull => Some "" | _ => ToString x end) with
             | None => None
             | Some sx =>
                 match rest with
                 | [] => Some sx
                 | _ :: _ =>
                     match join rest with
                     | None => None
                     | Some sr => Some (sx +:+ "," +:+ sr)
                     end
                 end
             end
         end) items
  | JObj props =>
      match own_property "toString" props with
      | Some _ => None
      | None => Some "[object Object]"
      end
  end.

(** [String.prototype.trim] on the code units below 256: TAB, LF, VT, FF,
    CR, SPACE and NBSP are white space. *)
Definition is_white_space (c : ascii) : bool :=
  let n := nat_of_ascii c in
  ((n =? 9) || (n =? 10) || (n =? 11) || (n =? 12) || (n =? 13)
   || (n =? 32) || (n =? 160))%nat.

Fixpoint trim_start (s : string) : string :=
  match s with
  | EmptyString => EmptyString
  | String c rest => if is_white_space c then trim_start rest else s
  end.

Fixpoint trim_end (s : string) : string :=
  match s with
  | EmptyString => EmptyString
  | String c rest =>
      match trim_end rest with
      | EmptyString => if is_white_space c then EmptyString else String c EmptyString
      | r => String c r
      end
  end.

Definition trim (s : string) : string := trim_end (trim_start s).

(** ** [types.ts] *)

Inductive MessageType : Type :=
| Login | LoginSuccess | RegisterPush | PushRegistered
| Offer | Answer | Candidate | MessageRequest
| UserLeft | Error | Info.

(** The string value of each member of the enum. *)
Definition MessageType_value (t : MessageType) : string :=
  match t with
  | Login => "login"
  | LoginSuccess => "login_success"
  | RegisterPush => "register_push"
  | PushRegistered => "push_registered"
  | Offer => "offer"
  | Answer => "answer"
  | Candidate => "candidate"
  | MessageRequest => "message_request"
  | UserLeft => "user_left"
  | Error => "error"
  | Info => "info"
  end.

Definition enum (t : MessageType) : JsonValue := JStr (MessageType_value t).

(** [v === MessageType.t], the comparison a [case] label performs. *)
Definition case_label (v : JsonValue) (t : MessageType) : bool :=
  match v with
  | JStr s => String.eqb s (MessageType_value t)
  | _ => false
  end.

(** The envelope.  [type] is declared as a [MessageType] but holds whatever
    the peer sent; the optional fields are [None] when absent. *)
Record SignalingMessage : Type := mkMessage {
  type : JsonValue;
  payload : JsValue;
  target : JsValue;
  sender : JsValue;
  originalType : JsValue
}.

(** The states of a socket handed to a ['connection'] listener (such a
    socket is never [CONNECTING]). *)
Inductive ReadyState : Type := OPEN | CLOSING | CLOSED.

Definition ReadyState_value (r : ReadyState) : Z :=
  match r with OPEN => 1 | CLOSING => 2 | CLOSED => 3 end.

Global Instance ReadyState_eq_dec : EqDecision ReadyState.
Proof. solve_decision. Defined.

(** What the server wrote to a socket, oldest first. *)
Inductive Frame : Type :=
| Text (m : SignalingMessage)
| Ping.

Record WebSocketClient : Type := mkClient {
  clientId : option string;
  userId : option string;
  isAlive : option bool;
  readyState : ReadyState;
  sent : list Frame
}.

(** ** [Map<string, WebSocketClient>]

    A JavaScript [Map] iterates in insertion order, so the registry is an
    association list with one binding per key; the values are socket
    handles. *)
Module Map.

Definition t : Type := list (string * nat).

Fixpoint get (k : string) (m : t) : option nat :=
  match m with
  | [] => None
  | (k', v) :: rest => if String.eqb k k' then Some v else get k rest
  end.

Definition has (k : string) (m : t) : bool :=
  match get k m with Some _ => true | None => false end.

(** [set] on a present key keeps its position; on an absent key it adds
    the binding last. *)
Fixpoint set (k : string) (v : nat) (m : t) : t :=
  match m with
  | [] => [(k, v)]
  | (k', v') :: rest =>
      if String.eqb k k' then (k, v) :: rest else (k', v') :: set k v rest
  end.

(** [delete] leaves no binding of the key. *)
Fixpoint delete (k : string) (m : t) : t :=
  match m with
  | [] => []
  | (k', v') :: rest =>
      if String.eqb k k' then delete k rest else (k', v') :: delete k rest
  end.

Definition size (m : t) : nat := length m.

(** The values in iteration order. *)
Definition values (m : t) : list nat := map snd m.

(** The keys in iteration order. *)
Definition keys (m : t) : list string := map fst m.

End Map.

(** ** The state of the process *)

Inductive Level : Type := LevelInfo | LevelWarn | LevelError.

(** One call of [logger.log] (or of [console.log], [console.warn],
    [console.error], whose first argument is kept). *)
Record LogEntry : Type := mkLog { level : Level; message : string }.

Record Server : Type := mkServer {
  sockets : gmap nat WebSocketClient;   (* the socket objects, by handle *)
  wss_clients : list nat;               (* [wss.clients], in insertion order *)
  clients : Map.t;                      (* the registry [clients] *)
  log : list LogEntry                   (* what was logged, oldest first *)
}.

Definition with_sockets (f : gmap nat WebSocketClient -> gmap nat WebSocketClient)
    (s : Server) : Server :=
  mkServer (f (sockets s)) (wss_clients s) (clients s) (log s).

Definition with_wss_clients (f : list nat -> list nat) (s : Server) : Server :=
  mkServer (sockets s) (f (wss_clients s)) (clients s) (log s).

Definition with_clients (f : Map.t -> Map.t) (s : Server) : Server :=
  mkServer (sockets s) (wss_clients s) (f (clients s)) (log s).

Definition with_log (f : list LogEntry -> list LogEntry) (s : Server) : Server :=
  mkServer (sockets s) (wss_clients s) (clients s) (f (log s)).

(** The object behind a handle.  Every handle the listeners receive was
    allocated by the ['connection'] listener; the default is never read on
    such a handle. *)
Definition no_socket : WebSocketClient := mkClient None None None CLOSED [].

Definition socket_of (s : Server) (ws : nat) : WebSocketClient :=
  default no_socket (sockets s !! ws).

(** Field assignments on a socket object. *)
Definition set_clientId (v : option string) (c : WebSocketClient) : WebSocketClient :=
  mkClient v (userId c) (isAlive c) (readyState c) (sent c).
Definition set_userId (v : option string) (c : WebSocketClient) : WebSocketClient :=
  mkClient (clientId c) v (isAlive c) (readyState c) (sent c).
Definition set_isAlive (v : option bool) (c : WebSocketClient) : WebSocketClient :=
  mkClient (clientId c) (userId c) v (readyState c) (sent c).
Definition set_readyState (v : ReadyState) (c : WebSocketClient) : WebSocketClient :=
  mkClient (clientId c) (userId c) (isAlive c) v (sent c).
Definition push_frame (f : Frame) (c : WebSocketClient) : WebSocketClient :=
  mkClient (clientId c) (userId c) (isAlive c) (readyState c) (sent c ++ [f]).

(** ** Statements: state passing with exceptions *)

Inductive JsError : Type :=
| TypeError (msg : string)
| PlainError (msg : string).

(** [e.message] and [`${e}`]. *)
Definition error_message (e : JsError) : string :=
  match e with TypeError m => m | PlainError m => m end.
Definition error_text (e : JsError) : string :=
  match e with
  | TypeError m => "TypeError: " +:+ m
  | PlainError m => "Error: " +:+ m
  end.

Inductive Completion (A : Type) : Type :=
| Normal (a : A) (s : Server)
| Abrupt (e : JsError) (s : Server).
Arguments Normal {A} a s.
Arguments Abrupt {A} e s.

Definition Js (A : Type) : Type := Server -> Completion A.

Global Instance Js_ret : MRet Js := fun A a s => Normal a s.
Global Instance Js_bind : MBind Js := fun A B f m s =>
  match m s with
  | Normal a s' => f a s'
  | Abrupt e s' => Abrupt e s'
  end.

Definition throw {A} (e : JsError) : Js A := fun s => Abrupt e s.

(** [try { body } catch (error) { handler error }]. *)
Definition try_catch {A} (body : Js A) (handler : JsError -> Js A) : Js A :=
  fun s =>
    match body s with
    | Normal a s' => Normal a s'
    | Abrupt e s' => handler e s'
    end.

Definition state : Js Server := fun s => Normal s s.
Definition update (f : Server -> Server) : Js unit := fun s => Normal tt (f s).
Definition socket (ws : nat) : Js WebSocketClient := fun s => Normal (socket_of s ws) s.
Definition assign (ws : nat) (f : WebSocketClient -> WebSocketClient) : Js unit :=
  update (with_sockets (alter f ws)).

(** The state a completion leaves behind. *)
Definition final {A} (c : Completion A) : Server :=
  match c with Normal _ s => s | Abrupt _ s => s end.

(** [`${v}`] for a value that may be an object. *)
Definition template (v : JsValue) : Js string :=
  match v with
  | None => mret "undefined"
  | Some j =>
      match ToString j with
      | Some s => mret s
      | None => throw (TypeError "Cannot convert object to primitive value")
      end
  end.

(** [`${s}`] for a string or [undefined]. *)
Definition str (v : option string) : string := default "undefined" v.

(** [a || b] on strings that may be [undefined]. *)
Definition or_else (a b : option string) : option string :=
  match a with
  | Some s => if String.eqb s "" then b else a
  | None => b
  end.

(** [!s] fails for a non-empty string only. *)
Definition nonempty (v : option string) : bool :=
  match v with
  | Some s => negb (String.eqb s "")
  | None => false
  end.

(** Modelled from the spec: [logger.log] of the module [./logger], which
    is not among the sources.  The spec only says that failures are
    logged and leaves the format of the log out: a call records its entry
    and returns. *)
Definition logger_log (l : Level) (m : string) : Js unit :=
  update (with_log (fun entries => entries ++ [mkLog l m])).

(** ** The [ws] library, as far as the server uses it *)

(** [ws.send(data)] on an open socket. *)
Definition send (ws : nat) (m : SignalingMessage) : Js unit :=
  assign ws (push_frame (Text m)).

(** [ws.ping()]: a ping frame on an open socket, nothing on a closing or
    closed one. *)
Definition ping (ws : nat) : Js unit :=
  c ← socket ws;
  if decide (readyState c = OPEN) then assign ws (push_frame Ping) else mret tt.

(** [ws.terminate()]: the socket is destroyed and leaves the [OPEN] state at
    once; the ['close'] event is emitted later. *)
Definition terminate (ws : nat) : Js unit :=
  c ← socket ws;
  if decide (readyState c = CLOSED) then mret tt
  else assign ws (set_readyState CLOSING).

(** ** [wsUtils.ts] *)

Definition sendWsMessage (ws : nat) (m : SignalingMessage) : Js unit :=
  c ← socket ws;
  if decide (readyState c = OPEN) then
    try_catch (send ws m)
      (fun error =>
         c ← socket ws;
         logger_log LevelError
           ("Failed to send message to " +:+ str (or_else (userId c) (clientId c))
            +:+ ": " +:+ error_text error))
  else
    logger_log LevelWarn
      ("Attempted to send message to " +:+ str (or_else (userId c) (clientId c))
       +:+ " but socket was not open (state: "
       +:+ pretty (ReadyState_value (readyState c)) +:+ ")").

(** [list.forEach(f)]. *)
Fixpoint forEach (f : nat -> Js unit) (l : list nat) : Js unit :=
  match l with
  | [] => mret tt
  | x :: rest => f x;; forEach f rest
  end.

(** [senderWs] is the socket to leave out, if any. *)
Definition broadcast (m : SignalingMessage) (senderWs : option nat) : Js unit :=
  s ← state;
  ty ← template (Some (type m));
  logger_log LevelInfo
    ("Broadcasting message type " +:+ ty +:+ " to "
     +:+ pretty (Map.size (clients s)) +:+ " client(s)");;
  forEach
    (fun client =>
       if decide (Some client = senderWs) then mret tt
       else sendWsMessage client m)
    (Map.values (clients s)).

(** ** [db.ts]

    The store is reached through [pool.query], which the functions below
    await.  [Settled] is the outcome of that query; each function is given
    by what it does once the query has settled. *)

Inductive Settled (A : Type) : Type :=
| Fulfilled (a : A)
| Rejected (error : JsError).
Arguments Fulfilled {A} a.
Arguments Rejected {A} error.

Definition saveOrUpdatePushToken (userId : string) (q : Settled unit) : Js unit :=
  try_catch
    (match q with
     | Fulfilled _ =>
         logger_log LevelInfo ("DB: Push token saved/updated for user: " +:+ userId)
     | Rejected error => throw error
     end)
    (fun error =>
       logger_log LevelError
         ("DB Error: Failed saving push token for user " +:+ userId +:+ ": "
          +:+ error_text error);;
       throw error).

(** The rows of the query are given by their [push_token] column. *)
Definition getPushToken (userId : string) (q : Settled (list string)) : Js (option string) :=
  try_catch
    (match q with
     | Fulfilled rows =>
         match rows with
         | push_token :: _ =>
             logger_log LevelInfo ("DB: Found push token for user " +:+ userId);;
             mret (Some push_token)
         | [] =>
             logger_log LevelInfo ("DB: No push token found for user " +:+ userId);;
             mret None
         end
     | Rejected error => throw error
     end)
    (fun error =>
       logger_log LevelError
         ("DB Error: Failed retrieving push token for user " +:+ userId +:+ ": "
          +:+ error_text error);;
       throw error).

(** [closeDbPool] up to its [await pool.end()] ... *)
Definition closeDbPool : Js unit :=
  logger_log LevelInfo "Closing PostgreSQL connection pool...".

(** ... and from the settled [pool.end()] on. *)
Definition resume_closeDbPool (q : Settled unit) : Js unit :=
  try_catch
    (match q with
     | Fulfilled _ => logger_log LevelInfo "PostgreSQL pool has been closed."
     | Rejected error => throw error
     end)
    (fun error =>
       logger_log LevelError ("Error closing PostgreSQL pool: " +:+ error_text error)).

(** ** [messageHandler.ts] *)

(** [{ type: MessageType.Error, payload: { message: text }, originalType: message.type }] *)
Definition error_reply (text : string) (m : SignalingMessage) : SignalingMessage :=
  mkMessage (enum Error) (Some (JObj [("message", JStr text)])) None None (Some (type m)).

(** [{ type: t, payload: { userId: u } }]; an [undefined] member is left
    out by [JSON.stringify]. *)
Definition userId_notice (t : MessageType) (u : option string) : SignalingMessage :=
  mkMessage (enum t)
    (Some (JObj (match u with Some s => [("userId", JStr s)] | None => [] end)))
    None None None.

(** [!v || typeof v !== 'string' || v.trim() === ''] *)
Definition not_a_valid_string (v : JsValue) : bool :=
  negb (truthy v) || negb (is_string v)
  || match v with
     | Some (JStr s) => String.eqb (trim s) ""
     | _ => true
     end.

(** Where an invocation of the handler stands when it gives control back:
    finished, or waiting for the query of one of the two store calls. *)
Inductive Await : Type :=
| Completed
| AwaitSaveOrUpdatePushToken (userId pushToken : string)
| AwaitGetPushToken (targetId : string).

(** The [catch] clause that encloses the whole [switch]. *)
Definition outer_catch {A} (ws : nat) (m : SignalingMessage) (done : A) (error : JsError)
    : Js A :=
  c ← socket ws;
  ty ← template (Some (type m));
  logger_log LevelError
    ("Error processing message type " +:+ ty +:+ " for "
     +:+ str (or_else (userId c) (clientId c)) +:+ ": " +:+ error_text error);;
  ty' ← template (Some (type m));
  sendWsMessage ws (error_reply ("Server error handling message type " +:+ ty') m);;
  mret done.

Definition case_Login (ws : nat) (m : SignalingMessage) : Js Await :=
  let userId := optional_member (payload m) "userId" in
  if not_a_valid_string userId then
    sendWsMessage ws (error_reply "Valid User ID is required for login" m);;
    mret Completed
  else
    match userId with
    | Some (JStr userId) =>
        s ← state;
        if Map.has userId (clients s) then
          logger_log LevelWarn
            ("Login attempt failed: User ID " +:+ userId +:+ " is already logged in.");;
          sendWsMessage ws
            (error_reply ("User ID " +:+ userId +:+ " is already taken/logged in.") m);;
          terminate ws;;
          mret Completed
        else
          c ← socket ws;
          let oldClientId := clientId c in
          assign ws (set_clientId None);;
          assign ws (set_userId (Some userId));;
          update (with_clients (Map.set userId ws));;
          logger_log LevelInfo
            ("Client logged in: " +:+ userId +:+ " (was " +:+ str oldClientId +:+ ")");;
          sendWsMessage ws (userId_notice LoginSuccess (Some userId));;
          mret Completed
    | _ => mret Completed
    end.

Definition case_RegisterPush (ws : nat) (m : SignalingMessage) : Js Await :=
  c ← socket ws;
  if negb (nonempty (userId c)) then
    sendWsMessage ws (error_reply "Must be logged in to register push token" m);;
    mret Completed
  else
    let pushToken := optional_member (payload m) "pushToken" in
    if not_a_valid_string pushToken then
      sendWsMessage ws (error_reply "Valid push token is required" m);;
      mret Completed
    else
      match pushToken with
      | Some (JStr pushToken) =>
          mret (AwaitSaveOrUpdatePushToken (str (userId c)) pushToken)
      | _ => mret Completed
      end.

(** The rest of the [RegisterPush] case, from the settled query on. *)
Definition resume_RegisterPush (ws : nat) (m : SignalingMessage) (userId' : string)
    (q : Settled unit) : Js unit :=
  try_catch
    (try_catch
       (saveOrUpdatePushToken userId' q;;
        c ← socket ws;
        sendWsMessage ws (userId_notice PushRegistered (userId c)))
       (fun dbError =>
          c ← socket ws;
          logger_log LevelError
            ("Handler Error: Failed to save push token for " +:+ str (userId c)
             +:+ ": " +:+ error_text dbError);;
          sendWsMessage ws (error_reply "Failed to save push token on server" m)))
    (outer_catch ws m tt).

(** [{ ...message, sender: senderId }] *)
Definition with_sender (m : SignalingMessage) (senderId : string) : SignalingMessage :=
  mkMessage (type m) (payload m) (target m) (Some (JStr senderId)) (originalType m).

(** [targetClient && targetClient.readyState === WebSocket.OPEN] *)
Definition open_target (s : Server) (targetClient : option nat) : option nat :=
  match targetClient with
  | Some h => if decide (readyState (socket_of s h) = OPEN) then Some h else None
  | None => None
  end.

Definition case_relay (ws : nat) (m : SignalingMessage) : Js Await :=
  let targetId := target m in
  c ← socket ws;
  let senderId := userId c in
  if negb (nonempty senderId) then
    sendWsMessage ws (error_reply "Cannot send message: Not logged in." m);;
    mret Completed
  else if negb (truthy targetId) || negb (is_string targetId) then
    sendWsMessage ws (error_reply "Target user ID is required." m);;
    mret Completed
  else if negb (truthy (payload m)) then
    sendWsMessage ws (error_reply "Payload is missing." m);;
    mret Completed
  else
    match targetId with
    | Some (JStr targetId) =>
        s ← state;
        let targetClient := Map.get targetId (clients s) in
        match open_target s targetClient with
        | Some targetClient =>
            let messageToSend := with_sender m (str senderId) in
            ty ← template (Some (type m));
            logger_log LevelInfo
              ("Forwarding " +:+ ty +:+ " from " +:+ str senderId +:+ " to "
               +:+ targetId);;
            sendWsMessage targetClient messageToSend;;
            mret Completed
        | None =>
            logger_log LevelInfo
              ("Target client " +:+ targetId +:+ " offline. Checking for push token.");;
            mret (AwaitGetPushToken targetId)
        end
    | _ => mret Completed
    end.

(** The rest of the relay case, from the settled query on. *)
Definition resume_relay (ws : nat) (m : SignalingMessage) (targetId : string)
    (q : Settled (list string)) : Js unit :=
  try_catch
    (try_catch
       (pushToken ← getPushToken targetId q;
        if nonempty pushToken then
          logger_log LevelInfo
            ("Retrieved push token for offline user " +:+ targetId
             +:+ ". (Push sending NOT implemented)");;
          sendWsMessage ws
            (mkMessage (enum Info)
               (Some (JStr ("User " +:+ targetId
                            +:+ " is offline. Push notification required.")))
               None None None)
        else
          logger_log LevelInfo
            ("No push token found for offline user " +:+ targetId +:+ ".");;
          sendWsMessage ws
            (error_reply
               ("User " +:+ targetId +:+ " is offline and no push token is registered.")
               m))
       (fun dbError =>
          logger_log LevelError
            ("Handler Error: DB error checking push token for " +:+ targetId +:+ ": "
             +:+ error_text dbError);;
          sendWsMessage ws
            (error_reply ("Server error checking offline status for " +:+ targetId +:+ ".")
               m)))
    (outer_catch ws m tt).

Definition case_default (ws : nat) (m : SignalingMessage) : Js Await :=
  ty ← template (Some (type m));
  logger_log LevelWarn ("Unknown message type received: " +:+ ty);;
  ty' ← template (Some (type m));
  sendWsMessage ws
    (mkMessage (enum Error)
       (Some (JObj [("message", JStr ("Unknown message type: " +:+ ty'))]))
       None None None);;
  mret Completed.

(** The [switch] on [message.type]. *)
Definition dispatch (ws : nat) (m : SignalingMessage) : Js Await :=
  if case_label (type m) Login then case_Login ws m
  else if case_label (type m) RegisterPush then case_RegisterPush ws m
  else if case_label (type m) Offer || case_label (type m) Answer
          || case_label (type m) Candidate || case_label (type m) MessageRequest
  then case_relay ws m
  else case_default ws m.

(** The handler up to its first [await] (or to its end). *)
Definition handleWebSocketMessage (ws : nat) (m : SignalingMessage) : Js Await :=
  try_catch (dispatch ws m) (outer_catch ws m Completed).

(** ** [index.ts] *)

(** The ['connection'] listener, after the library has created the socket
    (open, and a member of [wss.clients]).  It returns the new handle. *)
Definition on_connection (uuid clientIp : string) : Js nat :=
  s ← state;
  let ws := fresh (dom (sockets s)) in
  update (with_sockets (insert ws (mkClient None None None OPEN [])));;
  update (with_wss_clients (fun l => l ++ [ws]));;
  assign ws (set_clientId (Some uuid));;
  assign ws (set_isAlive (Some true));;
  logger_log LevelInfo
    ("Client connected (clientId: " +:+ uuid +:+ ", IP: " +:+ clientIp +:+ ")");;
  mret ws.

(** The ['pong'] listener. *)
Definition on_pong (ws : nat) : Js unit :=
  assign ws (set_isAlive (Some true)).

(** The [catch] clause of the ['message'] listener. *)
Definition message_catch (ws : nat) (e : JsError) : Js unit :=
  c ← socket ws;
  logger_log LevelError
    ("Failed to parse or handle message from "
     +:+ str (or_else (userId c) (clientId c)) +:+ ":");;
  sendWsMessage ws
    (mkMessage (enum Error)
       (Some (JObj [("message",
                     JStr ("Invalid message format or processing error: "
                           +:+ error_message e))]))
       None None None).

(** [parsedMessage.k] for [k] among the fields of the envelope, none of
    which a built-in prototype defines; reading a member of [null] throws. *)
Definition member (v : JsonValue) (k : string) : Js JsValue :=
  match v with
  | JNull => throw (TypeError ("Cannot read properties of null (reading '" +:+ k +:+ "')"))
  | _ => mret (optional_member (Some v) k)
  end.

(** The ['message'] listener up to the first [await] of the handler.
    [data] is the result of [JSON.parse], [None] when it throws. *)
Definition on_message (ws : nat) (data : option JsonValue) : Js Await :=
  try_catch
    (match data with
     | None => throw (PlainError "Unexpected token in JSON")
     | Some parsedMessage =>
         ty ← member parsedMessage "type";
         if negb (truthy ty) then throw (PlainError "Message type is missing")
         else
           match ty with
           | Some ty =>
               c ← socket ws;
               tg ← member parsedMessage "target";
               (if truthy tg then template tg else mret "");;
               logger_log LevelInfo
                 ("Received from " +:+ str (or_else (userId c) (clientId c)) +:+ ":");;
               handleWebSocketMessage ws
                 (mkMessage ty
                    (optional_member (Some parsedMessage) "payload")
                    tg
                    (optional_member (Some parsedMessage) "sender")
                    (optional_member (Some parsedMessage) "originalType"))
           | None => mret Completed
           end
     end)
    (fun e => message_catch ws e;; mret Completed).

(** The ['close'] listener. *)
Definition on_close (ws : nat) (code : Z) (reason : string) : Js unit :=
  c ← socket ws;
  let userId := userId c in
  let clientId := clientId c in
  logger_log LevelInfo
    ("Client disconnected: " +:+ str (or_else userId clientId) +:+ ", Code: "
     +:+ pretty code +:+ ", Reason: " +:+ reason);;
  s ← state;
  if nonempty userId && Map.has (str userId) (clients s) then
    update (with_clients (Map.delete (str userId)));;
    broadcast (userId_notice UserLeft userId) (Some ws);;
    s' ← state;
    logger_log LevelInfo
      ("User " +:+ str userId +:+ " removed from active clients. Total clients: "
       +:+ pretty (Map.size (clients s')))
  else
    logger_log LevelInfo ("Unauthenticated client " +:+ str clientId +:+ " disconnected.").

(** The ['error'] listener. *)
Definition on_error (ws : nat) (error : JsError) : Js unit :=
  c ← socket ws;
  let userId := userId c in
  let clientId := clientId c in
  logger_log LevelError
    ("WebSocket error for " +:+ str (or_else userId clientId) +:+ ":");;
  s ← state;
  (if nonempty userId && Map.has (str userId) (clients s) then
     update (with_clients (Map.delete (str userId)));;
     broadcast (userId_notice UserLeft userId) (Some ws);;
     s' ← state;
     logger_log LevelInfo
       ("User " +:+ str userId +:+ " removed due to error. Total clients: "
        +:+ pretty (Map.size (clients s')))
   else mret tt);;
  c' ← socket ws;
  if decide (readyState c' <> CLOSED /\ readyState c' <> CLOSING) then terminate ws
  else mret tt.

(** [!client.isAlive] *)
Definition not_alive (c : WebSocketClient) : bool :=
  match isAlive c with
  | Some true => false
  | _ => true
  end.

(** The period of the heartbeat timer, in milliseconds. *)
Definition heartbeat_period : Z := 30000.

(** The callback applied to each member of [wss.clients]. *)
Definition heartbeat_client (client : nat) : Js unit :=
  c ← socket client;
  if not_alive c then
    logger_log LevelInfo
      ("Heartbeat failed for " +:+ str (or_else (userId c) (clientId c))
       +:+ ". Terminating.");;
    terminate client
  else
    assign client (set_isAlive (Some false));;
    ping client.

(** One run of the timer callback. *)
Definition heartbeat : Js unit :=
  s ← state;
  forEach heartbeat_client (wss_clients s).

(** *** The event loop

    The library emits ['close'] once per socket: the socket is then
    [CLOSED] and no longer in [wss.clients].  A handler suspended on the
    store is resumed by the event that carries the settled query. *)
Definition emit_close (ws : nat) (code : Z) (reason : string) : Js unit :=
  assign ws (set_readyState CLOSED);;
  update (with_wss_clients (filter (fun h => h <> ws)));;
  on_close ws code reason.

Inductive Event : Type :=
| Connection (uuid clientIp : string)
| Pong (ws : nat)
| Message (ws : nat) (data : option JsonValue)
| SaveSettled (ws : nat) (m : SignalingMessage) (userId : string) (q : Settled unit)
| QuerySettled (ws : nat) (m : SignalingMessage) (targetId : string)
    (q : Settled (list string))
| Close (ws : nat) (code : Z) (reason : string)
| SocketError (ws : nat) (error : JsError)
| Tick.

Definition listener (e : Event) : Js unit :=
  match e with
  | Connection uuid clientIp => on_connection uuid clientIp;; mret tt
  | Pong ws => on_pong ws
  | Message ws data => on_message ws data;; mret tt
  | SaveSettled ws m u q => try_catch (resume_RegisterPush ws m u q) (message_catch ws)
  | QuerySettled ws m t q => try_catch (resume_relay ws m t q) (message_catch ws)
  | Close ws code reason => emit_close ws code reason
  | SocketError ws error => on_error ws error
  | Tick => heartbeat
  end.

Definition step (s : Server) (e : Event) : Server := final (listener e s).

Definition run (s : Server) (es : list Event) : Server := fold_left step es s.

Definition initial : Server := mkServer ∅ [] [] [].

(** *** Shutdown

    [gracefulShutdown] reads and assigns two variables of the module: [wss]
    and [heartbeatInterval].  They are handed to the function and returned
    by it. *)
Record Globals : Type := mkGlobals {
  wss : bool;                 (* [wss] holds the server, it is not [null] *)
  heartbeatInterval : bool;   (* [heartbeatInterval] holds the timer *)
  heartbeat_scheduled : bool  (* the timer was set and has not been cleared *)
}.

(** What an invocation of [gracefulShutdown] has started when it gives
    control back: the wait for [closeDbPool], followed by [process.exit(0)];
    or [wss.close(callback)], with the timer that forces the exit after the
    given delay in milliseconds. *)
Inductive Shutdown : Type :=
| AwaitCloseDbPool
| AwaitServerClose (force_exit_after : Z).

Definition gracefulShutdown (signal : string) (g : Globals) : Js (Globals * Shutdown) :=
  logger_log LevelInfo ("Received " +:+ signal +:+ ". Shutting down gracefully...");;
  g ← (if heartbeatInterval g then
         logger_log LevelInfo "Heartbeat interval stopped.";;
         mret (mkGlobals (wss g) false false)
       else mret g);
  if negb (wss g) then
    logger_log LevelInfo "WebSocket server instance was not created. Closing DB pool.";;
    closeDbPool;;
    mret (g, AwaitCloseDbPool)
  else
    s ← state;
    logger_log LevelInfo
      ("Terminating " +:+ pretty (length (wss_clients s))
       +:+ " active client connections...");;
    forEach terminate (wss_clients s);;
    update (with_clients (fun _ => []));;
    logger_log LevelInfo "Closing WebSocket server...";;
    mret (g, AwaitServerClose 10000).

(** The callback handed to [wss.close], up to its [await closeDbPool()] ... *)
Definition server_closed (err : option JsError) : Js unit :=
  match err with
  | Some _ => logger_log LevelError "Error closing WebSocket server:"
  | None => logger_log LevelInfo "WebSocket server closed successfully."
  end;;
  closeDbPool.

(** ... and from the settled [pool.end()] on.  The value is the code
    handed to [process.exit]. *)
Definition resume_server_closed (err : option JsError) (q : Settled unit) : Js Z :=
  resume_closeDbPool q;;
  logger_log LevelInfo "Shutdown complete.";;
  mret (match err with Some _ => 1 | None => 0 end)%Z.

(** * The vocabulary of the statements *)

(** ** Envelopes and replies *)

(** [m] is a login envelope whose payload carries the string [u] as its
    [userId]. *)
Definition login_envelope (m : SignalingMessage) (u : string) : Prop :=
  type m = enum Login /\ optional_member (payload m) "userId" = Some (JStr u).

(** [m] belongs to the relay family. *)
Definition relay_envelope (m : SignalingMessage) : Prop :=
  type m = enum Offer \/ type m = enum Answer
  \/ type m = enum Candidate \/ type m = enum MessageRequest.

(** The text of the reply to a login for an id that is taken. *)
Definition taken_reply (m : SignalingMessage) (u : string) : SignalingMessage :=
  error_reply ("User ID " +:+ u +:+ " is already taken/logged in.") m.

(** The three replies of the offline branch. *)
Definition offline_notice (t : string) : SignalingMessage :=
  mkMessage (enum Info)
    (Some (JStr ("User " +:+ t +:+ " is offline. Push notification required.")))
    None None None.

Definition unreachable_reply (m : SignalingMessage) (t : string) : SignalingMessage :=
  error_reply ("User " +:+ t +:+ " is offline and no push token is registered.") m.

Definition store_error_reply (m : SignalingMessage) (t : string) : SignalingMessage :=
  error_reply ("Server error checking offline status for " +:+ t +:+ ".") m.

(** [{ type: MessageType.UserLeft, payload: { userId: u } }] *)
Definition departure_notice (u : string) : SignalingMessage :=
  userId_notice UserLeft (Some u).

(** An object that owns a [toString] property which is not a function. *)
Definition unprintable : JsonValue := JObj [("toString", JNum 1)].

(** ** Effects of a statement *)

(** The completion [r], reached from [s], wrote the single frame [reply] to
    [ws], wrote to no other socket and left the registry alone. *)
Definition replied_only (ws : nat) (reply : SignalingMessage) (s : Server)
    (r : Completion unit) : Prop :=
  exists s',
    r = Normal tt s' /\
    sockets s' = alter (push_frame (Text reply)) ws (sockets s) /\
    clients s' = clients s.

Definition push_frames (fs : list Frame) (c : WebSocketClient) : WebSocketClient :=
  mkClient (clientId c) (userId c) (isAlive c) (readyState c) (sent c ++ fs).

(** What [n] attempts to send [m] leave of the socket [c] behind handle
    [h], when [ws] is the socket left out of the broadcast. *)
Definition notified (ws : nat) (m : SignalingMessage) (n : nat) (h : nat)
    (c : WebSocketClient) : WebSocketClient :=
  if decide (h = ws) then c
  else if decide (readyState c = OPEN) then push_frames (repeat (Text m) n) c
  else c.

(** The connection behind [c] has no registry entry of its own: it never
    logged in, or the registry does not hold its user id. *)
Definition unregistered (s : Server) (c : WebSocketClient) : Prop :=
  userId c = None \/ exists u, userId c = Some u /\ Map.get u (clients s) = None.

(** From [s] to [s']: the entry of [u] was deleted, then one broadcast of
    the departure of [u], leaving [ws] out, ran on the registry without [u];
    nothing else was written.  A socket receives one envelope for each
    remaining binding that leads to it, if it is open. *)
Definition departs (ws : nat) (u : string) (s s' : Server) : Prop :=
  (exists s0 sb,
     sockets s0 = sockets s /\ clients s0 = Map.delete u (clients s) /\
     broadcast (departure_notice u) (Some ws) s0 = Normal tt sb /\
     clients s' = clients sb /\
     forall h, sent (socket_of s' h) = sent (socket_of sb h)) /\
  clients s' = Map.delete u (clients s) /\
  Map.get u (clients s') = None /\
  forall h ch, sockets s !! h = Some ch ->
    sent (socket_of s' h)
    = sent ch ++
      (if decide (h <> ws /\ readyState ch = OPEN)
       then repeat (Text (departure_notice u))
              (count_occ Nat.eq_dec (Map.values (clients s')) h)
       else []).

(** From [s] to [s']: no frame was written and the registry is the same. *)
Definition silent (s s' : Server) : Prop :=
  clients s' = clients s /\ forall h, sent (socket_of s' h) = sent (socket_of s h).

(** What one visit of the heartbeat does to a socket. *)
Definition beat (c : WebSocketClient) : WebSocketClient :=
  if not_alive c then
    if decide (readyState c = CLOSED) then c else set_readyState CLOSING c
  else
    if decide (readyState c = OPEN) then push_frame Ping (set_isAlive (Some false) c)
    else set_isAlive (Some false) c.

(** What the library does to a socket before it calls the ['close']
    listeners. *)
Definition closed_by_library (ws : nat) (s : Server) : Server :=
  with_wss_clients (filter (fun x => x <> ws))
    (with_sockets (alter (set_readyState CLOSED) ws) s).

(** ** Invariants *)

(** The event is a message whose payload carries the string [u] as its
    [userId]: the only events that can bind [u] in the registry. *)
Definition names (u : string) (e : Event) : Prop :=
  match e with
  | Message _ (Some data) =>
      optional_member (optional_member (Some data) "payload") "userId" = Some (JStr u)
  | _ => False
  end.

(** A property [P] of the state is carried through a statement when it
    holds of the state the statement leaves, whether it returns or throws. *)
Definition carried (P : Server -> Prop) {A} (m : Js A) : Prop :=
  forall s, P s -> P (final (m s)).

(** The socket [ws] exists and its [isAlive] flag is not [true]. *)
Definition not_marked_alive (ws : nat) (s : Server) : Prop :=
  exists c, sockets s !! ws = Some c /\ isAlive c <> Some true.

(** The socket [ws] exists and it is terminated, or else it is not marked
    alive and the heartbeat will visit it. *)
Definition doomed (ws : nat) (s : Server) : Prop :=
  exists c,
    sockets s !! ws = Some c /\
    (readyState c <> OPEN \/ (isAlive c <> Some true /\ ws ∈ wss_clients s)).

(** Every user id, of the registry or of a socket, passed the guard of the
    login case: it is not blank. *)
Definition valid_ids (s : Server) : Prop :=
  (forall k h, Map.get k (clients s) = Some h -> trim k <> "")
  /\ (forall h c, sockets s !! h = Some c ->
      forall u, userId c = Some u -> trim u <> "").

(** A socket has a provisional id and no user id, or a user id and no
    provisional id. *)
Definition one_identity (c : WebSocketClient) : Prop :=
  (is_Some (clientId c) /\ userId c = None)
  \/ (clientId c = None /\ is_Some (userId c)).

Definition identities_exclusive (s : Server) : Prop :=
  forall h c, sockets s !! h = Some c -> one_identity c.

(** The registry has one binding per key, as a [Map] has. *)
Definition keys_unique (s : Server) : Prop := NoDup (Map.keys (clients s)).

(** [wss.clients] is a set of allocated sockets, and every open socket is
    one of them. *)
Definition tracked_once (s : Server) : Prop :=
  NoDup (wss_clients s)
  /\ (forall h, h ∈ wss_clients s -> is_Some (sockets s !! h))
  /\ (forall h c, sockets s !! h = Some c -> readyState c = OPEN -> h ∈ wss_clients s).

(** ** Sample envelopes and states *)

Definition login_of (u : string) : SignalingMessage :=
  mkMessage (enum Login) (Some (JObj [("userId", JStr u)])) None None None.

Definition login_data (u : string) : option JsonValue :=
  Some (JObj [("type", JStr "login"); ("payload", JObj [("userId", JStr u)])]).

Definition forged_offer : SignalingMessage :=
  mkMessage (enum Offer) (Some (JObj [("sdp", JStr "v=0")])) (Some (JStr "bob"))
    (Some (JStr "mallory")) None.

Definition offer_to (t : string) : SignalingMessage :=
  mkMessage (enum Offer) (Some (JObj [("sdp", JStr "v=0")])) (Some (JStr t)) None None.

(** A fresh connection. *)
Definition guest_alone : Server := run initial [Connection "c-0" "10.0.0.1"].

(** One connection, identified as alice. *)
Definition alice_alone : Server :=
  run initial [Connection "c-0" "10.0.0.1"; Message 0 (login_data "alice")].

(** Alice on socket 0 and an anonymous connection on socket 1. *)
Definition alice_and_guest : Server :=
  run alice_alone [Connection "c-1" "10.0.0.2"].

(** Sample: bob joins alice; alice sends an offer that claims to come
    from mallory. *)
Definition alice_and_bob : Server :=
  run alice_and_guest [Message 1 (login_data "bob")].

(** Carol logs in and then stays silent. *)
Definition carol_and_alice : Server :=
  run alice_alone [Connection "c-1" "10.0.0.3"; Message 1 (login_data "carol")].

(** ** Replies to a message that is not served *)

(** From [s], the handler answers [m], received on [ws], with the error
    [text] and does nothing else: it asks nothing of the store, and the
    registry, [wss.clients], the log and every other socket are as they
    were. *)
Definition refused (ws : nat) (m : SignalingMessage) (text : string) (s : Server) : Prop :=
  exists s',
    handleWebSocketMessage ws m s = Normal Completed s' /\
    sockets s' = alter (push_frame (Text (error_reply text m))) ws (sockets s) /\
    clients s' = clients s /\ wss_clients s' = wss_clients s /\ log s' = log s.

(** The member is absent, or not a string, or a blank string. *)
Definition no_valid_string (v : JsValue) : Prop :=
  forall u, v = Some (JStr u) -> trim u = "".


(** The reply of the [catch] clause of the ['message'] listener. *)
Definition invalid_reply (text : string) : SignalingMessage :=
  mkMessage (enum Error)
    (Some (JObj [("message",
                  JStr ("Invalid message format or processing error: " +:+ text))]))
    None None None.

(** What [JSON.parse] gave cannot be handed to the handler: it threw, or
    returned [null], or a value whose [type] is missing or falsy. *)
Definition malformed (data : option JsonValue) : Prop :=
  match data with
  | None => True
  | Some v => v = JNull \/ truthy (optional_member (Some v) "type") = false
  end.

(** What a broadcast of [m] that leaves [senderWs] out makes of the socket
    [c] behind handle [h], when [n] bindings of the registry lead to it. *)
Definition reached (senderWs : option nat) (m : SignalingMessage) (n h : nat)
    (c : WebSocketClient) : WebSocketClient :=
  if decide (Some h = senderWs) then c
  else if decide (readyState c = OPEN) then push_frames (repeat (Text m) n) c
  else c.

(** What [terminate] makes of a socket. *)
Definition terminated (c : WebSocketClient) : WebSocketClient :=
  if decide (readyState c = CLOSED) then c else set_readyState CLOSING c.

(** ** Events and what they may write *)

(** The event is a login message received on [ws] that asks for the user
    id [u]. *)
Definition login_request (ws : nat) (u : string) (e : Event) : Prop :=
  match e with
  | Message ws' (Some data) =>
      ws' = ws /\ optional_member (Some data) "type" = Some (enum Login) /\
      optional_member (optional_member (Some data) "payload") "userId" = Some (JStr u)
  | _ => False
  end.

(** The event is the close or the error of [ws]. *)
Definition departure (ws : nat) (e : Event) : Prop :=
  match e with
  | Close ws' _ _ => ws' = ws
  | SocketError ws' _ => ws' = ws
  | _ => False
  end.

Definition is_close (e : Event) : Prop :=
  match e with
  | Close _ _ _ => True
  | _ => False
  end.

(** The socket an event comes from, if any. *)
Definition subject (e : Event) : option nat :=
  match e with
  | Connection _ _ | Tick => None
  | Pong ws | Message ws _ | SaveSettled ws _ _ _ | QuerySettled ws _ _ _
  | Close ws _ _ | SocketError ws _ => Some ws
  end.

(** Every event of [es] comes from a socket that has connected before. *)
Fixpoint connected_first (s : Server) (es : list Event) : Prop :=
  match es with
  | [] => True
  | e :: rest =>
      (forall ws, subject e = Some ws -> is_Some (sockets s !! ws))
      /\ connected_first (step s e) rest
  end.

(** The writes of the listeners, other than log entries and frames: a new
    socket; [isAlive] set to [true] or, by the heartbeat, to [false];
    [terminate]; the close of a socket by the library; a user id bound to a
    socket; the user id of a socket deleted from the registry. *)
Inductive Write : Type :=
| Connect
| MarkAlive (h : nat)
| Probe (h : nat)
| Terminate (h : nat)
| LibraryClose (h : nat)
| Enter (h : nat) (u : string)
| Leave (h : nat).

(** The writes that the listener of an event can perform. *)
Definition footprint (e : Event) (w : Write) : Prop :=
  match e, w with
  | Connection _ _, Connect => True
  | Pong ws, MarkAlive h => h = ws
  | Message ws _, Enter h u => h = ws /\ login_request ws u e /\ trim u <> ""
  | Message ws _, Terminate h => h = ws /\ exists u, login_request ws u e /\ trim u <> ""
  | Close ws _ _, LibraryClose h => h = ws
  | Close ws _ _, Leave h => h = ws
  | SocketError ws _, Leave h => h = ws
  | SocketError ws _, Terminate h => h = ws
  | Tick, Probe _ => True
  | Tick, Terminate _ => True
  | _, _ => False
  end.

(** The statement returns normally from every state. *)
Definition returns {A} (m : Js A) : Prop := forall s, exists a s', m s = Normal a s'.

(** The socket behind [h] exists and satisfies [Q]. *)
Definition socket_has (h : nat) (Q : WebSocketClient -> Prop) (s : Server) : Prop :=
  exists c, sockets s !! h = Some c /\ Q c.

(** Every entry of the registry leads to a socket that is identified. *)
Definition registered_identified (s : Server) : Prop :=
  forall u h, Map.get u (clients s) = Some h ->
              socket_has h (fun c => is_Some (userId c)) s.

(** In [es] every probe of [ws] is answered before the next one: a tick
    finds [ws] marked alive ([alive] says whether it is so at the start), a
    pong of [ws] marks it alive again, and no other event is a login request
    or a departure of [ws]. *)
Fixpoint answers_probes (ws : nat) (alive : bool) (es : list Event) : Prop :=
  match es with
  | [] => True
  | e :: rest =>
      match e with
      | Tick => alive = true /\ answers_probes ws false rest
      | Pong h => answers_probes ws (if decide (h = ws) then true else alive) rest
      | _ =>
          (forall u, ~ login_request ws u e) /\ ~ departure ws e
          /\ answers_probes ws alive rest
      end
  end.

(** * Proofs *)

(** ** The model at work *)

Example ToString_array :
  ToString (JArr [JNum 1; JNull; JStr "a"; JBool true; JArr []; JNum (-5)])
  = Some "1,,a,true,,-5".
Proof. reflexivity. Qed.

Example ToString_object : ToString (JObj [("a", JNum 1)]) = Some "[object Object]".
Proof. reflexivity. Qed.

Example ToString_unprintable :
  ToString unprintable = None /\ ToString (JArr [JStr "a"; unprintable]) = None.
Proof. split; reflexivity. Qed.

Example trim_spaces :
  trim "  a b  " = "a b" /\ trim "   " = "" /\ trim "" = "" /\ trim "x" = "x".
Proof. repeat split; reflexivity. Qed.

Example falsy_values :
  map truthy [None; Some JNull; Some (JBool false); Some (JNum 0); Some (JStr "")]
  = [false; false; false; false; false].
Proof. reflexivity. Qed.

Example truthy_values :
  map truthy [Some (JBool true); Some (JNum 7); Some (JStr "0"); Some (JArr []);
              Some (JObj [])]
  = [true; true; true; true; true].
Proof. reflexivity. Qed.

(** A second login for alice, from another connection: the newcomer gets
    the error and is closed, alice stays open and registered. *)
Example scenario_second_login :
  let s := run alice_and_guest [Message 1 (login_data "alice"); Close 1 1006 ""] in
  sent (socket_of s 1) = [Text (taken_reply (login_of "alice") "alice")]
  /\ readyState (socket_of s 1) = CLOSED
  /\ readyState (socket_of s 0) = OPEN
  /\ clients s = [("alice", 0)].
Proof. vm_compute. repeat split. Qed.

(** An offer for bob, who is not connected and has a token on file: alice
    gets the info notice and nobody gets the offer. *)
Example scenario_offline_target :
  let s := run alice_and_guest
             [Message 0 (Some (JObj [("type", JStr "offer"); ("target", JStr "bob");
                                     ("payload", JObj [("sdp", JStr "v=0")])]));
              QuerySettled 0 (offer_to "bob") "bob" (Fulfilled ["token-b"])] in
  sent (socket_of s 0)
    = sent (socket_of alice_and_guest 0) ++ [Text (offline_notice "bob")]
  /\ sent (socket_of s 1) = [].
Proof. vm_compute. repeat split. Qed.

(** An offer for bob, who is connected: bob gets it with alice as sender
    and the payload as sent. *)
Example scenario_online_target :
  let s := run alice_and_bob
             [Message 0 (Some (JObj [("type", JStr "offer"); ("target", JStr "bob");
                                     ("sender", JStr "mallory");
                                     ("payload", JObj [("sdp", JStr "v=0")])]))] in
  sent (socket_of s 1)
    = sent (socket_of alice_and_bob 1)
      ++ [Text (mkMessage (enum Offer) (Some (JObj [("sdp", JStr "v=0")]))
                  (Some (JStr "bob")) (Some (JStr "alice")) None)].
Proof. vm_compute. reflexivity. Qed.

(** Carol misses two probes: the second run of the heartbeat terminates
    her socket; once it has closed, carol is out of the registry and alice
    has been told. *)
Example scenario_missed_probes :
  let s1 := run carol_and_alice [Tick; Pong 0; Tick] in
  let s2 := step s1 (Close 1 1006 "") in
  readyState (socket_of s1 1) = CLOSING
  /\ readyState (socket_of s1 0) = OPEN
  /\ clients s2 = [("alice", 0)]
  /\ last (sent (socket_of s2 0)) = Some (Text (departure_notice "carol")).
Proof. vm_compute. repeat split. Qed.

(** ** The registry *)

Module MapFacts.

Lemma get_set_eq k v m : Map.get k (Map.set k v m) = Some v.
Proof.
  induction m as [|[k' v'] rest IH]; simpl.
  - now rewrite String.eqb_refl.
  - destruct (String.eqb k k') eqn:E; simpl.
    + now rewrite String.eqb_refl.
    + now rewrite E.
Qed.

Lemma get_set_ne k k' v m : k <> k' -> Map.get k' (Map.set k v m) = Map.get k' m.
Proof.
  intros Hne. induction m as [|[k0 v0] rest IH]; simpl.
  - destruct (String.eqb_spec k' k); congruence.
  - destruct (String.eqb_spec k k0) as [->|Hk]; simpl.
    + destruct (String.eqb_spec k' k0); congruence.
    + destruct (String.eqb_spec k' k0); congruence.
Qed.

Lemma get_delete_eq k m : Map.get k (Map.delete k m) = None.
Proof.
  induction m as [|[k' v'] rest IH]; simpl; [reflexivity|].
  destruct (String.eqb k k') eqn:E; simpl; [assumption|].
  now rewrite E.
Qed.

Lemma get_delete_ne k k' m : k <> k' -> Map.get k' (Map.delete k m) = Map.get k' m.
Proof.
  intros Hne. induction m as [|[k0 v0] rest IH]; simpl; [reflexivity|].
  destruct (String.eqb_spec k k0) as [->|Hk]; simpl.
  - destruct (String.eqb_spec k' k0); congruence.
  - destruct (String.eqb_spec k' k0); congruence.
Qed.

(** Deleting an absent key changes nothing. *)
Lemma delete_absent k m : Map.get k m = None -> Map.delete k m = m.
Proof.
  induction m as [|[k' v'] rest IH]; simpl; [reflexivity|].
  destruct (String.eqb k k'); [discriminate|].
  intros H. now rewrite IH.
Qed.

Lemma size_set_absent k v m :
  Map.get k m = None -> Map.size (Map.set k v m) = S (Map.size m).
Proof.
  unfold Map.size. induction m as [|[k' v'] rest IH]; simpl; [reflexivity|].
  destruct (String.eqb k k'); [discriminate|].
  intros H. simpl. now rewrite IH.
Qed.

Lemma has_true k m : Map.has k m = true <-> exists v, Map.get k m = Some v.
Proof.
  unfold Map.has. destruct (Map.get k m); split; eauto; try discriminate.
  intros [v Hv]; discriminate.
Qed.

Lemma has_false k m : Map.has k m = false <-> Map.get k m = None.
Proof. unfold Map.has. destruct (Map.get k m); split; congruence. Qed.

Lemma get_None_keys k m : Map.get k m = None <-> k ∉ Map.keys m.
Proof.
  unfold Map.keys. induction m as [|[k' v'] rest IH]; simpl.
  - split; [intros _; apply not_elem_of_nil|reflexivity].
  - rewrite not_elem_of_cons.
    destruct (String.eqb_spec k k') as [->|Hne].
    + split; [discriminate|]. intros [H _]. now destruct H.
    + rewrite IH. tauto.
Qed.

Lemma keys_delete k k' m : k' ∈ Map.keys (Map.delete k m) -> k' ∈ Map.keys m.
Proof.
  unfold Map.keys. induction m as [|[k0 v0] rest IH]; simpl; [trivial|].
  destruct (String.eqb k k0); simpl; rewrite ?elem_of_cons; intuition.
Qed.

Lemma keys_unique_delete k m : NoDup (Map.keys m) -> NoDup (Map.keys (Map.delete k m)).
Proof.
  unfold Map.keys. induction m as [|[k0 v0] rest IH]; simpl; [trivial|].
  intros Hnd. apply NoDup_cons in Hnd as [Hnot Hnd].
  destruct (String.eqb k k0); simpl; [now apply IH|].
  apply NoDup_cons. split; [|now apply IH].
  intros Hin. apply Hnot. now apply (keys_delete k k0 rest).
Qed.

Lemma keys_set k v m :
  Map.keys (Map.set k v m)
  = if Map.has k m then Map.keys m else Map.keys m ++ [k].
Proof.
  unfold Map.keys, Map.has. induction m as [|[k0 v0] rest IH]; simpl; [reflexivity|].
  destruct (String.eqb_spec k k0) as [->|Hne]; simpl; [reflexivity|].
  rewrite IH. now destruct (Map.get k rest).
Qed.

Lemma keys_unique_set k v m : NoDup (Map.keys m) -> NoDup (Map.keys (Map.set k v m)).
Proof.
  intros Hnd. rewrite keys_set. destruct (Map.has k m) eqn:Hhas; [exact Hnd|].
  apply NoDup_app. split; [exact Hnd|]. split; [|apply NoDup_singleton].
  intros x Hx Hx'. apply list_elem_of_singleton in Hx' as ->.
  apply has_false, get_None_keys in Hhas. contradiction.
Qed.

End MapFacts.

Lemma get_delete_Some k k' h m :
  Map.get k' (Map.delete k m) = Some h -> Map.get k' m = Some h.
Proof.
  destruct (String.eqb_spec k k') as [->|Hne].
  - now rewrite MapFacts.get_delete_eq.
  - now rewrite MapFacts.get_delete_ne.
Qed.

(** ** The primitive statements *)

Lemma socket_of_lookup s ws c : sockets s !! ws = Some c -> socket_of s ws = c.
Proof. unfold socket_of. now intros ->. Qed.

Lemma socket_of_alter s ws f c :
  sockets s !! ws = Some c ->
  socket_of (with_sockets (alter f ws) s) ws = f c.
Proof.
  intros H. unfold socket_of, with_sockets; simpl.
  rewrite lookup_alter_eq, H. reflexivity.
Qed.

Lemma socket_of_with_log s f ws : socket_of (with_log f s) ws = socket_of s ws.
Proof. reflexivity. Qed.

Lemma sent_socket_of_alter_readyState s ws r h :
  sent (socket_of (with_sockets (alter (set_readyState r) ws) s) h) = sent (socket_of s h).
Proof.
  unfold socket_of, with_sockets; simpl.
  destruct (decide (ws = h)) as [->|Hne].
  - rewrite lookup_alter_eq. now destruct (sockets s !! h).
  - now rewrite lookup_alter_ne.
Qed.

Lemma lookup_alter_cases (f : WebSocketClient -> WebSocketClient) h ws
    (m : gmap nat WebSocketClient) c :
  m !! ws = Some c ->
  alter f h m !! ws = Some (if decide (h = ws) then f c else c).
Proof.
  intros H. case_decide.
  - subst h. now rewrite lookup_alter_eq, H.
  - now rewrite lookup_alter_ne.
Qed.

Lemma alter_keeps (Q : WebSocketClient -> Prop) f h (m : gmap nat WebSocketClient) :
  (forall c, Q c -> Q (f c)) ->
  (forall x c, m !! x = Some c -> Q c) ->
  forall x c, alter f h m !! x = Some c -> Q c.
Proof.
  intros Hf Hm x c Hget.
  apply lookup_alter_Some in Hget as [(-> & y & Hy & ->)|[_ Hx]]; eauto.
Qed.

Lemma fresh_not_allocated (m : gmap nat WebSocketClient) h :
  is_Some (m !! h) -> h <> fresh (dom m).
Proof.
  intros Hh ->. apply (is_fresh (dom m)). now apply elem_of_dom.
Qed.

Lemma sendWsMessage_open ws m s :
  readyState (socket_of s ws) = OPEN ->
  sendWsMessage ws m s = Normal tt (with_sockets (alter (push_frame (Text m)) ws) s).
Proof.
  intros H. unfold sendWsMessage, socket, mbind, Js_bind.
  rewrite decide_True by assumption. reflexivity.
Qed.

Lemma sendWsMessage_not_open ws m s :
  readyState (socket_of s ws) <> OPEN ->
  exists entry, sendWsMessage ws m s = Normal tt (with_log (fun l => l ++ [entry]) s).
Proof.
  intros H. unfold sendWsMessage, socket, mbind, Js_bind.
  rewrite decide_False by assumption. eexists. reflexivity.
Qed.

Lemma sendWsMessage_returns ws m s : exists s', sendWsMessage ws m s = Normal tt s'.
Proof.
  destruct (decide (readyState (socket_of s ws) = OPEN)) as [H|H].
  - rewrite sendWsMessage_open by assumption. eauto.
  - destruct (sendWsMessage_not_open ws m s H) as [entry ->]. eauto.
Qed.

Lemma terminate_not_closed ws s :
  readyState (socket_of s ws) <> CLOSED ->
  terminate ws s = Normal tt (with_sockets (alter (set_readyState CLOSING) ws) s).
Proof.
  intros H. unfold terminate, socket, mbind, Js_bind.
  rewrite decide_False by assumption. reflexivity.
Qed.

Lemma valid_string_accepted u :
  trim u <> "" -> not_a_valid_string (Some (JStr u)) = false.
Proof.
  intros H. unfold not_a_valid_string; simpl.
  destruct (String.eqb_spec u "") as [->|_]; [now destruct H|].
  destruct (String.eqb_spec (trim u) ""); [contradiction|reflexivity].
Qed.

Lemma accepted_string_valid u :
  not_a_valid_string (Some (JStr u)) = false -> trim u <> "".
Proof.
  unfold not_a_valid_string; simpl. intros H Hblank.
  rewrite Hblank in H. simpl in H. now rewrite orb_true_r in H.
Qed.

Lemma nonempty_Some u : u <> "" -> nonempty (Some u) = true.
Proof. intros H. simpl. now destruct (String.eqb_spec u ""). Qed.

Lemma truthy_JStr u : u <> "" -> truthy (Some (JStr u)) = true.
Proof. intros H. simpl. now destruct (String.eqb_spec u ""). Qed.

(** The ['connection'] listener allocates a handle that is not in use and
    touches no other socket. *)
Lemma on_connection_effect uuid clientIp s :
  exists s',
    on_connection uuid clientIp s = Normal (fresh (dom (sockets s))) s' /\
    sockets s' !! fresh (dom (sockets s))
      = Some (mkClient (Some uuid) None (Some true) OPEN []) /\
    (forall h, h <> fresh (dom (sockets s)) -> sockets s' !! h = sockets s !! h) /\
    wss_clients s' = wss_clients s ++ [fresh (dom (sockets s))] /\
    clients s' = clients s.
Proof.
  unfold on_connection, state, assign, update, logger_log, update.
  cbv beta iota zeta delta [mbind Js_bind mret Js_ret].
  eexists. split; [reflexivity|]. simpl. repeat split.
  - rewrite !lookup_alter_eq, lookup_insert_eq. reflexivity.
  - intros h Hne.
    rewrite !lookup_alter_ne, lookup_insert_ne by congruence. reflexivity.
Qed.

(** ** Invariants of the event loop

    A property [P] of the state is carried through a statement when it
    holds of the state the statement leaves, whether it returns or throws.
    The section proves it for every listener from the way [P] fares under
    the few writes the listeners are made of. *)
Section Carried.

Variable P : Server -> Prop.

(** The user ids whose login, and the sockets whose pong, [P] survives. *)
Variable may_login : string -> Prop.
Variable may_pong : nat -> Prop.

Hypothesis P_log : forall f s, P s -> P (with_log f s).
Hypothesis P_delete : forall k s, P s -> P (with_clients (Map.delete k) s).
Hypothesis P_frame : forall h fr s, P s -> P (with_sockets (alter (push_frame fr) h) s).
Hypothesis P_closing :
  forall h s, P s -> P (with_sockets (alter (set_readyState CLOSING) h) s).
Hypothesis P_not_alive :
  forall h s, P s -> P (with_sockets (alter (set_isAlive (Some false)) h) s).
Hypothesis P_alive :
  forall h s, may_pong h -> P s -> P (with_sockets (alter (set_isAlive (Some true)) h) s).
Hypothesis P_login :
  forall h u s,
    may_login u -> P s ->
    P (with_clients (Map.set u h)
         (with_sockets (alter (set_userId (Some u)) h)
            (with_sockets (alter (set_clientId None) h) s))).
Hypothesis P_closed :
  forall h s,
    P s ->
    P (with_wss_clients (filter (fun x => x <> h))
         (with_sockets (alter (set_readyState CLOSED) h) s)).
Hypothesis P_connection : forall uuid clientIp, carried P (on_connection uuid clientIp).

Lemma carried_ret {A} (a : A) : carried P (mret a).
Proof. intros s H. exact H. Qed.

Lemma carried_bind {A B} (m : Js A) (f : A -> Js B) :
  carried P m -> (forall a, carried P (f a)) -> carried P (m ≫= f).
Proof.
  intros Hm Hf s H. unfold mbind, Js_bind. specialize (Hm s H).
  destruct (m s) as [a s'|e s']; simpl in *; [now apply Hf|assumption].
Qed.

Lemma carried_try_catch {A} (m : Js A) (k : JsError -> Js A) :
  carried P m -> (forall e, carried P (k e)) -> carried P (try_catch m k).
Proof.
  intros Hm Hk s H. unfold try_catch. specialize (Hm s H).
  destruct (m s) as [a s'|e s']; simpl in *; [assumption|now apply Hk].
Qed.

Lemma carried_throw {A} e : carried P (@throw A e).
Proof. intros s H. exact H. Qed.

Lemma carried_state : carried P state.
Proof. intros s H. exact H. Qed.

Lemma carried_socket ws : carried P (socket ws).
Proof. intros s H. exact H. Qed.

Lemma carried_template v : carried P (template v).
Proof.
  intros s H. unfold template.
  destruct v as [j|]; [destruct (ToString j)|]; exact H.
Qed.

Lemma carried_member v k : carried P (member v k).
Proof. intros s H. unfold member. destruct v; exact H. Qed.

Lemma carried_logger_log l m : carried P (logger_log l m).
Proof. intros s H. now apply P_log. Qed.

Ltac carry :=
  repeat
    (match goal with
     | |- carried P (mret _) => apply carried_ret
     | |- carried P (throw _) => apply carried_throw
     | |- carried P state => apply carried_state
     | |- carried P (socket _) => apply carried_socket
     | |- carried P (template _) => apply carried_template
     | |- carried P (member _ _) => apply carried_member
     | |- carried P (logger_log _ _) => apply carried_logger_log
     | |- carried P (_ ≫= _) => apply carried_bind; [|intros ?]
     | |- carried P (try_catch _ _) => apply carried_try_catch; [|intros ?]
     | |- carried P (if ?b then _ else _) => destruct b
     | |- carried P (match ?x with _ => _ end) => destruct x
     | H : carried P ?m |- carried P ?m => exact H
     end).

Lemma carried_sendWsMessage ws m : carried P (sendWsMessage ws m).
Proof.
  unfold sendWsMessage. carry.
  - intros s H. now apply P_frame.
Qed.

Lemma carried_terminate ws : carried P (terminate ws).
Proof.
  unfold terminate. carry. intros s H. now apply P_closing.
Qed.

Lemma carried_ping ws : carried P (ping ws).
Proof.
  unfold ping. carry. intros s H. now apply P_frame.
Qed.

Lemma carried_forEach f l : (forall x, carried P (f x)) -> carried P (forEach f l).
Proof.
  intros Hf. induction l as [|x rest IH]; simpl.
  - apply carried_ret.
  - apply carried_bind; [apply Hf|intros _; exact IH].
Qed.

Lemma carried_broadcast m senderWs : carried P (broadcast m senderWs).
Proof.
  unfold broadcast. carry.
  apply carried_forEach. intros x. carry. apply carried_sendWsMessage.
Qed.

Lemma carried_outer_catch {A} ws m (a : A) e : carried P (outer_catch ws m a e).
Proof. unfold outer_catch. carry. apply carried_sendWsMessage. Qed.

Lemma carried_message_catch ws e : carried P (message_catch ws e).
Proof. unfold message_catch. carry. apply carried_sendWsMessage. Qed.

Lemma carried_case_Login ws m :
  (forall u, optional_member (payload m) "userId" = Some (JStr u) ->
             trim u <> "" -> may_login u) ->
  carried P (case_Login ws m).
Proof.
  intros Hmay. unfold case_Login.
  destruct (not_a_valid_string _) eqn:Hvalid; [carry; apply carried_sendWsMessage|].
  destruct (optional_member _ _) as [[| | |userId| |]|]; try apply carried_ret.
  specialize (Hmay userId eq_refl (accepted_string_valid _ Hvalid)).
  apply carried_bind; [apply carried_state|intros s0].
  destruct (Map.has _ _).
  - carry; [apply carried_sendWsMessage|apply carried_terminate].
  - apply carried_bind; [apply carried_socket|intros c].
    intros s H.
    cbv beta iota zeta delta [assign update logger_log mbind Js_bind].
    match goal with
    | |- context [sendWsMessage ?w ?r ?st] =>
        assert (Hst : P st) by (apply P_log, P_login; [exact Hmay|exact H]);
        pose proof (carried_sendWsMessage w r st Hst) as Hsend;
        destruct (sendWsMessage w r st)
    end; exact Hsend.
Qed.

Lemma carried_case_RegisterPush ws m : carried P (case_RegisterPush ws m).
Proof. unfold case_RegisterPush. carry; apply carried_sendWsMessage. Qed.

Lemma carried_case_relay ws m : carried P (case_relay ws m).
Proof. unfold case_relay. carry; apply carried_sendWsMessage. Qed.

Lemma carried_case_default ws m : carried P (case_default ws m).
Proof. unfold case_default. carry; apply carried_sendWsMessage. Qed.

Lemma carried_handleWebSocketMessage ws m :
  (forall u, optional_member (payload m) "userId" = Some (JStr u) ->
             trim u <> "" -> may_login u) ->
  carried P (handleWebSocketMessage ws m).
Proof.
  intros Hmay. unfold handleWebSocketMessage. apply carried_try_catch.
  - unfold dispatch. carry.
    + now apply carried_case_Login.
    + apply carried_case_RegisterPush.
    + apply carried_case_relay.
    + apply carried_case_default.
  - intros e. apply carried_outer_catch.
Qed.

Lemma carried_resume_RegisterPush ws m u q : carried P (resume_RegisterPush ws m u q).
Proof.
  unfold resume_RegisterPush, saveOrUpdatePushToken.
  carry; apply carried_sendWsMessage || apply carried_outer_catch.
Qed.

Lemma carried_resume_relay ws m t q : carried P (resume_relay ws m t q).
Proof.
  unfold resume_relay, getPushToken.
  carry; apply carried_sendWsMessage || apply carried_outer_catch.
Qed.

Lemma carried_on_message ws data :
  (forall u, names u (Message ws data) -> trim u <> "" -> may_login u) ->
  carried P (on_message ws data).
Proof.
  intros Hmay. unfold on_message.
  carry; try apply carried_message_catch.
  apply carried_handleWebSocketMessage. exact Hmay.
Qed.

Lemma carried_on_close ws code reason : carried P (on_close ws code reason).
Proof.
  unfold on_close. carry.
  - intros s H. now apply P_delete.
  - apply carried_broadcast.
Qed.

Lemma carried_on_error ws error : carried P (on_error ws error).
Proof.
  unfold on_error. carry; try apply carried_terminate.
  - intros s H. now apply P_delete.
  - apply carried_broadcast.
Qed.

Lemma carried_emit_close ws code reason : carried P (emit_close ws code reason).
Proof.
  intros s H. unfold emit_close, assign, update, mbind, Js_bind.
  apply carried_on_close. now apply P_closed.
Qed.

Lemma carried_heartbeat : carried P heartbeat.
Proof.
  unfold heartbeat. carry. apply carried_forEach. intros x.
  unfold heartbeat_client. carry.
  - apply carried_terminate.
  - intros s H. now apply P_not_alive.
  - apply carried_ping.
Qed.

(** An event carries [P] unless it is a login or a pong that [P] does not
    survive. *)
Lemma carried_listener e :
  (forall u, names u e -> trim u <> "" -> may_login u) ->
  (forall ws, e = Pong ws -> may_pong ws) ->
  carried P (listener e).
Proof.
  intros Hlogin Hpong. destruct e; simpl.
  - apply carried_bind; [apply P_connection|intros ?; apply carried_ret].
  - intros s H. apply P_alive; [now apply Hpong|exact H].
  - apply carried_bind; [now apply carried_on_message|intros ?; apply carried_ret].
  - apply carried_try_catch;
      [apply carried_resume_RegisterPush|intros ?; apply carried_message_catch].
  - apply carried_try_catch;
      [apply carried_resume_relay|intros ?; apply carried_message_catch].
  - apply carried_emit_close.
  - apply carried_on_error.
  - apply carried_heartbeat.
Qed.

End Carried.

(** ** Invariants of the reachable states *)

Lemma valid_ids_step s e : valid_ids s -> valid_ids (step s e).
Proof.
  unfold step.
  apply (carried_listener valid_ids (fun u => trim u <> "") (fun _ => True));
    unfold valid_ids; [| | | | | | | | |auto|trivial].
  - intros f s0 H. exact H.
  - intros k s0 [Hreg Hsock]. split; [|exact Hsock].
    intros k' h Hget. simpl in Hget. eauto using get_delete_Some.
  - intros h fr s0 [Hreg Hsock]. split; [exact Hreg|]. simpl.
    apply (alter_keeps (fun c => forall u, userId c = Some u -> trim u <> ""));
      [intros c Hc; exact Hc|exact Hsock].
  - intros h s0 [Hreg Hsock]. split; [exact Hreg|]. simpl.
    apply (alter_keeps (fun c => forall u, userId c = Some u -> trim u <> ""));
      [intros c Hc; exact Hc|exact Hsock].
  - intros h s0 [Hreg Hsock]. split; [exact Hreg|]. simpl.
    apply (alter_keeps (fun c => forall u, userId c = Some u -> trim u <> ""));
      [intros c Hc; exact Hc|exact Hsock].
  - intros h s0 _ [Hreg Hsock]. split; [exact Hreg|]. simpl.
    apply (alter_keeps (fun c => forall u, userId c = Some u -> trim u <> ""));
      [intros c Hc; exact Hc|exact Hsock].
  - intros h u s0 Hu [Hreg Hsock]. split.
    + intros k h' Hget. simpl in Hget.
      destruct (String.eqb_spec u k) as [<-|Hne]; [exact Hu|].
      rewrite MapFacts.get_set_ne in Hget by assumption. eauto.
    + simpl.
      apply (alter_keeps (fun c => forall u, userId c = Some u -> trim u <> ""));
        [intros c _ u' [= <-]; exact Hu|].
      apply (alter_keeps (fun c => forall u, userId c = Some u -> trim u <> ""));
        [intros c Hc; exact Hc|exact Hsock].
  - intros h s0 [Hreg Hsock]. split; [exact Hreg|]. simpl.
    apply (alter_keeps (fun c => forall u, userId c = Some u -> trim u <> ""));
      [intros c Hc; exact Hc|exact Hsock].
  - intros uuid clientIp s0 [Hreg Hsock].
    destruct (on_connection_effect uuid clientIp s0)
      as (s' & -> & Hnew & Hold & _ & Hc).
    simpl. split; [now rewrite Hc|].
    intros h c Hget.
    destruct (decide (h = fresh (dom (sockets s0)))) as [->|Hne].
    + rewrite Hnew in Hget. injection Hget as <-. discriminate.
    + rewrite Hold in Hget by assumption. eauto.
Qed.

Lemma valid_ids_run es : forall s, valid_ids s -> valid_ids (run s es).
Proof.
  induction es as [|e es IH]; intros s H; simpl; [exact H|].
  now apply IH, valid_ids_step.
Qed.

(** The user ids of a reachable state are not blank. *)
Lemma reachable_valid_ids es : valid_ids (run initial es).
Proof.
  apply valid_ids_run. split.
  - intros k h H. discriminate.
  - intros h c H. simpl in H. now rewrite lookup_empty in H.
Qed.

Lemma valid_ids_registered s u h :
  valid_ids s -> Map.get u (clients s) = Some h -> trim u <> "".
Proof. intros [Hreg _]. apply Hreg. Qed.

Lemma valid_ids_identified s ws c u :
  valid_ids s -> sockets s !! ws = Some c -> userId c = Some u -> u <> "".
Proof.
  intros [_ Hsock] Hws Hid ->. now apply (Hsock ws c Hws "" Hid).
Qed.

Lemma identities_exclusive_step s e :
  identities_exclusive s -> identities_exclusive (step s e).
Proof.
  unfold step.
  apply (carried_listener identities_exclusive (fun _ => True) (fun _ => True));
    unfold identities_exclusive; [| | | | | | | | |trivial|trivial].
  - intros f s0 H. exact H.
  - intros k s0 H. exact H.
  - intros h fr s0 H. simpl. apply alter_keeps; [intros c Hc; exact Hc|exact H].
  - intros h s0 H. simpl. apply alter_keeps; [intros c Hc; exact Hc|exact H].
  - intros h s0 H. simpl. apply alter_keeps; [intros c Hc; exact Hc|exact H].
  - intros h s0 _ H. simpl. apply alter_keeps; [intros c Hc; exact Hc|exact H].
  - intros h u s0 _ H h' c Hget. simpl in Hget.
    apply lookup_alter_Some in Hget as [(-> & x & Hx & ->)|[Hne Hx]].
    + right. split; [|eexists; reflexivity].
      apply lookup_alter_Some in Hx as [(_ & y & _ & ->)|[Hne _]];
        [reflexivity|congruence].
    + apply lookup_alter_Some in Hx as [(-> & _)|[_ Hx]]; [congruence|eauto].
  - intros h s0 H. simpl. apply alter_keeps; [intros c Hc; exact Hc|exact H].
  - intros uuid clientIp s0 H.
    destruct (on_connection_effect uuid clientIp s0) as (s' & -> & Hnew & Hold & _).
    simpl. intros h c Hget.
    destruct (decide (h = fresh (dom (sockets s0)))) as [->|Hne].
    + rewrite Hnew in Hget. injection Hget as <-. left.
      split; [eexists; reflexivity|reflexivity].
    + rewrite Hold in Hget by assumption. eauto.
Qed.

(** In every reachable state each socket holds exactly one of the two
    identities. *)
Lemma identity_invariant es : identities_exclusive (run initial es).
Proof.
  assert (Hrun : forall es s, identities_exclusive s -> identities_exclusive (run s es)).
  { clear es. induction es as [|e es IH]; intros s H; simpl; [exact H|].
    now apply IH, identities_exclusive_step. }
  apply Hrun. intros h c H. simpl in H. now rewrite lookup_empty in H.
Qed.

Lemma keys_unique_step s e : keys_unique s -> keys_unique (step s e).
Proof.
  unfold step.
  apply (carried_listener keys_unique (fun _ => True) (fun _ => True));
    unfold keys_unique; [| | | | | | | | |trivial|trivial].
  - intros f s0 H. exact H.
  - intros k s0 H. simpl. now apply MapFacts.keys_unique_delete.
  - intros h fr s0 H. exact H.
  - intros h s0 H. exact H.
  - intros h s0 H. exact H.
  - intros h s0 _ H. exact H.
  - intros h u s0 _ H. simpl. now apply MapFacts.keys_unique_set.
  - intros h s0 H. exact H.
  - intros uuid clientIp s0 H.
    destruct (on_connection_effect uuid clientIp s0) as (s' & -> & _ & _ & _ & Hc).
    simpl. now rewrite Hc.
Qed.

(** In every reachable state the registry has one binding per key. *)
Lemma reachable_keys_unique es : keys_unique (run initial es).
Proof.
  assert (Hrun : forall es s, keys_unique s -> keys_unique (run s es)).
  { clear es. induction es as [|e es IH]; intros s H; simpl; [exact H|].
    now apply IH, keys_unique_step. }
  apply Hrun. constructor.
Qed.

Lemma tracked_once_step s e : tracked_once s -> tracked_once (step s e).
Proof.
  unfold step.
  assert (Halter : forall f h s0,
            (forall c, readyState (f c) = OPEN -> readyState c = OPEN) ->
            tracked_once s0 -> tracked_once (with_sockets (alter f h) s0)).
  { intros f h s0 Hf (Hnd & Hin & Hopen). split; [exact Hnd|]. simpl. split.
    - intros x Hx. destruct (Hin x Hx) as [c Hc].
      rewrite (lookup_alter_cases f h x _ c Hc). eauto.
    - intros x c Hx Ho.
      apply lookup_alter_Some in Hx as [(-> & y & Hy & ->)|[_ Hx]]; eauto. }
  apply (carried_listener tracked_once (fun _ => True) (fun _ => True));
    [| | | | | | | | |trivial|trivial].
  - intros f s0 H. exact H.
  - intros k s0 H. exact H.
  - intros h fr s0 H. now apply Halter.
  - intros h s0 H. apply Halter; [discriminate|exact H].
  - intros h s0 H. now apply Halter.
  - intros h s0 _ H. now apply Halter.
  - intros h u s0 _ H.
    apply (Halter (set_clientId None) h) in H; [|trivial].
    apply (Halter (set_userId (Some u)) h) in H; [|trivial].
    exact H.
  - intros h s0 (Hnd & Hin & Hopen). split; [|split]; simpl.
    + now apply NoDup_filter.
    + intros x Hx. apply list_elem_of_filter in Hx as [_ Hx].
      destruct (Hin x Hx) as [c Hc].
      rewrite (lookup_alter_cases _ h x _ c Hc). eauto.
    + intros x c Hx Ho.
      apply lookup_alter_Some in Hx as [(-> & y & Hy & ->)|[Hne Hx]];
        [discriminate|].
      apply list_elem_of_filter. split; [congruence|eauto].
  - intros uuid clientIp s0 (Hnd & Hin & Hopen).
    destruct (on_connection_effect uuid clientIp s0)
      as (s' & -> & Hnew & Hold & Hw & _).
    unfold tracked_once. simpl. rewrite Hw. split; [|split].
    + apply NoDup_app. split; [exact Hnd|]. split; [|apply NoDup_singleton].
      intros x Hx Hx'. apply list_elem_of_singleton in Hx' as ->.
      now apply (fresh_not_allocated (sockets s0) _ (Hin _ Hx)).
    + intros x Hx. apply elem_of_app in Hx as [Hx|Hx].
      * rewrite Hold; [now apply Hin|].
        now apply fresh_not_allocated, Hin.
      * apply list_elem_of_singleton in Hx as ->. rewrite Hnew. eauto.
    + intros x c Hx Ho. apply elem_of_app.
      destruct (decide (x = fresh (dom (sockets s0)))) as [->|Hne].
      * right. now apply list_elem_of_singleton.
      * left. rewrite Hold in Hx by assumption. eauto.
Qed.

Lemma tracked_once_run es : forall s, tracked_once s -> tracked_once (run s es).
Proof.
  induction es as [|e es IH]; intros s H; simpl; [exact H|].
  now apply IH, tracked_once_step.
Qed.

(** In every reachable state [wss.clients] holds each of its sockets
    once, and every open socket. *)
Lemma reachable_tracked_once es : tracked_once (run initial es).
Proof.
  apply tracked_once_run. split; [constructor|]. split.
  - intros h Hh. simpl in Hh. now apply not_elem_of_nil in Hh.
  - intros h c Hh. simpl in Hh. now rewrite lookup_empty in Hh.
Qed.



Ltac socket_kept :=
  match goal with
  | H : exists c, sockets ?s !! ?ws = Some c /\ _ |- _ =>
      let c := fresh "c" in
      let Hc := fresh "Hc" in
      let HQ := fresh "HQ" in
      destruct H as (c & Hc & HQ); simpl;
      try (eexists; split; [apply lookup_alter_cases; try apply lookup_alter_cases;
                            exact Hc|]);
      try (eexists; split; [exact Hc|]);
      repeat case_decide; subst; simpl;
      try solve [tauto | congruence | intuition congruence | left; discriminate]
  end.

Lemma not_marked_alive_step ws s e :
  e <> Pong ws -> not_marked_alive ws s -> not_marked_alive ws (step s e).
Proof.
  intros He. unfold step.
  apply (carried_listener (not_marked_alive ws) (fun _ => True) (fun h => h <> ws));
    unfold not_marked_alive; [| | | | | | | | |trivial|intros; congruence].
  - intros f s0 H. socket_kept.
  - intros k s0 H. socket_kept.
  - intros h fr s0 H. socket_kept.
  - intros h s0 H. socket_kept.
  - intros h s0 H. socket_kept.
  - intros h s0 Hne H. socket_kept.
  - intros h u s0 _ H. socket_kept.
  - intros h s0 H. socket_kept.
  - intros uuid clientIp s0 (c & Hc & HQ).
    destruct (on_connection_effect uuid clientIp s0) as (s' & Hrun & _ & Hs & _).
    rewrite Hrun. simpl. exists c. split; [|exact HQ].
    rewrite Hs by (apply fresh_not_allocated; eauto). exact Hc.
Qed.

Lemma doomed_step ws s e : e <> Pong ws -> doomed ws s -> doomed ws (step s e).
Proof.
  intros He. unfold step.
  apply (carried_listener (doomed ws) (fun _ => True) (fun h => h <> ws));
    unfold doomed; [| | | | | | | | |trivial|intros; congruence].
  - intros f s0 H. socket_kept.
  - intros k s0 H. socket_kept.
  - intros h fr s0 H. socket_kept.
  - intros h s0 H. socket_kept.
  - intros h s0 H. socket_kept.
  - intros h s0 Hne H. socket_kept.
  - intros h u s0 _ H. socket_kept.
  - intros h s0 H. socket_kept.
    destruct HQ as [HQ|[Ha Hin]]; [now left|right]. split; [exact Ha|].
    apply list_elem_of_filter. split; [congruence|exact Hin].
  - intros uuid clientIp s0 (c & Hc & HQ).
    destruct (on_connection_effect uuid clientIp s0) as (s' & Hrun & _ & Hs & Hw & _).
    rewrite Hrun. simpl. exists c.
    split; [rewrite Hs by (apply fresh_not_allocated; eauto); exact Hc|].
    destruct HQ as [HQ|[Ha Hin]]; [now left|right]. split; [exact Ha|].
    rewrite Hw. apply elem_of_app. now left.
Qed.

Lemma doomed_run ws es :
  forall s, Forall (fun e => e <> Pong ws) es -> doomed ws s -> doomed ws (run s es).
Proof.
  induction es as [|e es IH]; intros s Hes H; simpl; [exact H|].
  apply Forall_cons in Hes as [He Hes].
  apply IH; [exact Hes|]. now apply doomed_step.
Qed.

(** ** Login *)

(** The branch of the handler for an id that the registry holds. *)
Lemma login_taken ws m u s c :
  login_envelope m u -> trim u <> "" ->
  Map.has u (clients s) = true ->
  sockets s !! ws = Some c -> readyState c = OPEN ->
  handleWebSocketMessage ws m s =
    Normal Completed
      (with_sockets (alter (set_readyState CLOSING) ws)
         (with_sockets (alter (push_frame (Text (taken_reply m u))) ws)
            (with_log
               (fun l => l ++ [mkLog LevelWarn
                  ("Login attempt failed: User ID " +:+ u +:+ " is already logged in.")])
               s))).
Proof.
  intros [Hty Hu] Hvalid Hhas Hws Hopen.
  unfold handleWebSocketMessage, try_catch, dispatch.
  rewrite Hty. simpl (case_label _ _). cbv iota.
  unfold case_Login. rewrite Hu, (valid_string_accepted _ Hvalid).
  unfold mbind, Js_bind, state. rewrite Hhas.
  unfold logger_log, update.
  rewrite sendWsMessage_open
    by (rewrite socket_of_with_log, (socket_of_lookup _ _ _ Hws); exact Hopen).
  rewrite terminate_not_closed.
  - reflexivity.
  - rewrite (socket_of_alter _ _ _ c) by exact Hws. simpl. rewrite Hopen. discriminate.
Qed.

(** The branch of the handler for an id that the registry does not hold. *)
Lemma login_free ws m u s c :
  login_envelope m u -> trim u <> "" ->
  Map.get u (clients s) = None ->
  sockets s !! ws = Some c -> readyState c = OPEN ->
  handleWebSocketMessage ws m s =
    Normal Completed
      (with_sockets (alter (push_frame (Text (userId_notice LoginSuccess (Some u)))) ws)
         (with_log
            (fun l => l ++ [mkLog LevelInfo
               ("Client logged in: " +:+ u +:+ " (was " +:+ str (clientId c) +:+ ")")])
            (with_clients (Map.set u ws)
               (with_sockets (alter (set_userId (Some u)) ws)
                  (with_sockets (alter (set_clientId None) ws) s))))).
Proof.
  intros [Hty Hu] Hvalid Hfree Hws Hopen.
  unfold handleWebSocketMessage, try_catch, dispatch.
  rewrite Hty. simpl (case_label _ _). cbv iota.
  unfold case_Login. rewrite Hu, (valid_string_accepted _ Hvalid).
  unfold mbind, Js_bind, state.
  rewrite (proj2 (MapFacts.has_false _ _) Hfree).
  unfold socket, assign, logger_log, update.
  rewrite (socket_of_lookup _ _ _ Hws).
  rewrite sendWsMessage_open; [reflexivity|].
  unfold socket_of, with_log, with_clients, with_sockets; simpl.
  rewrite !lookup_alter_eq, Hws. exact Hopen.
Qed.

(** C1, as amended.  A login for a user id that the registry holds for
    another connection: the requesting (open) connection is sent an error
    envelope whose [originalType] is [login] and is terminated; the registry
    is unchanged, and so is every other socket, the holder's among them.
    The state is any state whose user ids are valid, as those of every
    reachable state are. *)
Theorem login_taken_by_other ws incumbent m u s c :
  valid_ids s -> login_envelope m u ->
  Map.get u (clients s) = Some incumbent -> incumbent <> ws ->
  sockets s !! ws = Some c -> readyState c = OPEN ->
  exists s',
    handleWebSocketMessage ws m s = Normal Completed s' /\
    sockets s' !! ws
      = Some (set_readyState CLOSING (push_frame (Text (taken_reply m u)) c)) /\
    type (taken_reply m u) = enum Error /\
    originalType (taken_reply m u) = Some (enum Login) /\
    clients s' = clients s /\
    Map.get u (clients s') = Some incumbent /\
    sockets s' !! incumbent = sockets s !! incumbent /\
    (forall h, h <> ws -> sockets s' !! h = sockets s !! h).
Proof.
  intros Hreg Hm Hget Hne Hws Hopen.
  assert (Hvalid : trim u <> "") by (eapply valid_ids_registered; eassumption).
  assert (Hhas : Map.has u (clients s) = true)
    by (apply MapFacts.has_true; eauto).
  eexists. split; [exact (login_taken ws m u s c Hm Hvalid Hhas Hws Hopen)|].
  destruct Hm as [Hty _].
  repeat split.
  - simpl. rewrite !lookup_alter_eq, Hws. reflexivity.
  - unfold taken_reply, error_reply; simpl. now rewrite Hty.
  - exact Hget.
  - simpl. rewrite !lookup_alter_ne by congruence. reflexivity.
  - intros h Hh. simpl. rewrite !lookup_alter_ne by congruence. reflexivity.
Qed.

Lemma login_taken_by_other_witness :
  exists s',
    handleWebSocketMessage 1 (login_of "alice") alice_and_guest = Normal Completed s' /\
    readyState (socket_of s' 1) = CLOSING /\
    sockets s' !! 0 = sockets alice_and_guest !! 0.
Proof.
  destruct (login_taken_by_other 1 0 (login_of "alice") "alice" alice_and_guest
              (mkClient (Some "c-1") None (Some true) OPEN []))
    as (s' & Hrun & Hws & _ & _ & _ & _ & Hinc & _).
  - unfold alice_and_guest, alice_alone.
    apply valid_ids_run, reachable_valid_ids.
  - split; reflexivity.
  - reflexivity.
  - discriminate.
  - reflexivity.
  - reflexivity.
  - exists s'. split; [exact Hrun|]. split; [|exact Hinc].
    unfold socket_of. rewrite Hws. reflexivity.
Defined.

(** C1 as stated fails when the requesting connection is itself the
    holder: the holder's connection is then the one that is terminated. *)
Lemma login_taken_by_self_counterexample :
  login_envelope (login_of "alice") "alice" /\
  Map.get "alice" (clients alice_alone) = Some 0 /\
  readyState (socket_of alice_alone 0) = OPEN /\
  sockets (final (handleWebSocketMessage 0 (login_of "alice") alice_alone)) !! 0
    <> sockets alice_alone !! 0 /\
  readyState
    (socket_of (final (handleWebSocketMessage 0 (login_of "alice") alice_alone)) 0)
    = CLOSING.
Proof.
  repeat split; try reflexivity.
  vm_compute. discriminate.
Qed.

(** C10.  A connection identified as [u], and registered under [u], that
    sends a login for [u] again meets its own registration: it is sent the
    already-taken error and is itself terminated, while the handler leaves
    the registry, and every other socket, as they were.  The state is any
    state whose user ids are valid, as those of every reachable state
    are. *)
Theorem relogin_own_id_terminates_self ws m u s c :
  valid_ids s -> login_envelope m u ->
  sockets s !! ws = Some c -> userId c = Some u -> readyState c = OPEN ->
  Map.get u (clients s) = Some ws ->
  exists s',
    handleWebSocketMessage ws m s = Normal Completed s' /\
    sockets s' !! ws
      = Some (set_readyState CLOSING (push_frame (Text (taken_reply m u)) c)) /\
    taken_reply m u
      = mkMessage (enum Error)
          (Some (JObj [("message",
                        JStr ("User ID " +:+ u +:+ " is already taken/logged in."))]))
          None None (Some (enum Login)) /\
    clients s' = clients s /\
    (forall h, h <> ws -> sockets s' !! h = sockets s !! h).
Proof.
  intros Hreg Hm Hws Hid Hopen Hget.
  assert (Hvalid : trim u <> "") by (eapply valid_ids_registered; eassumption).
  assert (Hhas : Map.has u (clients s) = true)
    by (apply MapFacts.has_true; eauto).
  eexists. split; [exact (login_taken ws m u s c Hm Hvalid Hhas Hws Hopen)|].
  destruct Hm as [Hty _].
  repeat split.
  - simpl. rewrite !lookup_alter_eq, Hws. reflexivity.
  - unfold taken_reply, error_reply. now rewrite Hty.
  - intros h Hh. simpl. rewrite !lookup_alter_ne by congruence. reflexivity.
Qed.

Lemma relogin_own_id_terminates_self_witness :
  exists s',
    handleWebSocketMessage 0 (login_of "alice") alice_alone = Normal Completed s' /\
    readyState (socket_of s' 0) = CLOSING /\
    clients s' = [("alice", 0)].
Proof.
  destruct (relogin_own_id_terminates_self 0 (login_of "alice") "alice" alice_alone
              (socket_of alice_alone 0))
    as (s' & Hrun & Hws & _ & Hreg & _).
  - unfold alice_alone. apply reachable_valid_ids.
  - split; reflexivity.
  - reflexivity.
  - reflexivity.
  - reflexivity.
  - reflexivity.
  - exists s'. split; [exact Hrun|]. split; [|exact Hreg].
    unfold socket_of at 1. rewrite Hws. reflexivity.
Defined.

(** C4, as amended.  A login received on an open connection that is not
    yet identified, for a string [u] that is not blank (not empty once
    leading and trailing white space is removed) and that the registry does
    not hold: the provisional [clientId] is removed, [userId] becomes [u],
    the registry gains the binding of [u] to the connection and grows by
    one, and the connection is sent [login_success] with [userId] [u]. *)
Theorem login_free_id_registers ws m u s c :
  login_envelope m u -> trim u <> "" ->
  Map.get u (clients s) = None ->
  sockets s !! ws = Some c -> readyState c = OPEN -> userId c = None ->
  exists s' c',
    handleWebSocketMessage ws m s = Normal Completed s' /\
    sockets s' !! ws = Some c' /\
    clientId c' = None /\ userId c' = Some u /\
    sent c'
      = sent c ++ [Text (mkMessage (enum LoginSuccess)
                           (Some (JObj [("userId", JStr u)])) None None None)] /\
    readyState c' = OPEN /\ isAlive c' = isAlive c /\
    clients s' = Map.set u ws (clients s) /\
    Map.get u (clients s') = Some ws /\
    (forall k, k <> u -> Map.get k (clients s') = Map.get k (clients s)) /\
    Map.size (clients s') = S (Map.size (clients s)) /\
    (forall h, h <> ws -> sockets s' !! h = sockets s !! h).
Proof.
  intros Hm Hvalid Hfree Hws Hopen Hanon.
  eexists. eexists. split; [exact (login_free ws m u s c Hm Hvalid Hfree Hws Hopen)|].
  simpl. split; [rewrite !lookup_alter_eq, Hws; reflexivity|].
  repeat split; try assumption.
  - apply MapFacts.get_set_eq.
  - intros k Hk. apply MapFacts.get_set_ne. congruence.
  - now apply MapFacts.size_set_absent.
  - intros h Hh. rewrite !lookup_alter_ne by congruence. reflexivity.
Qed.

Lemma login_free_id_registers_witness :
  exists s',
    handleWebSocketMessage 0 (login_of "alice") guest_alone = Normal Completed s' /\
    userId (socket_of s' 0) = Some "alice" /\
    clients s' = [("alice", 0)].
Proof.
  destruct (login_free_id_registers 0 (login_of "alice") "alice" guest_alone
              (socket_of guest_alone 0))
    as (s' & c' & Hrun & Hws & _ & Hid & _ & _ & _ & Hreg & _).
  - split; reflexivity.
  - vm_compute. discriminate.
  - reflexivity.
  - reflexivity.
  - reflexivity.
  - reflexivity.
  - exists s'. split; [exact Hrun|]. split; [|exact Hreg].
    unfold socket_of. rewrite Hws. exact Hid.
Defined.

(** C4 as stated fails for a user id made of white space: it is a
    non-empty string, no connection holds it, and yet the login is refused
    with a validation error and nothing is registered. *)
Lemma login_blank_id_counterexample :
  login_envelope (login_of " ") " " /\
  " " <> "" /\
  Map.get " " (clients guest_alone) = None /\
  userId (socket_of guest_alone 0) = None /\
  readyState (socket_of guest_alone 0) = OPEN /\
  clients (final (handleWebSocketMessage 0 (login_of " ") guest_alone)) = [] /\
  userId (socket_of (final (handleWebSocketMessage 0 (login_of " ") guest_alone)) 0)
    = None /\
  sent (socket_of (final (handleWebSocketMessage 0 (login_of " ") guest_alone)) 0)
    = [Text (error_reply "Valid User ID is required for login" (login_of " "))].
Proof.
  repeat split; try reflexivity. discriminate.
Qed.

(** C3 at a failing input: alice's connection sends a login for bob, which
    is free.  The handler has no guard for a connection that is already
    identified: the connection becomes bob and the registry now binds both
    ids to it. *)
Theorem relogin_other_id_changes_identity :
  userId (socket_of alice_alone 0) = Some "alice" /\
  clients alice_alone = [("alice", 0)] /\
  userId (socket_of (final (handleWebSocketMessage 0 (login_of "bob") alice_alone)) 0)
    = Some "bob" /\
  clients (final (handleWebSocketMessage 0 (login_of "bob") alice_alone))
    = [("alice", 0); ("bob", 0)].
Proof. repeat split; reflexivity. Qed.

(** ** Relay *)

Lemma relay_dispatch ws m : relay_envelope m -> dispatch ws m = case_relay ws m.
Proof.
  unfold dispatch. intros [H|[H|[H|H]]]; rewrite H; reflexivity.
Qed.

Lemma relay_template m :
  relay_envelope m -> exists ty, type m = JStr ty /\ template (Some (type m)) = mret ty.
Proof.
  intros [H|[H|[H|H]]]; rewrite H; eexists; split; reflexivity.
Qed.

(** The relay case once the three guards have passed. *)
Lemma relay_guards_passed ws m s c sid t :
  sockets s !! ws = Some c -> userId c = Some sid -> sid <> "" ->
  target m = Some (JStr t) -> t <> "" -> truthy (payload m) = true ->
  case_relay ws m s =
    match open_target s (Map.get t (clients s)) with
    | Some targetClient =>
        (ty ← template (Some (type m));
         logger_log LevelInfo
           ("Forwarding " +:+ ty +:+ " from " +:+ sid +:+ " to " +:+ t);;
         sendWsMessage targetClient (with_sender m sid);;
         mret Completed) s
    | None =>
        (logger_log LevelInfo
           ("Target client " +:+ t +:+ " offline. Checking for push token.");;
         mret (AwaitGetPushToken t)) s
    end.
Proof.
  intros Hws Hid Hsid Ht Htne Hpay.
  unfold case_relay, socket. unfold mbind at 1, Js_bind at 1.
  rewrite (socket_of_lookup _ _ _ Hws), Hid, (nonempty_Some _ Hsid), Ht.
  rewrite (truthy_JStr _ Htne), Hpay. simpl.
  unfold state. unfold mbind at 1, Js_bind at 1.
  destruct (open_target s (Map.get t (clients s))); reflexivity.
Qed.

(** C2.  A relay envelope from a connection identified as [sid], for a
    target [t] whose registry entry is an open socket: the target is
    written exactly one frame, the envelope with [sender] set to [sid],
    whatever [sender] the originator put there, and with [type],
    [payload], [target] (and [originalType]) as received.  Nothing else is
    written and the registry is unchanged. *)
Theorem relay_forward_sets_sender ws m s c sid t h tc :
  valid_ids s -> relay_envelope m ->
  sockets s !! ws = Some c -> userId c = Some sid ->
  target m = Some (JStr t) -> t <> "" -> truthy (payload m) = true ->
  Map.get t (clients s) = Some h ->
  sockets s !! h = Some tc -> readyState tc = OPEN ->
  exists s' delivered,
    handleWebSocketMessage ws m s = Normal Completed s' /\
    sockets s' !! h = Some (push_frame (Text delivered) tc) /\
    sender delivered = Some (JStr sid) /\
    type delivered = type m /\
    payload delivered = payload m /\
    target delivered = target m /\
    originalType delivered = originalType m /\
    (forall h', h' <> h -> sockets s' !! h' = sockets s !! h') /\
    clients s' = clients s.
Proof.
  intros Hvalid Hm Hws Hid Ht Htne Hpay Hget Hh Hopen.
  pose proof (valid_ids_identified s ws c sid Hvalid Hws Hid) as Hsid.
  destruct (relay_template m Hm) as (ty & Hty & Htpl).
  exists (with_sockets (alter (push_frame (Text (with_sender m sid))) h)
            (with_log
               (fun l => l ++ [mkLog LevelInfo
                  ("Forwarding " +:+ ty +:+ " from " +:+ sid +:+ " to " +:+ t)])
               s)),
         (with_sender m sid).
  split.
  - unfold handleWebSocketMessage, try_catch.
    rewrite (relay_dispatch _ _ Hm).
    rewrite (relay_guards_passed ws m s c sid t) by assumption.
    rewrite Hget. unfold open_target.
    rewrite (socket_of_lookup _ _ _ Hh), decide_True by assumption.
    rewrite Htpl. unfold mbind, Js_bind, mret, Js_ret, logger_log, update.
    rewrite sendWsMessage_open; [reflexivity|].
    rewrite socket_of_with_log, (socket_of_lookup _ _ _ Hh). exact Hopen.
  - simpl. rewrite lookup_alter_eq, Hh. repeat split.
    intros h' Hne. rewrite lookup_alter_ne by congruence. reflexivity.
Qed.

Lemma relay_forward_sets_sender_witness :
  exists s' delivered,
    handleWebSocketMessage 0 forged_offer alice_and_bob = Normal Completed s' /\
    sent (socket_of s' 1)
      = sent (socket_of alice_and_bob 1) ++ [Text delivered] /\
    sender delivered = Some (JStr "alice") /\
    payload delivered = Some (JObj [("sdp", JStr "v=0")]).
Proof.
  destruct (relay_forward_sets_sender 0 forged_offer alice_and_bob
              (socket_of alice_and_bob 0) "alice" "bob" 1 (socket_of alice_and_bob 1))
    as (s' & d & Hrun & Hh & Hsender & _ & Hpay & _).
  - unfold alice_and_bob, alice_and_guest, alice_alone.
    apply valid_ids_run, valid_ids_run, reachable_valid_ids.
  - left. reflexivity.
  - reflexivity.
  - reflexivity.
  - reflexivity.
  - discriminate.
  - reflexivity.
  - reflexivity.
  - reflexivity.
  - reflexivity.
  - exists s', d. split; [exact Hrun|]. split; [|split; [exact Hsender|exact Hpay]].
    unfold socket_of at 1. rewrite Hh. reflexivity.
Defined.

Lemma resume_relay_token ws m t token rest s :
  token <> "" -> readyState (socket_of s ws) = OPEN ->
  replied_only ws (offline_notice t) s (resume_relay ws m t (Fulfilled (token :: rest)) s).
Proof.
  intros Htok Hopen.
  unfold resume_relay, try_catch, getPushToken, try_catch.
  unfold mbind, Js_bind, mret, Js_ret, logger_log, update.
  rewrite (nonempty_Some _ Htok).
  rewrite sendWsMessage_open by (rewrite !socket_of_with_log; exact Hopen).
  eexists. split; [reflexivity|]. split; reflexivity.
Qed.

Lemma resume_relay_empty_token ws m t rest s :
  readyState (socket_of s ws) = OPEN ->
  replied_only ws (unreachable_reply m t) s (resume_relay ws m t (Fulfilled ("" :: rest)) s).
Proof.
  intros Hopen.
  unfold resume_relay, try_catch, getPushToken, try_catch.
  unfold mbind, Js_bind, mret, Js_ret, logger_log, update.
  change (nonempty (Some "")) with false; change (nonempty None) with false.
  cbv beta iota.
  rewrite sendWsMessage_open by (rewrite !socket_of_with_log; exact Hopen).
  eexists. split; [reflexivity|]. split; reflexivity.
Qed.

Lemma resume_relay_absent ws m t s :
  readyState (socket_of s ws) = OPEN ->
  replied_only ws (unreachable_reply m t) s (resume_relay ws m t (Fulfilled []) s).
Proof.
  intros Hopen.
  unfold resume_relay, try_catch, getPushToken, try_catch.
  unfold mbind, Js_bind, mret, Js_ret, logger_log, update.
  change (nonempty (Some "")) with false; change (nonempty None) with false.
  cbv beta iota.
  rewrite sendWsMessage_open by (rewrite !socket_of_with_log; exact Hopen).
  eexists. split; [reflexivity|]. split; reflexivity.
Qed.

Lemma resume_relay_rejected ws m t e s :
  readyState (socket_of s ws) = OPEN ->
  replied_only ws (store_error_reply m t) s (resume_relay ws m t (Rejected e) s).
Proof.
  intros Hopen.
  unfold resume_relay, try_catch, getPushToken, try_catch, throw.
  unfold mbind, Js_bind, mret, Js_ret, logger_log, update.
  rewrite sendWsMessage_open by (rewrite !socket_of_with_log; exact Hopen).
  eexists. split; [reflexivity|]. split; reflexivity.
Qed.

(** C7.  A relay envelope from an identified connection, with a target [t]
    and a payload, when [t] has no open registry entry.  The handler writes
    no frame and asks the store for the push token of [t]; when the query
    settles, the (still open) originator is written exactly one frame and
    nobody else any: the info notice if the store returns a token, the
    unreachable error if it returns none, the server error if the query
    fails.  The envelope itself is forwarded to no one, and the model has no
    other output on which a push could leave. *)
Theorem relay_offline_replies_to_originator ws m s c sid t :
  valid_ids s -> relay_envelope m ->
  sockets s !! ws = Some c -> userId c = Some sid ->
  target m = Some (JStr t) -> t <> "" -> truthy (payload m) = true ->
  open_target s (Map.get t (clients s)) = None ->
  (exists s1,
     handleWebSocketMessage ws m s = Normal (AwaitGetPushToken t) s1 /\
     sockets s1 = sockets s /\ clients s1 = clients s) /\
  (forall s2, readyState (socket_of s2 ws) = OPEN ->
     (forall token rest, token <> "" ->
        replied_only ws (offline_notice t) s2
          (resume_relay ws m t (Fulfilled (token :: rest)) s2)) /\
     replied_only ws (unreachable_reply m t) s2
       (resume_relay ws m t (Fulfilled []) s2) /\
     (forall e,
        replied_only ws (store_error_reply m t) s2
          (resume_relay ws m t (Rejected e) s2))) /\
  type (offline_notice t) = enum Info /\
  type (unreachable_reply m t) = enum Error /\
  type (store_error_reply m t) = enum Error.
Proof.
  intros Hvalid Hm Hws Hid Ht Htne Hpay Hoff.
  pose proof (valid_ids_identified s ws c sid Hvalid Hws Hid) as Hsid.
  split; [|split].
  - eexists. split.
    + unfold handleWebSocketMessage, try_catch.
      rewrite (relay_dispatch _ _ Hm).
      rewrite (relay_guards_passed ws m s c sid t) by assumption.
      rewrite Hoff. reflexivity.
    + split; reflexivity.
  - intros s2 Hopen. split; [|split].
    + intros token rest Htok. now apply resume_relay_token.
    + now apply resume_relay_absent.
    + intros e. now apply resume_relay_rejected.
  - repeat split.
Qed.

Lemma relay_offline_replies_to_originator_witness :
  (exists s1,
     handleWebSocketMessage 0 (offer_to "bob") alice_and_guest
       = Normal (AwaitGetPushToken "bob") s1 /\
     sockets s1 = sockets alice_and_guest) /\
  replied_only 0 (offline_notice "bob") alice_and_guest
    (resume_relay 0 (offer_to "bob") "bob" (Fulfilled ["token-b"]) alice_and_guest).
Proof.
  destruct (relay_offline_replies_to_originator 0 (offer_to "bob") alice_and_guest
              (socket_of alice_and_guest 0) "alice" "bob")
    as ((s1 & Hrun & Hs & _) & Hresume & _).
  - unfold alice_and_guest, alice_alone.
    apply valid_ids_run, reachable_valid_ids.
  - left. reflexivity.
  - reflexivity.
  - reflexivity.
  - reflexivity.
  - discriminate.
  - reflexivity.
  - reflexivity.
  - split.
    + exists s1. split; assumption.
    + destruct (Hresume alice_and_guest) as (Htoken & _ & _).
      * vm_compute. reflexivity.
      * apply Htoken. discriminate.
Defined.

(** ** The outer [catch] of the handler *)

(** When [message.type] can be printed, the [catch] clause replies the
    server error, with the type of the envelope as [originalType], to the
    (open) originator, and does nothing else but log: it terminates no
    connection and throws nothing. *)
Lemma outer_catch_replies ws m ty e s :
  ToString (type m) = Some ty -> readyState (socket_of s ws) = OPEN ->
  exists s',
    outer_catch ws m Completed e s = Normal Completed s' /\
    sockets s'
      = alter (push_frame (Text (error_reply
                 ("Server error handling message type " +:+ ty) m))) ws (sockets s) /\
    originalType (error_reply ("Server error handling message type " +:+ ty) m)
      = Some (type m) /\
    clients s' = clients s /\ wss_clients s' = wss_clients s.
Proof.
  intros Hty Hopen. unfold outer_catch, template. rewrite Hty.
  unfold mbind, Js_bind, mret, Js_ret, socket, logger_log, update.
  rewrite sendWsMessage_open by (rewrite socket_of_with_log; exact Hopen).
  eexists. split; [reflexivity|]. repeat split.
Qed.

(** With a printable type, whatever the [switch] does, the handler returns
    to its caller without an exception. *)
Lemma printable_type_never_escapes ws m ty s :
  ToString (type m) = Some ty ->
  exists a s', handleWebSocketMessage ws m s = Normal a s'.
Proof.
  intros Hty. unfold handleWebSocketMessage, try_catch.
  destruct (dispatch ws m s) as [a s'|e s']; [eauto|].
  unfold outer_catch, template. rewrite Hty.
  unfold mbind, Js_bind, mret, Js_ret, socket, logger_log, update.
  match goal with
  | |- context [sendWsMessage ?w ?r ?st] =>
      destruct (sendWsMessage_returns w r st) as [s'' ->]
  end.
  eauto.
Qed.

(** C8 at a failing input: the text [{"type": {"toString": 1}}].  The
    type is truthy, so the ['message'] listener hands the envelope to the
    handler.  No [case] matches; the default branch interpolates
    [message.type] into its log line, which throws a [TypeError]; the
    outer [catch] clause interpolates [message.type] again and throws in
    turn.  The exception leaves [handleWebSocketMessage]: no server-error
    envelope with an [originalType] is sent, and what the client receives
    is the reply of the listener's own [catch]. *)
Theorem unprintable_type_escapes_handler :
  truthy (Some unprintable) = true /\
  handleWebSocketMessage 0 (mkMessage unprintable None None None None) guest_alone
    = Abrupt (TypeError "Cannot convert object to primitive value") guest_alone /\
  sent (socket_of (step guest_alone (Message 0 (Some (JObj [("type", unprintable)])))) 0)
    = [Text (mkMessage (enum Error)
               (Some (JObj [("message",
                   JStr ("Invalid message format or processing error: "
                         +:+ "Cannot convert object to primitive value"))]))
               None None None)].
Proof. repeat split; vm_compute; reflexivity. Qed.

(** ** Departure *)

Lemma push_frames_nil c : push_frames [] c = c.
Proof. destruct c; unfold push_frames; simpl. now rewrite app_nil_r. Qed.

Lemma notified_zero ws m h c : notified ws m 0 h c = c.
Proof.
  unfold notified. repeat case_decide; try reflexivity. apply push_frames_nil.
Qed.

Lemma notified_push ws m n h c :
  h <> ws -> readyState c = OPEN ->
  notified ws m n h (push_frame (Text m) c) = notified ws m (S n) h c.
Proof.
  intros Hne Hopen. unfold notified, push_frames, push_frame; simpl.
  repeat case_decide; try congruence.
  now rewrite <- app_assoc.
Qed.

Lemma sent_notified ws m n h c :
  sent (notified ws m n h c)
  = sent c ++ (if decide (h <> ws /\ readyState c = OPEN) then repeat (Text m) n else []).
Proof.
  unfold notified. destruct (decide (h = ws)) as [->|Hne].
  - rewrite decide_False by (intros [H _]; now apply H). now rewrite app_nil_r.
  - destruct (decide (readyState c = OPEN)) as [Ho|Ho].
    + rewrite decide_True by (split; assumption). reflexivity.
    + rewrite decide_False by (intros [_ H]; contradiction). now rewrite app_nil_r.
Qed.

(** The loop of [broadcast]: every value of the registry other than [ws]
    is handed the message once per binding, and an open socket stores it. *)
Lemma forEach_notify ws m l :
  forall s, exists s',
    forEach (fun client =>
               if decide (Some client = Some ws) then mret tt
               else sendWsMessage client m) l s = Normal tt s' /\
    clients s' = clients s /\ wss_clients s' = wss_clients s /\
    forall h, sockets s' !! h
              = notified ws m (count_occ Nat.eq_dec l h) h <$> sockets s !! h.
Proof.
  induction l as [|x rest IH]; intros s.
  - exists s. repeat split. intros h. simpl.
    destruct (sockets s !! h) as [c|]; simpl; [|reflexivity].
    now rewrite notified_zero.
  - simpl. unfold mbind, Js_bind.
    destruct (decide (Some x = Some ws)) as [Hx|Hx].
    + assert (x = ws) by congruence. subst x.
      destruct (IH s) as (s' & Hrun & Hc & Hw & Hs).
      exists s'. unfold mret, Js_ret. repeat split; try assumption.
      intros h. rewrite Hs.
      destruct (Nat.eq_dec ws h) as [->|Hne]; [|reflexivity].
      destruct (sockets s !! h) as [c|]; simpl; [|reflexivity].
      unfold notified. now rewrite !decide_True by reflexivity.
    + assert (Hne : x <> ws) by congruence.
      destruct (decide (readyState (socket_of s x) = OPEN)) as [Hopen|Hclosed].
      * rewrite sendWsMessage_open by assumption.
        destruct (IH (with_sockets (alter (push_frame (Text m)) x) s))
          as (s' & Hrun & Hc & Hw & Hs).
        exists s'. repeat split; try assumption.
        intros h. rewrite Hs. simpl.
        destruct (Nat.eq_dec x h) as [->|Hxh].
        -- rewrite lookup_alter_eq.
           unfold socket_of in Hopen.
           destruct (sockets s !! h) as [c|]; simpl in *; [|reflexivity].
           now rewrite notified_push.
        -- rewrite lookup_alter_ne by assumption. reflexivity.
      * destruct (sendWsMessage_not_open x m s Hclosed) as [entry ->].
        destruct (IH (with_log (fun l => l ++ [entry]) s))
          as (s' & Hrun & Hc & Hw & Hs).
        exists s'. repeat split; try assumption.
        intros h. rewrite Hs. simpl.
        destruct (Nat.eq_dec x h) as [->|Hxh]; [|reflexivity].
        unfold socket_of in Hclosed.
        destruct (sockets s !! h) as [c|]; simpl in *; [|reflexivity].
        unfold notified. rewrite decide_False by assumption.
        now rewrite !decide_False by assumption.
Qed.

Lemma broadcast_user_left ws u s :
  exists s',
    broadcast (userId_notice UserLeft (Some u)) (Some ws) s = Normal tt s' /\
    clients s' = clients s /\ wss_clients s' = wss_clients s /\
    forall h, sockets s' !! h
              = notified ws (userId_notice UserLeft (Some u))
                  (count_occ Nat.eq_dec (Map.values (clients s)) h) h
                <$> sockets s !! h.
Proof.
  unfold broadcast, state, logger_log, update. simpl template.
  unfold mbind, Js_bind, mret, Js_ret.
  match goal with
  | |- context [forEach _ ?l ?st] =>
      destruct (forEach_notify ws (userId_notice UserLeft (Some u)) l st)
        as (s' & Hrun & Hc & Hw & Hs)
  end.
  exists s'. split; [exact Hrun|]. repeat split; assumption.
Qed.

Lemma unregistered_guard s c :
  unregistered s c ->
  nonempty (userId c) && Map.has (str (userId c)) (clients s) = false.
Proof.
  intros [H|(u & Hu & Hget)]; rewrite H || rewrite Hu; simpl; [reflexivity|].
  apply MapFacts.has_false in Hget. rewrite Hget. apply andb_false_r.
Qed.

Lemma registered_guard s c u :
  userId c = Some u -> u <> "" -> Map.has u (clients s) = true ->
  nonempty (userId c) && Map.has (str (userId c)) (clients s) = true.
Proof.
  intros -> Hu Hhas. rewrite (nonempty_Some _ Hu). simpl. now rewrite Hhas.
Qed.

(** The ['close'] listener on a connection without a registry entry only
    logs. *)
Lemma on_close_unregistered ws code reason s c :
  sockets s !! ws = Some c -> unregistered s c ->
  exists s',
    on_close ws code reason s = Normal tt s' /\
    sockets s' = sockets s /\ clients s' = clients s /\
    wss_clients s' = wss_clients s.
Proof.
  intros Hws Hun. unfold on_close, socket, state, logger_log, update.
  unfold mbind, Js_bind. rewrite (socket_of_lookup _ _ _ Hws).
  change (clients (with_log _ s)) with (clients s).
  rewrite (unregistered_guard _ _ Hun).
  eexists. split; [reflexivity|]. repeat split.
Qed.

(** The ['error'] listener on such a connection logs and, if the socket is
    still open, terminates it. *)
Lemma on_error_unregistered ws error s c :
  sockets s !! ws = Some c -> unregistered s c ->
  exists s',
    on_error ws error s = Normal tt s' /\
    clients s' = clients s /\ wss_clients s' = wss_clients s /\
    sockets s'
      = (if decide (readyState c = OPEN)
         then alter (set_readyState CLOSING) ws (sockets s) else sockets s).
Proof.
  intros Hws Hun. unfold on_error, socket, state, logger_log, update.
  unfold mbind, Js_bind, mret, Js_ret. rewrite (socket_of_lookup _ _ _ Hws).
  change (clients (with_log _ s)) with (clients s).
  rewrite (unregistered_guard _ _ Hun).
  rewrite socket_of_with_log, (socket_of_lookup _ _ _ Hws).
  destruct (readyState c) eqn:Hr.
  - rewrite decide_True by (split; discriminate).
    rewrite terminate_not_closed
      by (rewrite socket_of_with_log, (socket_of_lookup _ _ _ Hws), Hr; discriminate).
    eexists. split; [reflexivity|]. repeat split.
  - rewrite decide_False by (intros [_ H]; now apply H).
    eexists. split; [reflexivity|]. repeat split.
  - rewrite decide_False by (intros [H _]; now apply H).
    eexists. split; [reflexivity|]. repeat split.
Qed.

(** The ['close'] listener on a connection whose user id the registry
    holds.  The broadcast starts from a state [s0] in which the entry is
    already deleted and no frame has been written yet. *)
Lemma on_close_registered ws u code reason s c :
  sockets s !! ws = Some c -> userId c = Some u -> u <> "" ->
  Map.has u (clients s) = true ->
  exists s0 sb s',
    sockets s0 = sockets s /\ clients s0 = Map.delete u (clients s) /\
    wss_clients s0 = wss_clients s /\
    broadcast (userId_notice UserLeft (Some u)) (Some ws) s0 = Normal tt sb /\
    on_close ws code reason s = Normal tt s' /\
    sockets s' = sockets sb /\ clients s' = clients sb /\
    wss_clients s' = wss_clients sb.
Proof.
  intros Hws Hid Hu Hhas. unfold on_close, socket, state, logger_log, update.
  unfold mbind, Js_bind. rewrite (socket_of_lookup _ _ _ Hws).
  change (clients (with_log _ s)) with (clients s).
  rewrite (registered_guard _ _ _ Hid Hu Hhas). rewrite Hid. simpl str.
  match goal with
  | |- context [broadcast _ _ ?st] =>
      destruct (broadcast_user_left ws u st) as (sb & Hrun & _);
      exists st, sb
  end.
  rewrite Hrun. eexists. repeat split.
Qed.


(** What both listeners share, stated once: from the intermediate states
    of a registered departure to its summary. *)
Lemma departs_intro ws u s c s0 sb s' :
  sockets s !! ws = Some c -> userId c = Some u ->
  sockets s0 = sockets s -> clients s0 = Map.delete u (clients s) ->
  broadcast (departure_notice u) (Some ws) s0 = Normal tt sb ->
  clients s' = clients sb ->
  (forall h, sent (socket_of s' h) = sent (socket_of sb h)) ->
  (forall h, userId (socket_of s' h) = userId (socket_of sb h)) ->
  (forall h, is_Some (sockets s' !! h) <-> is_Some (sockets sb !! h)) ->
  departs ws u s s' /\
  exists c', sockets s' !! ws = Some c' /\ userId c' = Some u /\ unregistered s' c'.
Proof.
  intros Hws Hid Hs0 Hc0 Hrun Hc' Hsent Huid Hdom.
  destruct (broadcast_user_left ws u s0) as (sb' & Hrun' & Hcb & _ & Hsb).
  unfold departure_notice in Hrun. rewrite Hrun in Hrun'.
  injection Hrun' as <-.
  assert (Hreg : clients s' = Map.delete u (clients s)) by congruence.
  assert (Hgone : Map.get u (clients s') = None)
    by (rewrite Hreg; apply MapFacts.get_delete_eq).
  split; [split; [|split; [|split]]|].
  - exists s0, sb. repeat split; assumption.
  - exact Hreg.
  - exact Hgone.
  - intros h ch Hh. rewrite Hsent. unfold socket_of.
    rewrite Hsb, Hs0, Hh. simpl. rewrite sent_notified.
    rewrite Hc', Hcb. reflexivity.
  - assert (Hb : sockets sb !! ws = Some c).
    { rewrite Hsb, Hs0, Hws. simpl. unfold notified. now rewrite decide_True. }
    destruct (proj2 (Hdom ws)) as [c' Hc'ws]; [eauto|].
    exists c'. split; [exact Hc'ws|].
    assert (Hu' : userId c' = Some u).
    { specialize (Huid ws). unfold socket_of in Huid.
      rewrite Hc'ws, Hb in Huid. simpl in Huid. congruence. }
    split; [exact Hu'|]. right. exists u. split; assumption.
Qed.


Lemma silent_after_error ws error s c :
  sockets s !! ws = Some c -> unregistered s c ->
  exists s', on_error ws error s = Normal tt s' /\ silent s s'.
Proof.
  intros Hws Hun.
  destruct (on_error_unregistered ws error s c Hws Hun)
    as (s' & Hrun & Hc & _ & Hs).
  exists s'. split; [exact Hrun|]. split; [exact Hc|].
  intros h. unfold socket_of. rewrite Hs.
  destruct (decide (readyState c = OPEN)); [|reflexivity].
  apply (sent_socket_of_alter_readyState s ws CLOSING h).
Qed.



(** C9.  The close or the error event of a connection that never logged
    in, or whose user id the registry does not hold: the listener returns
    normally, the registry is what it was and no frame is written to any
    socket.  Deleting a key that the registry does not hold returns the
    registry itself. *)
Theorem departure_of_unregistered_is_noop ws code reason error s c :
  sockets s !! ws = Some c -> unregistered s c ->
  (exists s',
     on_close ws code reason s = Normal tt s' /\
     clients s' = clients s /\ sockets s' = sockets s) /\
  (exists s',
     on_error ws error s = Normal tt s' /\
     clients s' = clients s /\
     forall h, sent (socket_of s' h) = sent (socket_of s h)) /\
  (forall k, Map.get k (clients s) = None -> Map.delete k (clients s) = clients s).
Proof.
  intros Hws Hun. split; [|split].
  - destruct (on_close_unregistered ws code reason s c Hws Hun)
      as (s' & Hrun & Hs & Hc & _).
    exists s'. repeat split; assumption.
  - destruct (silent_after_error ws error s c Hws Hun) as (s' & Hrun & Hc & Hsent).
    exists s'. repeat split; assumption.
  - intros k. apply MapFacts.delete_absent.
Qed.

Lemma departure_of_unregistered_is_noop_witness :
  exists s',
    on_close 1 1000 "bye" alice_and_guest = Normal tt s' /\
    clients s' = clients alice_and_guest /\ sockets s' = sockets alice_and_guest.
Proof.
  destruct (departure_of_unregistered_is_noop 1 1000%Z "bye" (PlainError "reset")
              alice_and_guest (socket_of alice_and_guest 1))
    as (Hclose & _).
  - vm_compute. reflexivity.
  - left. vm_compute. reflexivity.
  - exact Hclose.
Defined.

(** ** Heartbeat *)

Lemma heartbeat_client_effect x s :
  exists s',
    heartbeat_client x s = Normal tt s' /\
    clients s' = clients s /\ wss_clients s' = wss_clients s /\
    forall h, sockets s' !! h
              = if decide (h = x) then beat <$> sockets s !! h else sockets s !! h.
Proof.
  unfold heartbeat_client, socket. unfold mbind at 1, Js_bind at 1.
  destruct (sockets s !! x) as [c|] eqn:Hx.
  - rewrite (socket_of_lookup _ _ _ Hx).
    destruct (not_alive c) eqn:Ha.
    + unfold logger_log, update, terminate, socket, assign, update.
      cbv beta iota zeta delta [mbind Js_bind mret Js_ret].
      rewrite socket_of_with_log, (socket_of_lookup _ _ _ Hx).
      destruct (decide (readyState c = CLOSED)) as [Hc|Hc].
      * eexists. split; [reflexivity|]. repeat split. intros h. simpl.
        case_decide; [subst h|reflexivity].
        rewrite Hx. simpl. unfold beat. rewrite Ha. now rewrite decide_True.
      * eexists. split; [reflexivity|]. repeat split. intros h. simpl.
        case_decide; [subst h|now rewrite lookup_alter_ne].
        rewrite lookup_alter_eq, Hx. simpl. unfold beat. rewrite Ha.
        now rewrite decide_False.
    + unfold ping, socket, assign, update.
      cbv beta iota zeta delta [mbind Js_bind mret Js_ret].
      rewrite (socket_of_alter _ _ _ c) by exact Hx.
      change (readyState (set_isAlive (Some false) c)) with (readyState c).
      destruct (decide (readyState c = OPEN)) as [Ho|Ho].
      * eexists. split; [reflexivity|]. repeat split. intros h. simpl.
        case_decide; [subst h|now rewrite !lookup_alter_ne].
        rewrite !lookup_alter_eq, Hx. simpl. unfold beat. rewrite Ha.
        now rewrite decide_True.
      * eexists. split; [reflexivity|]. repeat split. intros h. simpl.
        case_decide; [subst h|now rewrite !lookup_alter_ne].
        rewrite !lookup_alter_eq, Hx. simpl. unfold beat. rewrite Ha.
        now rewrite decide_False.
  - assert (Hno : socket_of s x = no_socket) by (unfold socket_of; now rewrite Hx).
    rewrite Hno. change (not_alive no_socket) with true. cbv iota.
    unfold logger_log, update, terminate, socket, assign, update.
    cbv beta iota zeta delta [mbind Js_bind mret Js_ret].
    rewrite socket_of_with_log, Hno.
    rewrite decide_True by reflexivity.
    eexists. split; [reflexivity|]. repeat split. intros h. simpl.
    case_decide; [subst h|reflexivity]. now rewrite Hx.
Qed.

(** The loop of the heartbeat visits a socket once per occurrence of its
    handle in [wss.clients]. *)
Lemma forEach_heartbeat l :
  forall s, exists s',
    forEach heartbeat_client l s = Normal tt s' /\
    clients s' = clients s /\ wss_clients s' = wss_clients s /\
    forall h, sockets s' !! h
              = Nat.iter (count_occ Nat.eq_dec l h) beat <$> sockets s !! h.
Proof.
  induction l as [|x rest IH]; intros s.
  - exists s. repeat split. intros h. simpl. now destruct (sockets s !! h).
  - simpl forEach. unfold mbind, Js_bind.
    destruct (heartbeat_client_effect x s) as (s1 & -> & Hc1 & Hw1 & Hs1).
    destruct (IH s1) as (s' & Hrun & Hc & Hw & Hs).
    exists s'. split; [exact Hrun|]. repeat split; try congruence.
    intros h. rewrite Hs, Hs1. simpl count_occ.
    destruct (Nat.eq_dec x h) as [->|Hne].
    + rewrite decide_True by reflexivity.
      destruct (sockets s !! h) as [c|]; simpl; [|reflexivity].
      f_equal. now rewrite <- Nat.iter_succ_r.
    + rewrite decide_False by congruence. reflexivity.
Qed.

Lemma heartbeat_effect s :
  exists s',
    heartbeat s = Normal tt s' /\
    clients s' = clients s /\ wss_clients s' = wss_clients s /\
    forall h, sockets s' !! h
              = Nat.iter (count_occ Nat.eq_dec (wss_clients s) h) beat <$> sockets s !! h.
Proof.
  unfold heartbeat, state, mbind, Js_bind. apply forEach_heartbeat.
Qed.

Lemma beat_not_open c : readyState c <> OPEN -> readyState (beat c) <> OPEN.
Proof.
  intros H. unfold beat. destruct (not_alive c); repeat case_decide; simpl; congruence.
Qed.

Lemma beat_keeps_not_alive c : isAlive c <> Some true -> isAlive (beat c) <> Some true.
Proof.
  intros H. unfold beat. destruct (not_alive c); repeat case_decide; simpl; congruence.
Qed.

Lemma beat_silent_terminated c : not_alive c = true -> readyState (beat c) <> OPEN.
Proof.
  intros H. unfold beat. rewrite H. case_decide; simpl; congruence.
Qed.

Lemma not_alive_true c : not_alive c = true <-> isAlive c <> Some true.
Proof.
  unfold not_alive. destruct (isAlive c) as [[|]|]; split; congruence.
Qed.

Lemma beats_not_open n c : readyState c <> OPEN -> readyState (Nat.iter n beat c) <> OPEN.
Proof.
  intros H. induction n as [|n IH]; simpl; [exact H|]. now apply beat_not_open.
Qed.

Lemma beats_keep_not_alive n c :
  isAlive c <> Some true -> isAlive (Nat.iter n beat c) <> Some true.
Proof.
  intros H. induction n as [|n IH]; simpl; [exact H|]. now apply beat_keeps_not_alive.
Qed.

(** A socket that the heartbeat has visited is terminated or marked not
    alive. *)
Lemma beaten n c :
  0 < n ->
  readyState (Nat.iter n beat c) <> OPEN \/ isAlive (Nat.iter n beat c) <> Some true.
Proof.
  intros Hn. destruct n as [|n]; [lia|]. rewrite Nat.iter_succ_r.
  assert (H : readyState (beat c) <> OPEN \/ isAlive (beat c) <> Some true).
  { unfold beat. destruct (not_alive c) eqn:Ha.
    - left. pose proof (beat_silent_terminated c Ha) as H. unfold beat in H.
      now rewrite Ha in H.
    - right. case_decide; simpl; congruence. }
  destruct H as [H|H].
  - left. now apply beats_not_open.
  - right. now apply beats_keep_not_alive.
Qed.

(** A socket that is not alive is terminated by the next visit. *)
Lemma beaten_silent n c :
  0 < n -> isAlive c <> Some true -> readyState (Nat.iter n beat c) <> OPEN.
Proof.
  intros Hn Ha. destruct n as [|n]; [lia|]. rewrite Nat.iter_succ_r.
  apply beats_not_open, beat_silent_terminated, not_alive_true, Ha.
Qed.

Lemma count_occ_elem_of (l : list nat) h : h ∈ l -> 0 < count_occ Nat.eq_dec l h.
Proof. intros H. apply count_occ_In. now apply list_elem_of_In. Qed.

Lemma count_occ_NoDup (l : list nat) h :
  NoDup l -> h ∈ l -> count_occ Nat.eq_dec l h = 1.
Proof.
  intros Hnd Hin. apply NoDup_ListNoDup in Hnd.
  pose proof (proj1 (List.NoDup_count_occ Nat.eq_dec l) Hnd h) as Hle.
  pose proof (count_occ_elem_of l h Hin). lia.
Qed.

Lemma emit_close_on_close ws code reason s :
  emit_close ws code reason s = on_close ws code reason (closed_by_library ws s).
Proof. reflexivity. Qed.

Lemma beats_keep_userId n c : userId (Nat.iter n beat c) = userId c.
Proof.
  induction n as [|n IH]; simpl; [reflexivity|]. rewrite <- IH.
  unfold beat. destruct (not_alive _); repeat case_decide; reflexivity.
Qed.

(** The ['close'] event of a registered connection, whatever made the
    socket close. *)
Lemma close_event_departs ws u code reason s c :
  sockets s !! ws = Some c -> userId c = Some u -> u <> "" ->
  Map.get u (clients s) = Some ws ->
  exists s',
    listener (Close ws code reason) s = Normal tt s' /\
    departs ws u (closed_by_library ws s) s'.
Proof.
  intros Hws Hid Hu Hget. simpl listener. rewrite emit_close_on_close.
  assert (Hws' : sockets (closed_by_library ws s) !! ws = Some (set_readyState CLOSED c))
    by (simpl; now rewrite lookup_alter_eq, Hws).
  assert (Hhas : Map.has u (clients (closed_by_library ws s)) = true)
    by (apply MapFacts.has_true; simpl; eauto).
  destruct (on_close_registered ws u code reason _ _ Hws' Hid Hu Hhas)
    as (s0 & sb & s' & Hs0 & Hc0 & _ & Hb & Hrun & Hs' & Hc' & _).
  destruct (departs_intro ws u _ _ s0 sb s' Hws' Hid Hs0 Hc0 Hb Hc') as [Hdep _].
  - intros h. unfold socket_of. now rewrite Hs'.
  - intros h. unfold socket_of. now rewrite Hs'.
  - intros h. now rewrite Hs'.
  - exists s'. split; assumption.
Qed.

(** C6.  One run of the heartbeat: every open socket that is not marked
    alive is terminated; every other open socket is marked not alive and
    sent a ping.  A terminated socket is closed by the library, whose
    ['close'] event runs the listener of any other disconnection: for a
    registered connection, the entry is deleted and the departure
    broadcast.  Only the ['pong'] listener of a socket marks it alive
    again.  Hence a socket whose pong does not arrive between two runs is
    no longer open after the second, that is within two periods of 30
    seconds.  The states are those in which [wss.clients] tracks the open
    sockets and the user ids are valid, as in every reachable state. *)
Theorem heartbeat_reclaims_silent_connections :
  (forall s ws c,
     tracked_once s ->
     sockets s !! ws = Some c -> readyState c = OPEN ->
     exists s',
       listener Tick s = Normal tt s' /\
       clients s' = clients s /\ wss_clients s' = wss_clients s /\
       (isAlive c <> Some true -> sockets s' !! ws = Some (set_readyState CLOSING c)) /\
       (isAlive c = Some true ->
        sockets s' !! ws = Some (push_frame Ping (set_isAlive (Some false) c)))) /\
  (forall s ws c u code reason,
     valid_ids s ->
     sockets s !! ws = Some c -> userId c = Some u ->
     Map.get u (clients s) = Some ws ->
     exists s1 s2,
       listener Tick s = Normal tt s1 /\
       listener (Close ws code reason) s1 = Normal tt s2 /\
       departs ws u (closed_by_library ws s1) s2 /\
       clients s2 = Map.delete u (clients s)) /\
  (forall s ws c e,
     sockets s !! ws = Some c -> isAlive c <> Some true -> e <> Pong ws ->
     isAlive (socket_of (step s e) ws) <> Some true) /\
  (forall s ws c,
     sockets s !! ws = Some c -> isAlive (socket_of (step s (Pong ws)) ws) = Some true) /\
  (forall s ws c es,
     tracked_once s -> sockets s !! ws = Some c ->
     Forall (fun e => e <> Pong ws) es ->
     readyState (socket_of (step (run (step s Tick) es) Tick) ws) <> OPEN) /\
  heartbeat_period = (30 * 1000)%Z.
Proof.
  split; [|split; [|split; [|split; [|split]]]].
  - intros s ws c (Hnd & _ & Htracked) Hws Hopen. simpl listener.
    pose proof (Htracked ws c Hws Hopen) as Hin.
    destruct (heartbeat_effect s) as (s' & Hrun & Hc & Hw & Hs).
    exists s'. split; [exact Hrun|]. split; [exact Hc|]. split; [exact Hw|].
    rewrite Hs, Hws, (count_occ_NoDup _ _ Hnd Hin). simpl. unfold beat.
    split; intros Ha.
    + rewrite (proj2 (not_alive_true c) Ha).
      rewrite decide_False by congruence. reflexivity.
    + unfold not_alive. rewrite Ha. now rewrite decide_True.
  - intros s ws c u code reason Hvalid Hws Hid Hget. simpl (listener Tick).
    pose proof (valid_ids_identified s ws c u Hvalid Hws Hid) as Hu.
    destruct (heartbeat_effect s) as (s1 & Hrun & Hc & Hw & Hs).
    assert (Hws1 : sockets s1 !! ws
                   = Some (Nat.iter (count_occ Nat.eq_dec (wss_clients s) ws) beat c))
      by (rewrite Hs, Hws; reflexivity).
    destruct (close_event_departs ws u code reason s1 _ Hws1) as (s2 & Hrun2 & Hdep).
    + rewrite beats_keep_userId. exact Hid.
    + exact Hu.
    + rewrite Hc. exact Hget.
    + exists s1, s2. split; [exact Hrun|]. split; [exact Hrun2|].
      split; [exact Hdep|].
      destruct Hdep as (_ & -> & _). simpl. now rewrite Hc.
  - intros s ws c e Hws Ha He.
    destruct (not_marked_alive_step ws s e He) as (c' & Hc' & Ha'); [now exists c|].
    unfold socket_of. rewrite Hc'. exact Ha'.
  - intros s ws c Hws. unfold step, socket_of. simpl.
    now rewrite lookup_alter_eq, Hws.
  - intros s ws c es (_ & _ & Htracked) Hws Hes.
    assert (H1 : doomed ws (step s Tick)).
    { unfold step. simpl listener.
      destruct (heartbeat_effect s) as (s1 & -> & _ & Hw & Hs). simpl.
      eexists. split; [rewrite Hs, Hws; reflexivity|].
      destruct (decide (readyState c = OPEN)) as [Hopen|Hclosed];
        [|left; now apply beats_not_open].
      pose proof (Htracked ws c Hws Hopen) as Hin.
      destruct (beaten (count_occ Nat.eq_dec (wss_clients s) ws) c) as [H|H].
      - now apply count_occ_elem_of.
      - now left.
      - right. split; [exact H|]. now rewrite Hw. }
    destruct (doomed_run ws es _ Hes H1) as (c2 & Hc2 & HQ).
    set (s2 := run (step s Tick) es) in *.
    unfold step. simpl listener.
    destruct (heartbeat_effect s2) as (s3 & -> & _ & _ & Hs3).
    simpl. unfold socket_of. rewrite Hs3, Hc2. simpl.
    destruct HQ as [HQ|[Ha Hin2]].
    + now apply beats_not_open.
    + apply beaten_silent; [now apply count_occ_elem_of|exact Ha].
  - reflexivity.
Qed.

Lemma heartbeat_reclaims_silent_connections_witness :
  readyState
    (socket_of
       (step (run (step carol_and_alice Tick) [Pong 0; Message 0 (login_data "x")]) Tick)
       1)
  <> OPEN.
Proof.
  destruct heartbeat_reclaims_silent_connections as (_ & _ & _ & _ & Htwice & _).
  apply (Htwice carol_and_alice 1 (socket_of carol_and_alice 1)).
  - unfold carol_and_alice, alice_alone.
    apply (tracked_once_run [_; _]), reachable_tracked_once.
  - vm_compute. reflexivity.
  - repeat constructor; discriminate.
Defined.

(** * The rest of the code

    What follows covers the code that the statements above leave out: the
    answers to messages that are not served, the two functions of
    [wsUtils.ts] on their own, the event loop as a whole, and the
    shutdown. *)

(** ** [wsUtils.ts] *)

(** X1.  [sendWsMessage] never throws and touches neither the registry nor
    [wss.clients].  On an open socket it writes the message to that socket
    and logs nothing; on a socket that is not open it writes to no socket
    and logs one warning that names the connection ([userId], or else
    [clientId]) and the number of the state. *)
Theorem sendWsMessage_writes_only_to_open ws m s :
  exists s',
    sendWsMessage ws m s = Normal tt s' /\
    clients s' = clients s /\ wss_clients s' = wss_clients s /\
    (readyState (socket_of s ws) = OPEN ->
     sockets s' = alter (push_frame (Text m)) ws (sockets s) /\ log s' = log s) /\
    (readyState (socket_of s ws) <> OPEN ->
     sockets s' = sockets s /\
     log s' = log s ++ [mkLog LevelWarn
       ("Attempted to send message to "
        +:+ str (or_else (userId (socket_of s ws)) (clientId (socket_of s ws)))
        +:+ " but socket was not open (state: "
        +:+ pretty (ReadyState_value (readyState (socket_of s ws))) +:+ ")")]).
Proof.
  destruct (decide (readyState (socket_of s ws) = OPEN)) as [Hopen|Hclosed].
  - rewrite sendWsMessage_open by assumption.
    eexists. split; [reflexivity|]. split; [reflexivity|]. split; [reflexivity|].
    split; [intros _; split; reflexivity|contradiction].
  - unfold sendWsMessage, socket, mbind, Js_bind.
    rewrite decide_False by assumption.
    eexists. split; [reflexivity|]. split; [reflexivity|]. split; [reflexivity|].
    split; [contradiction|intros _; split; reflexivity].
Qed.

Lemma reached_zero senderWs m h c : reached senderWs m 0 h c = c.
Proof.
  unfold reached. repeat case_decide; try reflexivity. apply push_frames_nil.
Qed.

Lemma reached_push senderWs m n h c :
  Some h <> senderWs -> readyState c = OPEN ->
  reached senderWs m n h (push_frame (Text m) c) = reached senderWs m (S n) h c.
Proof.
  intros Hne Hopen. unfold reached, push_frames, push_frame; simpl.
  repeat case_decide; try congruence.
  now rewrite <- app_assoc.
Qed.

Lemma forEach_reach senderWs m l :
  forall s, exists s',
    forEach (fun client =>
               if decide (Some client = senderWs) then mret tt
               else sendWsMessage client m) l s = Normal tt s' /\
    clients s' = clients s /\ wss_clients s' = wss_clients s /\
    forall h, sockets s' !! h
              = reached senderWs m (count_occ Nat.eq_dec l h) h <$> sockets s !! h.
Proof.
  induction l as [|x rest IH]; intros s.
  - exists s. repeat split. intros h. simpl.
    destruct (sockets s !! h) as [c|]; simpl; [|reflexivity].
    now rewrite reached_zero.
  - simpl. unfold mbind, Js_bind.
    destruct (decide (Some x = senderWs)) as [Hx|Hx].
    + destruct (IH s) as (s' & Hrun & Hc & Hw & Hs).
      exists s'. unfold mret, Js_ret. repeat split; try assumption.
      intros h. rewrite Hs.
      destruct (Nat.eq_dec x h) as [->|Hne]; [|reflexivity].
      destruct (sockets s !! h) as [c|]; simpl; [|reflexivity].
      unfold reached. now rewrite !decide_True by assumption.
    + destruct (decide (readyState (socket_of s x) = OPEN)) as [Hopen|Hclosed].
      * rewrite sendWsMessage_open by assumption.
        destruct (IH (with_sockets (alter (push_frame (Text m)) x) s))
          as (s' & Hrun & Hc & Hw & Hs).
        exists s'. repeat split; try assumption.
        intros h. rewrite Hs. simpl.
        destruct (Nat.eq_dec x h) as [->|Hxh].
        -- rewrite lookup_alter_eq.
           unfold socket_of in Hopen.
           destruct (sockets s !! h) as [c|]; simpl in *; [|reflexivity].
           now rewrite reached_push.
        -- rewrite lookup_alter_ne by assumption. reflexivity.
      * destruct (sendWsMessage_not_open x m s Hclosed) as [entry ->].
        destruct (IH (with_log (fun l => l ++ [entry]) s))
          as (s' & Hrun & Hc & Hw & Hs).
        exists s'. repeat split; try assumption.
        intros h. rewrite Hs. simpl.
        destruct (Nat.eq_dec x h) as [->|Hxh]; [|reflexivity].
        unfold socket_of in Hclosed.
        destruct (sockets s !! h) as [c|]; simpl in *; [|reflexivity].
        unfold reached. rewrite decide_False by assumption.
        now rewrite !decide_False by assumption.
Qed.

(** X2.  A broadcast of a message whose type can be printed returns
    normally and leaves the registry alone.  A socket is written one copy of
    the message for each binding of the registry that leads to it, provided
    it is open and is not the socket left out; every other socket, a
    connection that is not registered among them, is written nothing. *)
Theorem broadcast_reaches_open_registered m senderWs ty s :
  ToString (type m) = Some ty ->
  exists s',
    broadcast m senderWs s = Normal tt s' /\
    clients s' = clients s /\ wss_clients s' = wss_clients s /\
    forall h c,
      sockets s !! h = Some c ->
      sockets s' !! h
      = Some (push_frames
                (if decide (Some h <> senderWs /\ readyState c = OPEN)
                 then repeat (Text m) (count_occ Nat.eq_dec (Map.values (clients s)) h)
                 else [])
                c).
Proof.
  intros Hty. unfold broadcast, state, template, logger_log, update. rewrite Hty.
  unfold mbind, Js_bind, mret, Js_ret.
  match goal with
  | |- context [forEach _ ?l ?st] =>
      destruct (forEach_reach senderWs m l st) as (s' & Hrun & Hc & Hw & Hs)
  end.
  exists s'. split; [exact Hrun|]. split; [exact Hc|]. split; [exact Hw|].
  intros h c Hh. rewrite Hs. simpl. rewrite Hh. simpl. f_equal.
  unfold reached. destruct (decide (Some h = senderWs)) as [Heq|Hne].
  - rewrite decide_False by (intros [H _]; contradiction).
    now rewrite push_frames_nil.
  - destruct (decide (readyState c = OPEN)) as [Ho|Ho].
    + now rewrite decide_True by auto.
    + rewrite decide_False by (intros [_ H]; contradiction).
      now rewrite push_frames_nil.
Qed.

Lemma broadcast_reaches_open_registered_witness :
  exists s',
    broadcast (departure_notice "carol") None alice_and_bob = Normal tt s' /\
    sent (socket_of s' 0)
      = sent (socket_of alice_and_bob 0) ++ [Text (departure_notice "carol")] /\
    sent (socket_of s' 1)
      = sent (socket_of alice_and_bob 1) ++ [Text (departure_notice "carol")].
Proof.
  destruct (broadcast_reaches_open_registered (departure_notice "carol") None
              "user_left" alice_and_bob eq_refl) as (s' & Hrun & _ & _ & Hs).
  exists s'. split; [exact Hrun|]. unfold socket_of at 1 3.
  rewrite (Hs 0 (socket_of alice_and_bob 0)), (Hs 1 (socket_of alice_and_bob 1))
    by reflexivity.
  split; reflexivity.
Defined.

(** ** Messages that are not served *)

Lemma no_valid_string_rejected v : no_valid_string v -> not_a_valid_string v = true.
Proof.
  intros H. unfold not_a_valid_string.
  destruct v as [[| | |u| |]|]; simpl; try reflexivity; rewrite ?orb_true_r; try reflexivity.
  rewrite (H u eq_refl). simpl. now rewrite orb_true_r.
Qed.

(** One reply to the sender and nothing else. *)
Lemma reply_only ws m text s c :
  sockets s !! ws = Some c -> readyState c = OPEN ->
  (sendWsMessage ws (error_reply text m);; mret Completed) s
  = Normal Completed
      (with_sockets (alter (push_frame (Text (error_reply text m))) ws) s).
Proof.
  intros Hws Hopen. unfold mbind, Js_bind.
  rewrite sendWsMessage_open by (rewrite (socket_of_lookup _ _ _ Hws); exact Hopen).
  reflexivity.
Qed.

Lemma refused_intro ws m text s c :
  sockets s !! ws = Some c -> readyState c = OPEN ->
  handleWebSocketMessage ws m s
  = (sendWsMessage ws (error_reply text m);; mret Completed) s ->
  refused ws m text s.
Proof.
  intros Hws Hopen Hrun. rewrite (reply_only ws m text s c Hws Hopen) in Hrun.
  eexists. split; [exact Hrun|]. repeat split.
Qed.

(** X3.  A login whose payload carries no [userId], or one that is not a
    string, or a blank string: the (open) connection is sent the validation
    error with [originalType] [login] and nothing else happens; the
    connection stays open, its identity and the registry are unchanged. *)
Theorem login_without_valid_id_is_refused ws m s c :
  type m = enum Login ->
  no_valid_string (optional_member (payload m) "userId") ->
  sockets s !! ws = Some c -> readyState c = OPEN ->
  refused ws m "Valid User ID is required for login" s
  /\ originalType (error_reply "Valid User ID is required for login" m) = Some (enum Login).
Proof.
  intros Hty Hid Hws Hopen. split; [|simpl; now rewrite Hty].
  apply (refused_intro ws m _ s c Hws Hopen).
  unfold handleWebSocketMessage, try_catch, dispatch. rewrite Hty.
  simpl (case_label _ _). cbv iota.
  unfold case_Login. rewrite (no_valid_string_rejected _ Hid).
  rewrite (reply_only ws m _ s c Hws Hopen). reflexivity.
Qed.

Lemma login_without_valid_id_is_refused_witness :
  refused 0 (mkMessage (enum Login) (Some (JObj [("userId", JNum 7)])) None None None)
    "Valid User ID is required for login" guest_alone.
Proof.
  apply (login_without_valid_id_is_refused 0 _ guest_alone (socket_of guest_alone 0)).
  - reflexivity.
  - intros u H. discriminate.
  - reflexivity.
  - reflexivity.
Defined.

(** ** RegisterPush *)

Lemma register_push_dispatch ws m :
  type m = enum RegisterPush -> dispatch ws m = case_RegisterPush ws m.
Proof. intros H. unfold dispatch. rewrite H. reflexivity. Qed.

(** A connection without a user id is told to log in first. *)
Lemma register_push_refused_anonymous ws m s c :
  type m = enum RegisterPush -> sockets s !! ws = Some c -> readyState c = OPEN ->
  nonempty (userId c) = false ->
  refused ws m "Must be logged in to register push token" s.
Proof.
  intros Hty Hws Hopen Hanon. apply (refused_intro ws m _ s c Hws Hopen).
  unfold handleWebSocketMessage, try_catch. rewrite (register_push_dispatch _ _ Hty).
  unfold case_RegisterPush, socket. unfold mbind at 1, Js_bind at 1.
  rewrite (socket_of_lookup _ _ _ Hws), Hanon. cbn [negb].
  rewrite (reply_only ws m _ s c Hws Hopen). reflexivity.
Qed.

(** X4.  A [register_push] on an open connection is refused with one error
    reply, and the store is not asked anything, when the connection has no
    user id, and otherwise when the payload carries no [pushToken], or one
    that is not a string, or a blank string. *)
Theorem register_push_guards_refuse ws m s c :
  type m = enum RegisterPush ->
  sockets s !! ws = Some c -> readyState c = OPEN ->
  (nonempty (userId c) = false ->
   refused ws m "Must be logged in to register push token" s) /\
  (nonempty (userId c) = true ->
   no_valid_string (optional_member (payload m) "pushToken") ->
   refused ws m "Valid push token is required" s).
Proof.
  intros Hty Hws Hopen. split.
  - now apply register_push_refused_anonymous.
  - intros Hid Htoken. apply (refused_intro ws m _ s c Hws Hopen).
    unfold handleWebSocketMessage, try_catch. rewrite (register_push_dispatch _ _ Hty).
    unfold case_RegisterPush, socket. unfold mbind at 1, Js_bind at 1.
    rewrite (socket_of_lookup _ _ _ Hws), Hid. cbn [negb].
    rewrite (no_valid_string_rejected _ Htoken).
    rewrite (reply_only ws m _ s c Hws Hopen). reflexivity.
Qed.

Lemma register_push_guards_refuse_witness :
  refused 0
    (mkMessage (enum RegisterPush) (Some (JObj [("pushToken", JStr "t-1")])) None None None)
    "Must be logged in to register push token" guest_alone.
Proof.
  destruct (register_push_guards_refuse 0
              (mkMessage (enum RegisterPush) (Some (JObj [("pushToken", JStr "t-1")]))
                 None None None)
              guest_alone (socket_of guest_alone 0)) as [Hanon _].
  - reflexivity.
  - reflexivity.
  - reflexivity.
  - apply Hanon. reflexivity.
Defined.

(** X5.  A [register_push] from a connection identified as [u], with a
    token that is not blank: the handler writes nothing and waits for the
    store to save the token under [u].  When the store has answered, the
    (still open) connection is written exactly one frame: [push_registered]
    with the user id that the socket holds at that moment if the token was
    saved, the error with [originalType] [register_push] if the store
    failed; the failure goes no further. *)
Theorem register_push_saves_then_confirms ws m s c u token :
  type m = enum RegisterPush ->
  sockets s !! ws = Some c -> userId c = Some u -> u <> "" ->
  optional_member (payload m) "pushToken" = Some (JStr token) -> trim token <> "" ->
  handleWebSocketMessage ws m s = Normal (AwaitSaveOrUpdatePushToken u token) s /\
  (forall s2,
     readyState (socket_of s2 ws) = OPEN ->
     replied_only ws (userId_notice PushRegistered (userId (socket_of s2 ws))) s2
       (resume_RegisterPush ws m u (Fulfilled tt) s2) /\
     (forall e,
        replied_only ws (error_reply "Failed to save push token on server" m) s2
          (resume_RegisterPush ws m u (Rejected e) s2))) /\
  originalType (error_reply "Failed to save push token on server" m)
    = Some (enum RegisterPush).
Proof.
  intros Hty Hws Hid Hu Htoken Hvalid. split; [|split].
  - unfold handleWebSocketMessage, try_catch. rewrite (register_push_dispatch _ _ Hty).
    unfold case_RegisterPush, socket. unfold mbind at 1, Js_bind at 1.
    rewrite (socket_of_lookup _ _ _ Hws), Hid, (nonempty_Some _ Hu). cbn [negb].
    rewrite Htoken, (valid_string_accepted _ Hvalid). reflexivity.
  - intros s2 Hopen. split.
    + unfold resume_RegisterPush, try_catch, saveOrUpdatePushToken, try_catch.
      unfold mbind, Js_bind, mret, Js_ret, socket, logger_log, update.
      rewrite socket_of_with_log.
      rewrite sendWsMessage_open by (rewrite socket_of_with_log; exact Hopen).
      eexists. split; [reflexivity|]. split; reflexivity.
    + intros e.
      unfold resume_RegisterPush, try_catch, saveOrUpdatePushToken, try_catch, throw.
      unfold mbind, Js_bind, mret, Js_ret, socket, logger_log, update.
      rewrite sendWsMessage_open by (rewrite !socket_of_with_log; exact Hopen).
      eexists. split; [reflexivity|]. split; reflexivity.
  - simpl. now rewrite Hty.
Qed.

Lemma register_push_saves_then_confirms_witness :
  handleWebSocketMessage 0
    (mkMessage (enum RegisterPush) (Some (JObj [("pushToken", JStr "t-1")])) None None None)
    alice_alone
  = Normal (AwaitSaveOrUpdatePushToken "alice" "t-1") alice_alone.
Proof.
  apply (register_push_saves_then_confirms 0 _ alice_alone (socket_of alice_alone 0)).
  - reflexivity.
  - reflexivity.
  - reflexivity.
  - discriminate.
  - reflexivity.
  - vm_compute. discriminate.
Defined.

(** ** The guards of the relay case *)

Lemma relay_refused_anonymous ws m s c :
  relay_envelope m -> sockets s !! ws = Some c -> readyState c = OPEN ->
  nonempty (userId c) = false ->
  refused ws m "Cannot send message: Not logged in." s.
Proof.
  intros Hm Hws Hopen Hanon. apply (refused_intro ws m _ s c Hws Hopen).
  unfold handleWebSocketMessage. rewrite (relay_dispatch _ _ Hm).
  unfold try_catch, case_relay, socket. unfold mbind at 1, Js_bind at 1.
  rewrite (socket_of_lookup _ _ _ Hws), Hanon. cbn [negb].
  rewrite (reply_only ws m _ s c Hws Hopen). reflexivity.
Qed.

(** X6.  The three guards of the relay case, in their order.  A relay
    envelope received on an open connection is answered with one error
    reply, forwarded to nobody and never looked up in the store: when the
    connection has no user id; otherwise when the target is missing, not a
    string or empty; otherwise when the payload is missing or falsy.  Each
    reply carries the type of the envelope as [originalType]. *)
Theorem relay_guards_refuse ws m s c :
  relay_envelope m -> sockets s !! ws = Some c -> readyState c = OPEN ->
  (nonempty (userId c) = false ->
   refused ws m "Cannot send message: Not logged in." s) /\
  (nonempty (userId c) = true ->
   (forall t, target m = Some (JStr t) -> t = "") ->
   refused ws m "Target user ID is required." s) /\
  (nonempty (userId c) = true ->
   (exists t, target m = Some (JStr t) /\ t <> "") ->
   truthy (payload m) = false ->
   refused ws m "Payload is missing." s) /\
  (forall text, originalType (error_reply text m) = Some (type m)).
Proof.
  intros Hm Hws Hopen.
  assert (Hrun : handleWebSocketMessage ws m s
                 = try_catch (case_relay ws m) (outer_catch ws m Completed) s)
    by (unfold handleWebSocketMessage; now rewrite (relay_dispatch _ _ Hm)).
  split; [|split; [|split]].
  - now apply relay_refused_anonymous.
  - intros Hid Htarget. apply (refused_intro ws m _ s c Hws Hopen).
    rewrite Hrun. unfold try_catch, case_relay, socket. unfold mbind at 1, Js_bind at 1.
    rewrite (socket_of_lookup _ _ _ Hws), Hid. cbn [negb].
    assert (Hbad : negb (truthy (target m)) || negb (is_string (target m)) = true).
    { destruct (target m) as [[| | |t| |]|]; simpl; rewrite ?orb_true_r; try reflexivity.
      now rewrite (Htarget t eq_refl). }
    rewrite Hbad. rewrite (reply_only ws m _ s c Hws Hopen). reflexivity.
  - intros Hid (t & Ht & Htne) Hpay. apply (refused_intro ws m _ s c Hws Hopen).
    rewrite Hrun. unfold try_catch, case_relay, socket. unfold mbind at 1, Js_bind at 1.
    rewrite (socket_of_lookup _ _ _ Hws), Hid. cbn [negb].
    rewrite Ht, (truthy_JStr _ Htne), Hpay. simpl.
    rewrite (reply_only ws m _ s c Hws Hopen). reflexivity.
  - reflexivity.
Qed.

Lemma relay_guards_refuse_witness :
  refused 1 (offer_to "alice") "Cannot send message: Not logged in." alice_and_guest.
Proof.
  destruct (relay_guards_refuse 1 (offer_to "alice") alice_and_guest
              (socket_of alice_and_guest 1)) as [Hanon _].
  - left. reflexivity.
  - reflexivity.
  - reflexivity.
  - apply Hanon. reflexivity.
Defined.

(** ** Unknown types *)



(** ** The ['message'] listener *)

(** X8.  A message that [JSON.parse] rejects, or that parses to [null], or
    to a value whose [type] is missing or falsy, never reaches the handler:
    the (open) connection is sent one error, which quotes the message of the
    exception, and the registry is unchanged.  For a value other than [null]
    that message is [Message type is missing]. *)
Theorem malformed_message_is_answered ws data s c :
  malformed data -> sockets s !! ws = Some c -> readyState c = OPEN ->
  exists s' text,
    on_message ws data s = Normal Completed s' /\
    sockets s' = alter (push_frame (Text (invalid_reply text))) ws (sockets s) /\
    clients s' = clients s /\ wss_clients s' = wss_clients s /\
    (forall v, data = Some v -> v <> JNull -> text = "Message type is missing").
Proof.
  intros Hbad Hws Hopen.
  assert (Hcatch : forall e,
            exists s',
              (message_catch ws e;; mret Completed) s = Normal Completed s' /\
              sockets s' = alter (push_frame (Text (invalid_reply (error_message e)))) ws
                             (sockets s) /\
              clients s' = clients s /\ wss_clients s' = wss_clients s).
  { intros e. unfold message_catch, socket, logger_log, update, mbind, Js_bind.
    rewrite sendWsMessage_open
      by (rewrite socket_of_with_log, (socket_of_lookup _ _ _ Hws); exact Hopen).
    eexists. split; [reflexivity|]. repeat split. }
  unfold on_message, try_catch.
  destruct data as [v|].
  - assert (Hcases : v = JNull
                     \/ (member v "type" = mret (optional_member (Some v) "type")
                         /\ truthy (optional_member (Some v) "type") = false)).
    { destruct v; [now left|right..]; (split; [reflexivity|]);
        destruct Hbad as [Hbad|Hbad]; (discriminate Hbad || exact Hbad). }
    destruct Hcases as [->|[Hm Hty]].
    + destruct (Hcatch (TypeError "Cannot read properties of null (reading 'type')"))
        as (s' & Hrun & Hs & Hc & Hw).
      exists s', "Cannot read properties of null (reading 'type')".
      split; [exact Hrun|]. repeat split; try assumption.
      intros v [= <-] Hv. now destruct Hv.
    + destruct (Hcatch (PlainError "Message type is missing"))
        as (s' & Hrun & Hs & Hc & Hw).
      exists s', "Message type is missing".
      split; [|repeat split; assumption].
      rewrite Hm. unfold mbind at 1, Js_bind at 1, mret at 1, Js_ret at 1.
      rewrite Hty. exact Hrun.
  - destruct (Hcatch (PlainError "Unexpected token in JSON"))
      as (s' & Hrun & Hs & Hc & Hw).
    exists s', "Unexpected token in JSON".
    split; [exact Hrun|]. repeat split; try assumption. discriminate.
Qed.

Lemma malformed_message_is_answered_witness :
  exists s',
    on_message 0 (Some (JObj [("payload", JNum 1)])) guest_alone = Normal Completed s' /\
    sent (socket_of s' 0) = [Text (invalid_reply "Message type is missing")].
Proof.
  destruct (malformed_message_is_answered 0 (Some (JObj [("payload", JNum 1)]))
              guest_alone (socket_of guest_alone 0))
    as (s' & text & Hrun & Hs & _ & _ & Htext).
  - right. reflexivity.
  - reflexivity.
  - reflexivity.
  - exists s'. split; [exact Hrun|].
    rewrite (Htext _ eq_refl) in Hs by discriminate.
    unfold socket_of. rewrite Hs. reflexivity.
Defined.

(** ** A new connection *)

(** X9.  The ['connection'] listener gives the new socket a handle that no
    socket had: the socket is open, marked alive, has the provisional
    [clientId] and no [userId], and joins [wss.clients]; the registry and
    every other socket are as they were.  Until it logs in, its relay
    envelopes and its [register_push] are refused. *)
Theorem new_connection_is_anonymous uuid clientIp s :
  exists h s',
    on_connection uuid clientIp s = Normal h s' /\
    sockets s !! h = None /\
    sockets s' !! h = Some (mkClient (Some uuid) None (Some true) OPEN []) /\
    (forall h', h' <> h -> sockets s' !! h' = sockets s !! h') /\
    wss_clients s' = wss_clients s ++ [h] /\
    clients s' = clients s /\
    (forall m, relay_envelope m ->
               refused h m "Cannot send message: Not logged in." s') /\
    (forall m, type m = enum RegisterPush ->
               refused h m "Must be logged in to register push token" s').
Proof.
  destruct (on_connection_effect uuid clientIp s) as (s' & Hrun & Hnew & Hold & Hw & Hc).
  exists (fresh (dom (sockets s))), s'.
  split; [exact Hrun|]. split.
  { apply not_elem_of_dom. apply is_fresh. }
  split; [exact Hnew|]. split; [exact Hold|]. split; [exact Hw|]. split; [exact Hc|].
  split; intros m Hm.
  - now apply (relay_refused_anonymous _ m s' _ Hm Hnew).
  - now apply (register_push_refused_anonymous _ m s' _ Hm Hnew).
Qed.

(** ** What an event may write

    The listeners are made of a few writes.  Log entries apart, a frame is
    written to an open socket only, and every other write belongs to the
    footprint of the event: a property of the state that survives the
    writes of the footprint survives the event. *)

(** The two listeners of a departure, from the test of the registry on. *)
Lemma on_close_unfold ws code reason s :
  on_close ws code reason s =
    let c := socket_of s ws in
    let s1 :=
      with_log
        (fun entries => entries ++ [mkLog LevelInfo
           ("Client disconnected: " +:+ str (or_else (userId c) (clientId c))
            +:+ ", Code: " +:+ pretty code +:+ ", Reason: " +:+ reason)]) s in
    if nonempty (userId c) && Map.has (str (userId c)) (clients s) then
      (broadcast (userId_notice UserLeft (userId c)) (Some ws);;
       s' ← state;
       logger_log LevelInfo
         ("User " +:+ str (userId c) +:+ " removed from active clients. Total clients: "
          +:+ pretty (Map.size (clients s'))))
        (with_clients (Map.delete (str (userId c))) s1)
    else
      logger_log LevelInfo
        ("Unauthenticated client " +:+ str (clientId c) +:+ " disconnected.") s1.
Proof.
  unfold on_close, socket, state, logger_log, update, mbind, Js_bind. simpl.
  now destruct (nonempty _ && _).
Qed.

Lemma on_error_unfold ws error s :
  on_error ws error s =
    let c := socket_of s ws in
    let s1 :=
      with_log
        (fun entries => entries ++ [mkLog LevelError
           ("WebSocket error for " +:+ str (or_else (userId c) (clientId c)) +:+ ":")]) s in
    let tail : Js unit :=
      c' ← socket ws;
      if decide (readyState c' <> CLOSED /\ readyState c' <> CLOSING) then terminate ws
      else mret tt in
    if nonempty (userId c) && Map.has (str (userId c)) (clients s) then
      (broadcast (userId_notice UserLeft (userId c)) (Some ws);;
       (s' ← state;
        logger_log LevelInfo
          ("User " +:+ str (userId c) +:+ " removed due to error. Total clients: "
           +:+ pretty (Map.size (clients s'))));;
       tail)
        (with_clients (Map.delete (str (userId c))) s1)
    else tail s1.
Proof.
  unfold on_error, socket, state, logger_log, update, mbind, Js_bind. simpl.
  destruct (nonempty _ && _); [|reflexivity].
  now destruct (broadcast _ _ _).
Qed.

Lemma nonempty_true v : nonempty v = true -> exists u, v = Some u /\ u <> "".
Proof.
  destruct v as [u|]; [|discriminate]. simpl. intros H. exists u. split; [reflexivity|].
  intros ->. discriminate.
Qed.

(** [P] is a property of the state and [may] tells the writes that [P]
    withstands.  Each hypothesis says how [P] fares under one write, in a
    state in which the listeners perform it: a frame goes to an open socket,
    a socket that is terminated is not closed, a user id is bound when the
    registry does not hold it and deleted when it does. *)
Section Guarded.

Variable P : Server -> Prop.
Variable may : Write -> Prop.

Hypothesis G_log : forall f s, P s -> P (with_log f s).
Hypothesis G_frame :
  forall h fr s,
    readyState (socket_of s h) = OPEN -> P s ->
    P (with_sockets (alter (push_frame fr) h) s).
Hypothesis G_terminate :
  forall h s,
    may (Terminate h) -> readyState (socket_of s h) <> CLOSED -> P s ->
    P (with_sockets (alter (set_readyState CLOSING) h) s).
Hypothesis G_probe :
  forall h s, may (Probe h) -> P s -> P (with_sockets (alter (set_isAlive (Some false)) h) s).
Hypothesis G_alive :
  forall h s, may (MarkAlive h) -> P s -> P (with_sockets (alter (set_isAlive (Some true)) h) s).
Hypothesis G_enter :
  forall h u s,
    may (Enter h u) -> Map.has u (clients s) = false -> P s ->
    P (with_clients (Map.set u h)
         (with_sockets (alter (set_userId (Some u)) h)
            (with_sockets (alter (set_clientId None) h) s))).
Hypothesis G_leave :
  forall h u s,
    may (Leave h) -> userId (socket_of s h) = Some u ->
    Map.has u (clients s) = true -> P s ->
    P (with_clients (Map.delete u) s).
Hypothesis G_close : forall h s, may (LibraryClose h) -> P s -> P (closed_by_library h s).
Hypothesis G_connect :
  forall uuid clientIp, may Connect -> carried P (on_connection uuid clientIp).

Lemma guarded_ret {A} (a : A) : carried P (mret a).
Proof. intros s H. exact H. Qed.

Lemma guarded_bind {A B} (m : Js A) (f : A -> Js B) :
  carried P m -> (forall a, carried P (f a)) -> carried P (m ≫= f).
Proof.
  intros Hm Hf s H. unfold mbind, Js_bind. specialize (Hm s H).
  destruct (m s) as [a s'|e s']; simpl in *; [now apply Hf|assumption].
Qed.

Lemma guarded_try_catch {A} (m : Js A) (k : JsError -> Js A) :
  carried P m -> (forall e, carried P (k e)) -> carried P (try_catch m k).
Proof.
  intros Hm Hk s H. unfold try_catch. specialize (Hm s H).
  destruct (m s) as [a s'|e s']; simpl in *; [assumption|now apply Hk].
Qed.

Lemma guarded_throw {A} e : carried P (@throw A e).
Proof. intros s H. exact H. Qed.

Lemma guarded_state : carried P state.
Proof. intros s H. exact H. Qed.

Lemma guarded_socket ws : carried P (socket ws).
Proof. intros s H. exact H. Qed.

Lemma guarded_template v : carried P (template v).
Proof.
  intros s H. unfold template.
  destruct v as [j|]; [destruct (ToString j)|]; exact H.
Qed.

Lemma guarded_member v k : carried P (member v k).
Proof. intros s H. unfold member. destruct v; exact H. Qed.

Lemma guarded_logger_log l m : carried P (logger_log l m).
Proof. intros s H. now apply G_log. Qed.

Lemma guarded_sendWsMessage ws m : carried P (sendWsMessage ws m).
Proof.
  intros s H.
  destruct (decide (readyState (socket_of s ws) = OPEN)) as [Hopen|Hclosed].
  - rewrite sendWsMessage_open by assumption. now apply G_frame.
  - destruct (sendWsMessage_not_open ws m s Hclosed) as [entry ->]. now apply G_log.
Qed.

Lemma guarded_terminate ws : may (Terminate ws) -> carried P (terminate ws).
Proof.
  intros Hmay s H.
  destruct (decide (readyState (socket_of s ws) = CLOSED)) as [Hc|Hc].
  - unfold terminate, socket, mbind, Js_bind. now rewrite decide_True.
  - rewrite terminate_not_closed by assumption. now apply G_terminate.
Qed.

Lemma guarded_ping ws : carried P (ping ws).
Proof.
  intros s H. unfold ping, socket, mbind, Js_bind.
  destruct (decide (readyState (socket_of s ws) = OPEN)) as [Hopen|Hclosed].
  - now apply G_frame.
  - exact H.
Qed.

Ltac gcarry :=
  repeat
    (match goal with
     | |- carried P (mret _) => apply guarded_ret
     | |- carried P (throw _) => apply guarded_throw
     | |- carried P state => apply guarded_state
     | |- carried P (socket _) => apply guarded_socket
     | |- carried P (template _) => apply guarded_template
     | |- carried P (member _ _) => apply guarded_member
     | |- carried P (logger_log _ _) => apply guarded_logger_log
     | |- carried P (sendWsMessage _ _) => apply guarded_sendWsMessage
     | |- carried P (ping _) => apply guarded_ping
     | |- carried P (_ ≫= _) => apply guarded_bind; [|intros ?]
     | |- carried P (try_catch _ _) => apply guarded_try_catch; [|intros ?]
     | |- carried P (if ?b then _ else _) => destruct b
     | |- carried P (match ?x with _ => _ end) => destruct x
     | H : carried P ?m |- carried P ?m => exact H
     end).

Lemma guarded_forEach f l : (forall x, carried P (f x)) -> carried P (forEach f l).
Proof.
  intros Hf. induction l as [|x rest IH]; simpl.
  - apply guarded_ret.
  - apply guarded_bind; [apply Hf|intros _; exact IH].
Qed.

Lemma guarded_broadcast m senderWs : carried P (broadcast m senderWs).
Proof.
  unfold broadcast. gcarry.
  apply guarded_forEach. intros x. gcarry.
Qed.

Lemma guarded_outer_catch {A} ws m (a : A) e : carried P (outer_catch ws m a e).
Proof. unfold outer_catch. gcarry. Qed.

Lemma guarded_message_catch ws e : carried P (message_catch ws e).
Proof. unfold message_catch. gcarry. Qed.

Lemma guarded_case_Login ws m :
  (forall u, optional_member (payload m) "userId" = Some (JStr u) -> trim u <> "" ->
             may (Enter ws u) /\ may (Terminate ws)) ->
  carried P (case_Login ws m).
Proof.
  intros Hmay. unfold case_Login.
  destruct (not_a_valid_string _) eqn:Hvalid; [gcarry|].
  destruct (optional_member _ _) as [[| | |u| |]|]; try apply guarded_ret.
  destruct (Hmay u eq_refl (accepted_string_valid _ Hvalid)) as [Hreg Hterm].
  assert (Htaken : carried P
            (logger_log LevelWarn
               ("Login attempt failed: User ID " +:+ u +:+ " is already logged in.");;
             sendWsMessage ws
               (error_reply ("User ID " +:+ u +:+ " is already taken/logged in.") m);;
             terminate ws;; mret Completed))
    by (gcarry; now apply guarded_terminate).
  intros s H. unfold state. unfold mbind at 1, Js_bind at 1.
  destruct (Map.has u (clients s)) eqn:Hhas; [exact (Htaken s H)|].
  cbv beta iota zeta delta [socket assign update logger_log mbind Js_bind].
  match goal with
  | |- context [sendWsMessage ?w ?r ?st] =>
      assert (Hst : P st) by (apply G_log, G_enter; assumption);
      pose proof (guarded_sendWsMessage w r st Hst) as Hsend;
      destruct (sendWsMessage w r st)
  end; exact Hsend.
Qed.

Lemma guarded_case_RegisterPush ws m : carried P (case_RegisterPush ws m).
Proof. unfold case_RegisterPush. gcarry. Qed.

Lemma guarded_case_relay ws m : carried P (case_relay ws m).
Proof. unfold case_relay. gcarry. Qed.

Lemma guarded_case_default ws m : carried P (case_default ws m).
Proof. unfold case_default. gcarry. Qed.

Lemma guarded_handleWebSocketMessage ws m :
  (forall u, type m = enum Login ->
             optional_member (payload m) "userId" = Some (JStr u) -> trim u <> "" ->
             may (Enter ws u) /\ may (Terminate ws)) ->
  carried P (handleWebSocketMessage ws m).
Proof.
  intros Hmay. unfold handleWebSocketMessage. apply guarded_try_catch.
  - unfold dispatch.
    destruct (case_label (type m) Login) eqn:Hlabel.
    + apply guarded_case_Login. intros u. apply Hmay.
      unfold case_label in Hlabel. destruct (type m); try discriminate.
      apply String.eqb_eq in Hlabel as ->. reflexivity.
    + gcarry.
      * apply guarded_case_RegisterPush.
      * apply guarded_case_relay.
      * apply guarded_case_default.
  - intros e. apply guarded_outer_catch.
Qed.

Lemma guarded_resume_RegisterPush ws m u q : carried P (resume_RegisterPush ws m u q).
Proof.
  unfold resume_RegisterPush, saveOrUpdatePushToken.
  gcarry; apply guarded_outer_catch.
Qed.

Lemma guarded_resume_relay ws m t q : carried P (resume_relay ws m t q).
Proof.
  unfold resume_relay, getPushToken.
  gcarry; apply guarded_outer_catch.
Qed.

Lemma guarded_bind_ret {A B} (a : A) (f : A -> Js B) :
  carried P (f a) -> carried P (mret a ≫= f).
Proof. intros Hf s H. exact (Hf s H). Qed.

Lemma guarded_bind_throw {A B} e (f : A -> Js B) : carried P (throw e ≫= f).
Proof. intros s H. exact H. Qed.

Ltac apply_bind_ret :=
  match goal with
  | |- carried P (mret ?a ≫= ?f) => apply (guarded_bind_ret a f); cbv beta
  end.

Lemma guarded_on_message ws data :
  (forall u, login_request ws u (Message ws data) -> trim u <> "" ->
             may (Enter ws u) /\ may (Terminate ws)) ->
  carried P (on_message ws data).
Proof.
  intros Hmay. unfold on_message. apply guarded_try_catch; [|intros e; gcarry].
  - destruct data as [parsedMessage|]; [|apply guarded_throw].
    assert (Hcases : parsedMessage = JNull \/ parsedMessage <> JNull)
      by (destruct parsedMessage; (left; reflexivity) || (right; discriminate)).
    destruct Hcases as [->|Hnull]; [apply guarded_bind_throw|].
    assert (Hm : forall k,
              member parsedMessage k = mret (optional_member (Some parsedMessage) k))
      by (intros k; destruct parsedMessage; [now destruct Hnull|reflexivity..]).
    rewrite !Hm. apply_bind_ret.
    destruct (negb (truthy _)); [apply guarded_throw|].
    destruct (optional_member (Some parsedMessage) "type") as [ty|] eqn:Hty;
      [|apply guarded_ret].
    apply guarded_bind; [apply guarded_socket|intros c].
    apply_bind_ret.
    apply guarded_bind; [gcarry|intros _].
    apply guarded_bind; [gcarry|intros _].
    apply guarded_handleWebSocketMessage. simpl.
    intros u Hlogin Hu Hvalid. apply Hmay; [|exact Hvalid].
    split; [reflexivity|]. rewrite Hty, Hlogin. split; [reflexivity|exact Hu].
  - apply guarded_message_catch.
Qed.

Lemma guarded_on_close ws code reason :
  may (Leave ws) -> carried P (on_close ws code reason).
Proof.
  intros Hmay s H. rewrite on_close_unfold. cbv zeta.
  destruct (nonempty _ && _) eqn:Hguard.
  - apply andb_true_iff in Hguard as [Hne Hhas].
    apply nonempty_true in Hne as (u & Hu & Hne). rewrite Hu in *. simpl str in *.
    match goal with
    | |- P (final (?k ?st)) => assert (Hk : carried P k); [|apply Hk]
    end.
    + gcarry. apply guarded_broadcast.
    + apply (G_leave ws u); try assumption. now apply G_log.
  - apply guarded_logger_log. now apply G_log.
Qed.

Lemma guarded_emit_close ws code reason :
  may (LibraryClose ws) -> may (Leave ws) ->
  carried P (emit_close ws code reason).
Proof.
  intros Hclose Hmay s H. rewrite emit_close_on_close.
  apply guarded_on_close; [exact Hmay|]. now apply G_close.
Qed.

Lemma guarded_on_error ws error :
  may (Leave ws) -> may (Terminate ws) -> carried P (on_error ws error).
Proof.
  intros Hmay Hterm s H. rewrite on_error_unfold. cbv zeta.
  assert (Htail : carried P
            (c' ← socket ws;
             if decide (readyState c' <> CLOSED /\ readyState c' <> CLOSING)
             then terminate ws else mret tt))
    by (gcarry; now apply guarded_terminate).
  destruct (nonempty _ && _) eqn:Hguard.
  - apply andb_true_iff in Hguard as [Hne Hhas].
    apply nonempty_true in Hne as (u & Hu & Hne). rewrite Hu in *. simpl str in *.
    match goal with
    | |- P (final (?k ?st)) => assert (Hk : carried P k); [|apply Hk]
    end.
    + apply guarded_bind; [apply guarded_broadcast|intros _].
      apply guarded_bind; [gcarry|intros _]. exact Htail.
    + apply (G_leave ws u); try assumption. now apply G_log.
  - apply Htail. now apply G_log.
Qed.

Lemma guarded_heartbeat :
  (forall h, may (Probe h)) -> (forall h, may (Terminate h)) -> carried P heartbeat.
Proof.
  intros Hprobe Hterm. unfold heartbeat. gcarry. apply guarded_forEach. intros x.
  unfold heartbeat_client. gcarry.
  - now apply guarded_terminate.
  - intros s H. now apply G_probe.
Qed.

(** An event carries [P] when [P] survives every write of its footprint. *)
Lemma guarded_listener e :
  (forall w, footprint e w -> may w) -> carried P (listener e).
Proof.
  intros Hmay. destruct e; simpl listener.
  - apply guarded_bind; [apply G_connect; now apply Hmay|intros ?; apply guarded_ret].
  - intros s H. apply G_alive; [now apply Hmay|exact H].
  - apply guarded_bind; [|intros ?; apply guarded_ret].
    apply guarded_on_message. intros u Hu Hvalid. split; apply Hmay; simpl; eauto.
  - apply guarded_try_catch;
      [apply guarded_resume_RegisterPush|intros ?; apply guarded_message_catch].
  - apply guarded_try_catch;
      [apply guarded_resume_relay|intros ?; apply guarded_message_catch].
  - apply guarded_emit_close; now apply Hmay.
  - apply guarded_on_error; now apply Hmay.
  - apply guarded_heartbeat; intros h; now apply Hmay.
Qed.

End Guarded.

Lemma socket_has_alter h Q f h' s :
  (h' = h -> forall c, sockets s !! h = Some c -> Q c -> Q (f c)) ->
  socket_has h Q s -> socket_has h Q (with_sockets (alter f h') s).
Proof.
  intros Hf (c & Hc & HQ). unfold socket_has. simpl.
  rewrite (lookup_alter_cases f h' h _ c Hc). eexists. split; [reflexivity|].
  case_decide; [now apply Hf|exact HQ].
Qed.

Lemma socket_has_connection h Q uuid clientIp :
  carried (socket_has h Q) (on_connection uuid clientIp).
Proof.
  intros s (c & Hc & HQ).
  destruct (on_connection_effect uuid clientIp s) as (s' & -> & _ & Hold & _).
  simpl. exists c. split; [|exact HQ].
  rewrite Hold; [exact Hc|]. apply fresh_not_allocated. eauto.
Qed.

Lemma closed_socket_step h fs s e :
  socket_has h (fun c => readyState c <> OPEN /\ sent c = fs) s ->
  socket_has h (fun c => readyState c <> OPEN /\ sent c = fs) (step s e).
Proof.
  unfold step.
  apply (guarded_listener _ (fun _ => True)); [| | | | | | | | |trivial].
  - intros f s0 H. exact H.
  - intros h' fr s0 Hopen. apply socket_has_alter.
    intros -> c Hc [Hclosed _]. rewrite (socket_of_lookup _ _ _ Hc) in Hopen.
    contradiction.
  - intros h' s0 _ _. apply socket_has_alter. intros _ c _ [_ Hs]. now split.
  - intros h' s0 _. apply socket_has_alter. intros _ c _ H. exact H.
  - intros h' s0 _. apply socket_has_alter. intros _ c _ H. exact H.
  - intros h' u s0 _ _ H.
    apply (socket_has_alter h _ (set_clientId None) h') in H; [|intros _ c _ Hc; exact Hc].
    apply (socket_has_alter h _ (set_userId (Some u)) h') in H; [|intros _ c _ Hc; exact Hc].
    exact H.
  - intros h' u s0 _ _ _ H. exact H.
  - intros h' s0 _ H.
    apply (socket_has_alter h _ (set_readyState CLOSED) h') in H; [exact H|].
    intros _ c _ [_ Hs]. now split.
  - intros uuid clientIp _. apply socket_has_connection.
Qed.

Lemma closed_socket_run h fs es :
  forall s,
    socket_has h (fun c => readyState c <> OPEN /\ sent c = fs) s ->
    socket_has h (fun c => readyState c <> OPEN /\ sent c = fs) (run s es).
Proof.
  induction es as [|e es IH]; intros s H; simpl; [exact H|].
  now apply IH, closed_socket_step.
Qed.

(** X10.  A socket that is not open is never written again, and never
    opens again, whatever events follow: its frames after any run are the
    frames it had. *)
Theorem closed_socket_is_never_written es s h c :
  sockets s !! h = Some c -> readyState c <> OPEN ->
  exists c',
    sockets (run s es) !! h = Some c' /\ sent c' = sent c /\ readyState c' <> OPEN.
Proof.
  intros Hc Hclosed.
  destruct (closed_socket_run h (sent c) es s) as (c' & Hc' & Hr & Hs).
  - exists c. auto.
  - exists c'. auto.
Qed.

Lemma closed_socket_is_never_written_witness :
  readyState (socket_of (step alice_and_guest (Message 1 (login_data "alice"))) 1) <> OPEN /\
  sent (socket_of
          (run (step alice_and_guest (Message 1 (login_data "alice")))
             [Close 0 1000 "bye"; Tick; Message 1 (login_data "bob")]) 1)
  = sent (socket_of (step alice_and_guest (Message 1 (login_data "alice"))) 1).
Proof.
  split; [vm_compute; discriminate|].
  destruct (closed_socket_is_never_written
              [Close 0 1000 "bye"; Tick; Message 1 (login_data "bob")]
              (step alice_and_guest (Message 1 (login_data "alice"))) 1
              (socket_of (step alice_and_guest (Message 1 (login_data "alice"))) 1))
    as (c' & Hc' & Hsent & _).
  - reflexivity.
  - vm_compute. discriminate.
  - unfold socket_of at 1. rewrite Hc'. exact Hsent.
Defined.

(** ** Which events change which field *)

(** A field that the writes of an event leave alone keeps its value. *)
Lemma field_kept {A} (field : WebSocketClient -> A) (may : Write -> Prop) h v e s :
  (forall w, footprint e w -> may w) ->
  (forall fr c, field (push_frame fr c) = field c) ->
  (may (Terminate h) -> forall c, field (set_readyState CLOSING c) = field c) ->
  (may (Probe h) -> forall c, field (set_isAlive (Some false) c) = field c) ->
  (may (MarkAlive h) -> forall c, field (set_isAlive (Some true) c) = field c) ->
  (forall u, may (Enter h u) ->
             forall c, field (set_userId (Some u) (set_clientId None c)) = field c) ->
  (may (LibraryClose h) -> forall c, field (set_readyState CLOSED c) = field c) ->
  socket_has h (fun c => field c = v) s ->
  socket_has h (fun c => field c = v) (step s e).
Proof.
  intros Hmay Hframe Hterm Hprobe Halive Hreg Hclose. unfold step.
  apply (guarded_listener _ (fun w => may w)); [| | | | | | | | |exact Hmay].
  - intros f s0 H. exact H.
  - intros h' fr s0 _. apply socket_has_alter. intros _ c _ <-. apply Hframe.
  - intros h' s0 Hw _. apply socket_has_alter. intros -> c _ <-. now apply Hterm.
  - intros h' s0 Hw. apply socket_has_alter. intros -> c _ <-. now apply Hprobe.
  - intros h' s0 Hw. apply socket_has_alter. intros -> c _ <-. now apply Halive.
  - intros h' u s0 Hw _ H.
    apply (socket_has_alter h _ (fun c => set_userId (Some u) (set_clientId None c)) h')
      in H; [|intros -> c _ <-; now apply (Hreg u)].
    destruct H as (c & Hc & HQ). exists c. split; [|exact HQ].
    simpl in *. rewrite <- Hc.
    destruct (decide (h' = h)) as [->|Hne].
    + rewrite !lookup_alter_eq. now destruct (sockets s0 !! h).
    + now rewrite !lookup_alter_ne.
  - intros h' u s0 _ _ _ H. exact H.
  - intros h' s0 Hw H.
    apply (socket_has_alter h _ (set_readyState CLOSED) h') in H; [exact H|].
    intros -> c _ <-. now apply Hclose.
  - intros uuid clientIp _. apply socket_has_connection.
Qed.

Lemma socket_stays e s h c :
  sockets s !! h = Some c -> exists c', sockets (step s e) !! h = Some c'.
Proof.
  intros Hc.
  destruct (field_kept (fun _ => tt) (fun _ => True) h tt e s) as (c' & Hc' & _);
    try (intros; reflexivity); eauto.
  exists c. auto.
Qed.

Lemma identity_kept e s h c :
  sockets s !! h = Some c -> (forall u, ~ login_request h u e) ->
  exists c',
    sockets (step s e) !! h = Some c' /\ userId c' = userId c /\ clientId c' = clientId c.
Proof.
  intros Hc Hlogin.
  destruct (field_kept (fun c => (userId c, clientId c))
              (fun w => match w with Enter h' _ => h' <> h | _ => True end)
              h (userId c, clientId c) e s) as (c' & Hc' & Hid);
    try (intros; reflexivity).
  - intros w Hw. destruct w; try exact I. intros ->.
    destruct e; try contradiction. destruct Hw as (-> & Hw & _). now apply (Hlogin u).
  - intros u Hne. now destruct Hne.
  - exists c. auto.
  - exists c'. injection Hid as Hu Hcl. auto.
Qed.

Lemma isAlive_kept e s h c :
  sockets s !! h = Some c -> e <> Pong h -> e <> Tick ->
  exists c', sockets (step s e) !! h = Some c' /\ isAlive c' = isAlive c.
Proof.
  intros Hc Hpong Htick.
  destruct (field_kept isAlive
              (fun w => match w with MarkAlive h' | Probe h' => h' <> h | _ => True end)
              h (isAlive c) e s) as (c' & Hc' & Ha);
    try (intros; reflexivity).
  - intros w Hw. destruct w; try exact I; intros ->; destruct e; simpl in Hw;
      try contradiction; congruence.
  - intros Hne. now destruct Hne.
  - intros Hne. now destruct Hne.
  - exists c. auto.
  - exists c'. auto.
Qed.

Lemma readyState_kept e s h c :
  sockets s !! h = Some c ->
  (forall u, ~ login_request h u e) -> ~ departure h e -> e <> Tick ->
  exists c', sockets (step s e) !! h = Some c' /\ readyState c' = readyState c.
Proof.
  intros Hc Hlogin Hdep Htick.
  destruct (field_kept readyState
              (fun w => match w with
                        | Terminate h' | LibraryClose h' => h' <> h
                        | _ => True
                        end)
              h (readyState c) e s) as (c' & Hc' & Hr);
    try (intros; reflexivity).
  - intros w Hw. destruct w; try exact I; intros ->; destruct e;
      try contradiction; try congruence; try (apply Hdep; simpl in *; congruence).
    destruct Hw as (-> & u & Hu & _). now apply (Hlogin u).
  - intros Hne. now destruct Hne.
  - intros Hne. now destruct Hne.
  - exists c. auto.
  - exists c'. auto.
Qed.

(** X11.  No event removes a socket from the store, and each field of a
    socket changes with its own events only: [userId] and [clientId] with a
    login request received on that socket; [isAlive] with a pong of that
    socket or a run of the heartbeat; [readyState] with a login request,
    the close or the error of that socket, or a run of the heartbeat.  In
    particular no message of another connection changes them. *)
Theorem socket_fields_change_only_with_their_events e s h c :
  sockets s !! h = Some c ->
  exists c',
    sockets (step s e) !! h = Some c' /\
    ((forall u, ~ login_request h u e) ->
     userId c' = userId c /\ clientId c' = clientId c) /\
    (e <> Pong h -> e <> Tick -> isAlive c' = isAlive c) /\
    ((forall u, ~ login_request h u e) -> ~ departure h e -> e <> Tick ->
     readyState c' = readyState c).
Proof.
  intros Hc. destruct (socket_stays e s h c Hc) as [c' Hc'].
  exists c'. split; [exact Hc'|]. split; [|split].
  - intros Hlogin.
    destruct (identity_kept e s h c Hc Hlogin) as (c'' & Hc'' & Hid).
    rewrite Hc' in Hc''. injection Hc'' as <-. exact Hid.
  - intros Hpong Htick.
    destruct (isAlive_kept e s h c Hc Hpong Htick) as (c'' & Hc'' & Ha).
    rewrite Hc' in Hc''. injection Hc'' as <-. exact Ha.
  - intros Hlogin Hdep Htick.
    destruct (readyState_kept e s h c Hc Hlogin Hdep Htick) as (c'' & Hc'' & Hr).
    rewrite Hc' in Hc''. injection Hc'' as <-. exact Hr.
Qed.

Lemma socket_fields_change_only_with_their_events_witness :
  userId (socket_of (step alice_and_guest (Message 1 (login_data "bob"))) 0)
  = Some "alice".
Proof.
  destruct (socket_fields_change_only_with_their_events
              (Message 1 (login_data "bob")) alice_and_guest 0
              (socket_of alice_and_guest 0))
    as (c' & Hc' & Hid & _).
  - reflexivity.
  - unfold socket_of at 1. rewrite Hc'. simpl.
    destruct Hid as [-> _]; [|reflexivity].
    intros u (H & _). discriminate.
Defined.

(** ** The registry *)

Lemma socket_of_alter_field {A} (field : WebSocketClient -> A) f h' s h :
  (forall c, field (f c) = field c) ->
  field (socket_of (with_sockets (alter f h') s) h) = field (socket_of s h).
Proof.
  intros Hf. unfold socket_of. simpl.
  destruct (decide (h' = h)) as [->|Hne].
  - rewrite lookup_alter_eq. destruct (sockets s !! h); simpl; [apply Hf|reflexivity].
  - now rewrite lookup_alter_ne.
Qed.

Lemma connection_keeps_registry uuid clientIp R :
  carried (fun s => clients s = R) (on_connection uuid clientIp).
Proof.
  intros s H.
  destruct (on_connection_effect uuid clientIp s) as (s' & -> & _ & _ & _ & Hc).
  simpl. congruence.
Qed.

(** Events other than a login request and a departure. *)
Lemma registry_kept e s :
  (forall ws u, ~ login_request ws u e) -> (forall ws, ~ departure ws e) ->
  clients (step s e) = clients s.
Proof.
  intros Hlogin Hdep. unfold step.
  apply (guarded_listener (fun s' => clients s' = clients s)
           (fun w => match w with Enter _ _ | Leave _ => False | _ => True end));
    try (intros; assumption); try reflexivity.
  - intros h u s0 [].
  - intros h u s0 [].
  - intros uuid clientIp _. apply connection_keeps_registry.
  - intros w Hw. destruct w; try exact I; destruct e; try contradiction.
    + destruct Hw as (_ & Hw & _). now apply (Hlogin ws u).
    + now apply (Hdep ws).
    + now apply (Hdep ws).
Qed.

Lemma login_request_unique ws u ws' u' e :
  login_request ws u e -> login_request ws' u' e -> ws' = ws /\ u' = u.
Proof.
  destruct e as [| |x [data|]| | | | |]; try contradiction.
  intros (<- & _ & H) (<- & _ & H'). split; congruence.
Qed.

Lemma registry_after_login e s ws u :
  login_request ws u e ->
  clients (step s e) = clients s
  \/ (Map.get u (clients s) = None /\ trim u <> ""
      /\ clients (step s e) = Map.set u ws (clients s)).
Proof.
  intros Hlogin. unfold step.
  apply (guarded_listener
           (fun s' => clients s' = clients s
                      \/ (Map.get u (clients s) = None /\ trim u <> ""
                          /\ clients s' = Map.set u ws (clients s)))
           (fun w => match w with
                     | Enter h u' => h = ws /\ u' = u /\ trim u <> ""
                     | Leave _ => False
                     | _ => True
                     end));
    try (intros; assumption); try (left; reflexivity).
  - intros h u' s0 (-> & -> & Hvalid) Hhas [H|(_ & _ & H)]; simpl.
    + right. rewrite H in *. split; [now apply MapFacts.has_false|]. now split.
    + rewrite H in Hhas. apply MapFacts.has_false in Hhas.
      now rewrite MapFacts.get_set_eq in Hhas.
  - intros h u' s0 [].
  - intros uuid clientIp _ s0 H.
    destruct (on_connection_effect uuid clientIp s0) as (s' & -> & _ & _ & _ & Hc).
    simpl. now rewrite Hc.
  - intros w Hw. destruct w; try exact I; destruct e; try contradiction.
    destruct Hw as (-> & Hw & Hvalid).
    destruct (login_request_unique _ _ _ _ _ Hlogin Hw) as [-> ->]. auto.
Qed.

Lemma registry_after_departure e s ws :
  departure ws e ->
  clients (step s e) = clients s
  \/ exists u, userId (socket_of s ws) = Some u /\ Map.has u (clients s) = true
               /\ clients (step s e) = Map.delete u (clients s).
Proof.
  intros Hdep. unfold step.
  pose (P := fun s' : Server =>
          userId (socket_of s' ws) = userId (socket_of s ws)
          /\ (clients s' = clients s
              \/ exists u, userId (socket_of s ws) = Some u
                           /\ Map.has u (clients s) = true
                           /\ clients s' = Map.delete u (clients s))).
  assert (Halter : forall f h s0,
            (forall c, userId (f c) = userId c) ->
            P s0 -> P (with_sockets (alter f h) s0)).
  { intros f h s0 Hf [Hid Hreg]. split; [|exact Hreg].
    now rewrite (socket_of_alter_field userId). }
  enough (HP : P (final (listener e s))) by apply HP.
  apply (guarded_listener P
           (fun w => match w with
                     | Leave h => h = ws
                     | Enter _ _ | Connect => False
                     | _ => True
                     end)).
  - intros f s0 H. exact H.
  - intros h fr s0 _. now apply Halter.
  - intros h s0 _ _. now apply Halter.
  - intros h s0 _. now apply Halter.
  - intros h s0 _. now apply Halter.
  - intros h u s0 [].
  - intros h u s0 -> Hu Hhas [Hid [H|(u0 & Hu0 & _ & H)]]; (split; [exact Hid|]); simpl.
    + right. exists u. rewrite H in *. split; [congruence|]. now split.
    + assert (u0 = u) by congruence. subst u0. rewrite H in Hhas.
      apply MapFacts.has_true in Hhas as [v Hv].
      now rewrite MapFacts.get_delete_eq in Hv.
  - intros h s0 _ H. unfold closed_by_library.
    apply (Halter (set_readyState CLOSED) h) in H; [exact H|reflexivity].
  - intros uuid clientIp [].
  - intros w Hw. destruct w; try exact I; destruct e; try contradiction;
      simpl in *; congruence.
  - split; [reflexivity|now left].
Qed.

(** X12.  The registry changes with two kinds of events only.  A login
    request for [u] received on [ws] leaves it as it was or, when [u] is not
    blank and was free, binds [u] to [ws].  The close or the error of [ws]
    leaves it as it was or deletes the user id that [ws] holds, which the
    registry held.  Every other event leaves it as it was. *)
Theorem registry_changes_only_on_login_and_departure e s :
  ((forall ws u, ~ login_request ws u e) -> (forall ws, ~ departure ws e) ->
   clients (step s e) = clients s) /\
  (forall ws u,
     login_request ws u e ->
     clients (step s e) = clients s
     \/ (Map.get u (clients s) = None /\ trim u <> ""
         /\ clients (step s e) = Map.set u ws (clients s))) /\
  (forall ws,
     departure ws e ->
     clients (step s e) = clients s
     \/ exists u, userId (socket_of s ws) = Some u /\ Map.has u (clients s) = true
                  /\ clients (step s e) = Map.delete u (clients s)).
Proof.
  split; [|split].
  - apply registry_kept.
  - intros ws u. apply registry_after_login.
  - intros ws. apply registry_after_departure.
Qed.

(** ** The reachable states *)

Lemma registered_identified_step s e :
  (forall ws, subject e = Some ws -> is_Some (sockets s !! ws)) ->
  registered_identified s -> registered_identified (step s e).
Proof.
  intros Hknown Hinv.
  pose (P := fun s' : Server =>
          (forall x, is_Some (sockets s !! x) -> is_Some (sockets s' !! x))
          /\ registered_identified s').
  assert (Halter : forall f h s0,
            (forall c, is_Some (userId c) -> is_Some (userId (f c))) ->
            P s0 -> P (with_sockets (alter f h) s0)).
  { intros f h s0 Hf [Hdom Hreg]. split.
    - intros x Hx. destruct (Hdom x Hx) as [c Hc]. simpl.
      rewrite (lookup_alter_cases f h x _ c Hc). eauto.
    - intros u x Hget. apply socket_has_alter; [|exact (Hreg u x Hget)].
      intros _ c _. apply Hf. }
  enough (HP : P (step s e)) by apply HP.
  unfold step.
  apply (guarded_listener P
           (fun w => match w with
                     | Enter h _ => is_Some (sockets s !! h)
                     | _ => True
                     end)).
  - intros f s0 H. exact H.
  - intros h fr s0 _. now apply Halter.
  - intros h s0 _ _. now apply Halter.
  - intros h s0 _. now apply Halter.
  - intros h s0 _. now apply Halter.
  - intros h u s0 Hh _ H.
    apply (Halter (set_clientId None) h) in H; [|trivial].
    apply (Halter (set_userId (Some u)) h) in H; [|intros; simpl; eauto].
    destruct H as [Hdom Hreg]. split; [exact Hdom|].
    intros u' h' Hget. simpl in Hget.
    destruct (String.eqb_spec u u') as [<-|Hne].
    + rewrite MapFacts.get_set_eq in Hget. injection Hget as <-.
      destruct (Hdom h Hh) as [c Hc]. exists c. split; [exact Hc|].
      simpl in Hc. rewrite lookup_alter_eq in Hc.
      destruct (alter (set_clientId None) h (sockets s0) !! h); [|discriminate].
      injection Hc as <-. simpl. eauto.
    + rewrite MapFacts.get_set_ne in Hget by assumption. now apply (Hreg u').
  - intros h u s0 _ _ _ [Hdom Hreg]. split; [exact Hdom|].
    intros u' h' Hget. simpl in Hget. apply (Hreg u'). eauto using get_delete_Some.
  - intros h s0 _ H. unfold closed_by_library.
    apply (Halter (set_readyState CLOSED) h) in H; [exact H|trivial].
  - intros uuid clientIp _ s0 [Hdom Hreg].
    destruct (on_connection_effect uuid clientIp s0) as (s' & -> & _ & Hold & _ & Hc).
    simpl. split.
    + intros x Hx. rewrite Hold; [now apply Hdom|].
      apply fresh_not_allocated. now apply Hdom.
    + intros u h Hget. rewrite Hc in Hget. destruct (Hreg u h Hget) as (c & Hh & HQ).
      exists c. split; [|exact HQ]. rewrite Hold; [exact Hh|].
      apply fresh_not_allocated. eauto.
  - intros w Hw. destruct w; try exact I. destruct e; try contradiction.
    destruct Hw as (-> & _). now apply Hknown.
  - split; [auto|exact Hinv].
Qed.

Lemma registered_identified_run es :
  forall s,
    connected_first s es -> registered_identified s -> registered_identified (run s es).
Proof.
  induction es as [|e es IH]; intros s Hes H; simpl; [exact H|].
  destruct Hes as [He Hes]. apply IH; [exact Hes|]. now apply registered_identified_step.
Qed.

(** X13.  In every state that the server reaches from its start, each
    socket holds exactly one of [clientId] and [userId], no user id of a
    socket or of the registry is blank and, when every event comes from a
    socket that has connected, every entry of the registry leads to a socket
    that exists and is identified. *)
Theorem reachable_states_are_well_formed es :
  (forall h c, sockets (run initial es) !! h = Some c ->
     one_identity c /\ forall u, userId c = Some u -> trim u <> "") /\
  (forall u h, Map.get u (clients (run initial es)) = Some h -> trim u <> "") /\
  (connected_first initial es ->
   forall u h, Map.get u (clients (run initial es)) = Some h ->
     exists c, sockets (run initial es) !! h = Some c
               /\ is_Some (userId c) /\ clientId c = None).
Proof.
  pose proof (reachable_valid_ids es) as [Hreg Hsock].
  pose proof (identity_invariant es) as Hone.
  split; [|split].
  - intros h c Hc. split; [now apply (Hone h)|now apply (Hsock h)].
  - exact Hreg.
  - intros Hes u h Hget.
    destruct (registered_identified_run es initial Hes) with (u := u) (h := h)
      as (c & Hc & Hid); [intros u' h' H; discriminate|exact Hget|].
    exists c. split; [exact Hc|]. split; [exact Hid|].
    destruct (Hone h c Hc) as [[_ Hnone]|[Hcl _]]; [|exact Hcl].
    rewrite Hnone in Hid. now destruct Hid.
Qed.

(** ** A connection that answers the probes *)

Lemma probe_of_alive s ws c :
  tracked_once s -> sockets s !! ws = Some c ->
  readyState c = OPEN -> isAlive c = Some true ->
  sockets (step s Tick) !! ws = Some (push_frame Ping (set_isAlive (Some false) c)).
Proof.
  intros (Hnd & _ & Htracked) Hws Hopen Halive. unfold step. simpl listener.
  destruct (heartbeat_effect s) as (s' & -> & _ & _ & Hs). simpl.
  rewrite Hs, Hws, (count_occ_NoDup _ _ Hnd (Htracked ws c Hws Hopen)). simpl.
  unfold beat, not_alive. rewrite Halive. now rewrite decide_True.
Qed.

Lemma answered_probes_run es :
  forall s ws c alive,
    tracked_once s -> sockets s !! ws = Some c -> readyState c = OPEN ->
    (alive = true -> isAlive c = Some true) ->
    answers_probes ws alive es ->
    exists c', sockets (run s es) !! ws = Some c' /\ readyState c' = OPEN.
Proof.
  induction es as [|e es IH]; intros s ws c alive Htracked Hws Hopen Halive Hes.
  - exists c. auto.
  - simpl run. pose proof (tracked_once_step s e Htracked) as Htracked'.
    assert (Hother :
              (forall u, ~ login_request ws u e) -> ~ departure ws e ->
              e <> Tick -> e <> Pong ws -> answers_probes ws alive es ->
              exists c', sockets (run (step s e) es) !! ws = Some c'
                         /\ readyState c' = OPEN).
    { intros Hlogin Hdep Htick Hpong Hrest.
      destruct (readyState_kept e s ws c Hws Hlogin Hdep Htick) as (c' & Hc' & Hr).
      destruct (isAlive_kept e s ws c Hws Hpong Htick) as (c'' & Hc'' & Ha).
      rewrite Hc' in Hc''. injection Hc'' as <-.
      apply (IH (step s e) ws c' alive); try assumption.
      - rewrite Hr. exact Hopen.
      - intros Htrue. rewrite Ha. now apply Halive. }
    destruct e; simpl in Hes;
      try (destruct Hes as (Hlogin & Hdep & Hrest);
           apply Hother; [assumption|assumption|discriminate|discriminate|assumption]).
    + destruct (decide (ws0 = ws)) as [->|Hne].
      * apply (IH _ ws (set_isAlive (Some true) c) true); try assumption; try reflexivity.
        unfold step. simpl. now rewrite lookup_alter_eq, Hws.
      * apply (IH _ ws c alive); try assumption.
        unfold step. simpl. now rewrite lookup_alter_ne.
    + destruct Hes as [-> Hrest].
      apply (IH _ ws (push_frame Ping (set_isAlive (Some false) c)) false);
        try assumption; try discriminate.
      apply probe_of_alive; auto.
Qed.

(** X14.  An open connection that is marked alive and answers every probe
    before the next run of the heartbeat stays open, whatever the other
    connections do meanwhile, as long as no login request, close or error of
    its own occurs.  [wss.clients] tracks the open sockets, as in every
    reachable state. *)
Theorem answered_probes_keep_connection_open es s ws c :
  tracked_once s -> sockets s !! ws = Some c ->
  readyState c = OPEN -> isAlive c = Some true ->
  answers_probes ws true es ->
  readyState (socket_of (run s es) ws) = OPEN.
Proof.
  intros Htracked Hws Hopen Halive Hes.
  destruct (answered_probes_run es s ws c true) as (c' & Hc' & Hr); auto.
  unfold socket_of. now rewrite Hc'.
Qed.

Lemma answered_probes_keep_connection_open_witness :
  readyState
    (socket_of
       (run alice_and_guest
          [Tick; Pong 0; Message 1 (login_data "alice"); Close 1 1006 ""; Tick; Pong 0;
           Tick]) 0)
  = OPEN.
Proof.
  apply (answered_probes_keep_connection_open _ _ _ (socket_of alice_and_guest 0)).
  - unfold alice_and_guest, alice_alone.
    apply (tracked_once_run [_]), reachable_tracked_once.
  - reflexivity.
  - reflexivity.
  - reflexivity.
  - simpl. repeat split; try discriminate; try tauto.
    all: intros u (H & _); discriminate.
Defined.

(** ** No listener throws *)

Lemma returns_ret {A} (a : A) : returns (mret a).
Proof. intros s. unfold mret, Js_ret. eauto. Qed.

Lemma returns_bind {A B} (m : Js A) (f : A -> Js B) :
  returns m -> (forall a, returns (f a)) -> returns (m ≫= f).
Proof.
  intros Hm Hf s. unfold mbind, Js_bind.
  destruct (Hm s) as (a & s' & ->). apply Hf.
Qed.

Lemma returns_try_catch {A} (m : Js A) (k : JsError -> Js A) :
  (forall e, returns (k e)) -> returns (try_catch m k).
Proof.
  intros Hk s. unfold try_catch. destruct (m s) as [a s'|e s']; [eauto|apply Hk].
Qed.

Lemma returns_logger_log l m : returns (logger_log l m).
Proof. intros s. unfold logger_log, update. eauto. Qed.

Lemma returns_socket ws : returns (socket ws).
Proof. intros s. unfold socket. eauto. Qed.

Lemma returns_state : returns state.
Proof. intros s. unfold state. eauto. Qed.

Lemma returns_sendWsMessage ws m : returns (sendWsMessage ws m).
Proof. intros s. destruct (sendWsMessage_returns ws m s) as [s' ->]. eauto. Qed.

Lemma returns_terminate ws : returns (terminate ws).
Proof.
  intros s. unfold terminate, socket, assign, update, mbind, Js_bind.
  case_decide; unfold mret, Js_ret; eauto.
Qed.

Lemma returns_forEach f l : (forall x, returns (f x)) -> returns (forEach f l).
Proof.
  intros Hf. induction l as [|x rest IH]; simpl; [apply returns_ret|].
  apply returns_bind; [apply Hf|intros _; exact IH].
Qed.

Lemma returns_broadcast m senderWs ty :
  ToString (type m) = Some ty -> returns (broadcast m senderWs).
Proof.
  intros Hty. unfold broadcast, template. rewrite Hty.
  apply returns_bind; [apply returns_state|intros s0].
  apply returns_bind; [apply returns_ret|intros ty'].
  apply returns_bind; [apply returns_logger_log|intros _].
  apply returns_forEach. intros x.
  case_decide; [apply returns_ret|apply returns_sendWsMessage].
Qed.

Lemma returns_message_catch ws e : returns (message_catch ws e).
Proof.
  unfold message_catch.
  apply returns_bind; [apply returns_socket|intros c].
  apply returns_bind; [apply returns_logger_log|intros _].
  apply returns_sendWsMessage.
Qed.

Lemma returns_on_close ws code reason : returns (on_close ws code reason).
Proof.
  intros s. rewrite on_close_unfold. cbv zeta.
  destruct (nonempty _ && _) eqn:Hguard; [|apply returns_logger_log].
  apply andb_true_iff in Hguard as [Hne _].
  apply nonempty_true in Hne as (u & -> & _).
  apply returns_bind; [now apply (returns_broadcast _ _ "user_left")|intros _].
  apply returns_bind; [apply returns_state|intros s'].
  apply returns_logger_log.
Qed.

Lemma returns_on_error ws error : returns (on_error ws error).
Proof.
  assert (Htail : returns
            (c' ← socket ws;
             if decide (readyState c' <> CLOSED /\ readyState c' <> CLOSING)
             then terminate ws else mret tt)).
  { apply returns_bind; [apply returns_socket|intros c'].
    case_decide; [apply returns_terminate|apply returns_ret]. }
  intros s. rewrite on_error_unfold. cbv zeta.
  destruct (nonempty _ && _) eqn:Hguard; [|apply Htail].
  apply andb_true_iff in Hguard as [Hne _].
  apply nonempty_true in Hne as (u & -> & _).
  apply returns_bind; [now apply (returns_broadcast _ _ "user_left")|intros _].
  apply returns_bind; [|intros _; exact Htail].
  apply returns_bind; [apply returns_state|intros s'].
  apply returns_logger_log.
Qed.

Lemma unit_result (m : Js unit) : returns m -> forall s, exists s', m s = Normal tt s'.
Proof. intros H s. destruct (H s) as ([] & s' & ->). eauto. Qed.

(** X15.  No listener lets an exception escape: whatever the event and
    the state, the listener returns normally.  An exception that leaves
    the handler is caught by the ['message'] listener, whose own [catch]
    clause cannot throw. *)
Theorem listener_never_throws e s : exists s', listener e s = Normal tt s'.
Proof.
  apply unit_result. destruct e; simpl listener.
  - apply returns_bind; [|intros; apply returns_ret].
    intros s0. destruct (on_connection_effect uuid clientIp s0) as (s' & -> & _). eauto.
  - intros s0. unfold on_pong, assign, update. eauto.
  - apply returns_bind; [|intros; apply returns_ret].
    unfold on_message. apply returns_try_catch. intros e.
    apply returns_bind; [apply returns_message_catch|intros; apply returns_ret].
  - apply returns_try_catch. intros e. apply returns_message_catch.
  - apply returns_try_catch. intros e. apply returns_message_catch.
  - intros s0. rewrite emit_close_on_close. apply returns_on_close.
  - apply returns_on_error.
  - intros s0. destruct (heartbeat_effect s0) as (s' & -> & _). eauto.
Qed.

(** ** The error of a socket *)

Lemma error_tail ws s c :
  sockets s !! ws = Some c ->
  exists s',
    (c' ← socket ws;
     if decide (readyState c' <> CLOSED /\ readyState c' <> CLOSING) then terminate ws
     else mret tt) s = Normal tt s' /\
    sockets s' !! ws
      = Some (if decide (readyState c = OPEN) then set_readyState CLOSING c else c).
Proof.
  intros Hws. unfold socket, mbind, Js_bind. rewrite (socket_of_lookup _ _ _ Hws).
  destruct (readyState c) eqn:Hr.
  - rewrite decide_True by (split; discriminate).
    rewrite terminate_not_closed
      by (rewrite (socket_of_lookup _ _ _ Hws), Hr; discriminate).
    eexists. split; [reflexivity|]. simpl. now rewrite lookup_alter_eq, Hws.
  - rewrite decide_False by (intros [_ H]; now apply H).
    eexists. split; [reflexivity|]. exact Hws.
  - rewrite decide_False by (intros [H _]; now apply H).
    eexists. split; [reflexivity|]. exact Hws.
Qed.

(** X16.  After the error event of a socket, that socket is not open: the
    listener terminates it if it was open and leaves its state alone
    otherwise.  It writes no frame to that socket and keeps its user id. *)
Theorem error_event_closes_the_socket ws error s c :
  sockets s !! ws = Some c ->
  exists c',
    sockets (step s (SocketError ws error)) !! ws = Some c' /\
    readyState c' = (if decide (readyState c = OPEN) then CLOSING else readyState c) /\
    readyState c' <> OPEN /\
    sent c' = sent c /\ userId c' = userId c.
Proof.
  intros Hws.
  assert (Hgoal : forall s1,
            sockets s1 !! ws = Some c ->
            forall s',
              (c' ← socket ws;
               if decide (readyState c' <> CLOSED /\ readyState c' <> CLOSING)
               then terminate ws else mret tt) s1 = Normal tt s' ->
              exists c',
                sockets s' !! ws = Some c' /\
                readyState c'
                = (if decide (readyState c = OPEN) then CLOSING else readyState c) /\
                readyState c' <> OPEN /\ sent c' = sent c /\ userId c' = userId c).
  { intros s1 Hs1 s' Hrun. destruct (error_tail ws s1 c Hs1) as (s'' & Hrun' & Hc').
    rewrite Hrun in Hrun'. injection Hrun' as <-.
    eexists. split; [exact Hc'|].
    destruct (decide (readyState c = OPEN)) as [Ho|Ho]; simpl; repeat split; congruence. }
  unfold step. simpl listener. rewrite on_error_unfold. cbv zeta.
  destruct (nonempty _ && _) eqn:Hguard.
  - apply andb_true_iff in Hguard as [Hne _].
    apply nonempty_true in Hne as (u & Hu & _). rewrite Hu.
    unfold mbind at 1, Js_bind at 1.
    match goal with
    | |- context [broadcast _ _ ?st] =>
        destruct (broadcast_user_left ws u st) as (sb & -> & _ & _ & Hsb)
    end.
    unfold mbind at 1, Js_bind at 1, state, logger_log, update.
    unfold mbind at 1, Js_bind at 1.
    match goal with
    | |- context [final (?tail ?st)] =>
        destruct (error_tail ws st c) as (s' & Hrun & _)
    end.
    { simpl. rewrite Hsb. simpl. rewrite Hws. simpl.
      unfold notified. now rewrite decide_True. }
    rewrite Hrun. simpl. eapply Hgoal; [|exact Hrun].
    simpl. rewrite Hsb. simpl. rewrite Hws. simpl.
    unfold notified. now rewrite decide_True.
  - match goal with
    | |- context [final (?tail ?st)] =>
        destruct (error_tail ws st c) as (s' & Hrun & _); [exact Hws|]
    end.
    rewrite Hrun. simpl. eapply Hgoal; [|exact Hrun]. exact Hws.
Qed.

Lemma error_event_closes_the_socket_witness :
  readyState (socket_of (step alice_and_bob (SocketError 0 (PlainError "reset"))) 0)
  = CLOSING.
Proof.
  destruct (error_event_closes_the_socket 0 (PlainError "reset") alice_and_bob
              (socket_of alice_and_bob 0)) as (c' & Hc' & Hr & _).
  - reflexivity.
  - unfold socket_of. rewrite Hc'. simpl. rewrite Hr. reflexivity.
Defined.

(** ** Login, relay and departure together *)

Lemma trim_not_blank u : trim u <> "" -> u <> "".
Proof. intros H ->. now apply H. Qed.

(** X17.  Login, then relay.  Once a connection has logged in as [u], a
    relay envelope for [u] from another identified connection is forwarded
    to it: the frames of the connection are its former frames, followed by
    [login_success] and by the envelope with the sender's user id; no other
    socket is written. *)
Theorem login_makes_user_reachable ws ws2 m m2 u sid s c c2 :
  login_envelope m u -> trim u <> "" -> Map.get u (clients s) = None ->
  sockets s !! ws = Some c -> readyState c = OPEN ->
  relay_envelope m2 -> target m2 = Some (JStr u) -> truthy (payload m2) = true ->
  sockets s !! ws2 = Some c2 -> userId c2 = Some sid -> sid <> "" -> ws2 <> ws ->
  exists s1 s2,
    handleWebSocketMessage ws m s = Normal Completed s1 /\
    handleWebSocketMessage ws2 m2 s1 = Normal Completed s2 /\
    sent (socket_of s2 ws)
      = sent c ++ [Text (userId_notice LoginSuccess (Some u)); Text (with_sender m2 sid)] /\
    forall h, h <> ws -> sent (socket_of s2 h) = sent (socket_of s h).
Proof.
  intros Hm Hvalid Hfree Hws Hopen Hm2 Ht Hpay Hws2 Hid Hsid Hne.
  pose proof (login_free ws m u s c Hm Hvalid Hfree Hws Hopen) as Hlogin.
  match type of Hlogin with
  | _ = Normal Completed ?st => set (s1 := st) in *
  end.
  assert (Hws2' : sockets s1 !! ws2 = Some c2)
    by (subst s1; simpl; now rewrite !lookup_alter_ne by congruence).
  assert (Hws' : sockets s1 !! ws
                 = Some (push_frame (Text (userId_notice LoginSuccess (Some u)))
                           (set_userId (Some u) (set_clientId None c))))
    by (subst s1; simpl; now rewrite !lookup_alter_eq, Hws).
  assert (Hget : Map.get u (clients s1) = Some ws)
    by (subst s1; simpl; apply MapFacts.get_set_eq).
  destruct (relay_template m2 Hm2) as (ty & Hty & Htpl).
  assert (Hrun : handleWebSocketMessage ws2 m2 s1
                 = Normal Completed
                     (with_sockets (alter (push_frame (Text (with_sender m2 sid))) ws)
                        (with_log
                           (fun l => l ++ [mkLog LevelInfo
                              ("Forwarding " +:+ ty +:+ " from " +:+ sid +:+ " to " +:+ u)])
                           s1))).
  { unfold handleWebSocketMessage, try_catch.
    rewrite (relay_dispatch _ _ Hm2).
    rewrite (relay_guards_passed ws2 m2 s1 c2 sid u)
      by (try assumption; now apply trim_not_blank).
    rewrite Hget. unfold open_target.
    rewrite (socket_of_lookup _ _ _ Hws'), decide_True by exact Hopen.
    rewrite Htpl. unfold mbind, Js_bind, mret, Js_ret, logger_log, update.
    rewrite sendWsMessage_open; [reflexivity|].
    rewrite socket_of_with_log, (socket_of_lookup _ _ _ Hws'). exact Hopen. }
  eexists. eexists. split; [exact Hlogin|]. split; [exact Hrun|]. split.
  - unfold socket_of. cbn [sockets with_sockets with_log].
    rewrite lookup_alter_eq, Hws'. simpl.
    now rewrite <- app_assoc.
  - intros h Hh. unfold socket_of. subst s1. simpl.
    now rewrite !lookup_alter_ne by congruence.
Qed.

Lemma login_makes_user_reachable_witness :
  exists s1 s2,
    handleWebSocketMessage 1 (login_of "bob") alice_and_guest = Normal Completed s1 /\
    handleWebSocketMessage 0 (offer_to "bob") s1 = Normal Completed s2 /\
    sent (socket_of s2 1)
      = [Text (userId_notice LoginSuccess (Some "bob"));
         Text (with_sender (offer_to "bob") "alice")].
Proof.
  destruct (login_makes_user_reachable 1 0 (login_of "bob") (offer_to "bob") "bob" "alice"
              alice_and_guest (socket_of alice_and_guest 1) (socket_of alice_and_guest 0))
    as (s1 & s2 & H1 & H2 & Hsent & _).
  - split; reflexivity.
  - vm_compute. discriminate.
  - reflexivity.
  - reflexivity.
  - reflexivity.
  - left. reflexivity.
  - reflexivity.
  - reflexivity.
  - reflexivity.
  - reflexivity.
  - discriminate.
  - discriminate.
  - exists s1, s2. split; [exact H1|]. split; [exact H2|]. exact Hsent.
Defined.

(** X18.  Departure, then relay.  Once the connection registered as [u]
    has closed, a relay envelope for [u] takes the offline path: nothing is
    written and the handler waits for the push token of [u]. *)
Theorem departed_user_is_offline ws ws2 u m2 sid code reason s c c2 :
  valid_ids s ->
  sockets s !! ws = Some c -> userId c = Some u -> Map.get u (clients s) = Some ws ->
  relay_envelope m2 -> target m2 = Some (JStr u) -> truthy (payload m2) = true ->
  sockets s !! ws2 = Some c2 -> userId c2 = Some sid ->
  exists s2,
    handleWebSocketMessage ws2 m2 (step s (Close ws code reason))
      = Normal (AwaitGetPushToken u) s2 /\
    Map.get u (clients s2) = None /\
    forall h, sent (socket_of s2 h) = sent (socket_of (step s (Close ws code reason)) h).
Proof.
  intros Hvalid Hws Hid Hget Hm2 Ht Hpay Hws2 Hid2.
  pose proof (valid_ids_identified s ws c u Hvalid Hws Hid) as Hu.
  pose proof (valid_ids_identified s ws2 c2 sid Hvalid Hws2 Hid2) as Hsid.
  destruct (close_event_departs ws u code reason s c Hws Hid Hu Hget)
    as (s' & Hrun & _ & _ & Hgone & _).
  assert (Hstep : step s (Close ws code reason) = s') by (unfold step; now rewrite Hrun).
  destruct (identity_kept (Close ws code reason) s ws2 c2 Hws2)
    as (c2' & Hws2' & Hid2' & _); [intros u' []|].
  rewrite Hstep in *. rewrite <- Hid2' in Hid2.
  eexists. split; [|split].
  - unfold handleWebSocketMessage, try_catch.
    rewrite (relay_dispatch _ _ Hm2).
    rewrite (relay_guards_passed ws2 m2 s' c2' sid u) by assumption.
    rewrite Hgone. reflexivity.
  - exact Hgone.
  - reflexivity.
Qed.

Lemma departed_user_is_offline_witness :
  exists s2,
    handleWebSocketMessage 1 (offer_to "alice") (step alice_and_bob (Close 0 1000 "bye"))
      = Normal (AwaitGetPushToken "alice") s2.
Proof.
  destruct (departed_user_is_offline 0 1 "alice" (offer_to "alice") "bob" 1000%Z "bye"
              alice_and_bob (socket_of alice_and_bob 0) (socket_of alice_and_bob 1))
    as (s2 & Hrun & _).
  - unfold alice_and_bob, alice_and_guest, alice_alone.
    apply valid_ids_run, valid_ids_run, reachable_valid_ids.
  - reflexivity.
  - reflexivity.
  - reflexivity.
  - left. reflexivity.
  - reflexivity.
  - reflexivity.
  - reflexivity.
  - reflexivity.
  - exists s2. exact Hrun.
Defined.

(** X19.  Departure, then login.  Once the connection registered as [u]
    has closed, another open connection that logs in as [u] gets the id: the
    registry binds [u] to it, its [userId] is [u] and its last frame is
    [login_success]. *)
Theorem departed_id_can_be_taken_again ws ws2 u m code reason s c c2 :
  valid_ids s ->
  sockets s !! ws = Some c -> userId c = Some u -> Map.get u (clients s) = Some ws ->
  login_envelope m u ->
  sockets s !! ws2 = Some c2 -> readyState c2 = OPEN -> ws2 <> ws ->
  exists s2 c2',
    handleWebSocketMessage ws2 m (step s (Close ws code reason)) = Normal Completed s2 /\
    Map.get u (clients s2) = Some ws2 /\
    sockets s2 !! ws2 = Some c2' /\ userId c2' = Some u /\
    last (sent c2') = Some (Text (userId_notice LoginSuccess (Some u))).
Proof.
  intros Hvalid Hws Hid Hget Hm Hws2 Hopen Hne.
  pose proof (valid_ids_identified s ws c u Hvalid Hws Hid) as Hu.
  pose proof (valid_ids_registered s u ws Hvalid Hget) as Htrim.
  destruct (close_event_departs ws u code reason s c Hws Hid Hu Hget)
    as (s' & Hrun & _ & _ & Hgone & _).
  assert (Hstep : step s (Close ws code reason) = s') by (unfold step; now rewrite Hrun).
  destruct (readyState_kept (Close ws code reason) s ws2 c2 Hws2)
    as (c2' & Hws2' & Hr); [intros u' []|simpl; congruence|discriminate|].
  rewrite Hstep in *. rewrite <- Hr in Hopen.
  eexists. eexists.
  split; [exact (login_free ws2 m u s' c2' Hm Htrim Hgone Hws2' Hopen)|].
  simpl. split; [apply MapFacts.get_set_eq|].
  rewrite !lookup_alter_eq, Hws2'. simpl. split; [reflexivity|]. split; [reflexivity|].
  apply last_snoc.
Qed.

Lemma departed_id_can_be_taken_again_witness :
  exists s2,
    handleWebSocketMessage 1 (login_of "alice") (step alice_and_guest (Close 0 1000 "bye"))
      = Normal Completed s2 /\
    Map.get "alice" (clients s2) = Some 1.
Proof.
  destruct (departed_id_can_be_taken_again 0 1 "alice" (login_of "alice") 1000%Z "bye"
              alice_and_guest (socket_of alice_and_guest 0) (socket_of alice_and_guest 1))
    as (s2 & c2' & Hrun & Hget & _).
  - unfold alice_and_guest, alice_alone.
    apply valid_ids_run, reachable_valid_ids.
  - reflexivity.
  - reflexivity.
  - reflexivity.
  - split; reflexivity.
  - reflexivity.
  - reflexivity.
  - discriminate.
  - exists s2. split; assumption.
Defined.

(** X20.  Login, then login again.  A login for a free id is served on a
    connection that is already identified as [v]: the connection takes the
    new id [u] and the registry holds both [u] and [v] for it.  When the
    connection closes, the listener deletes [u]; [v] stays bound to the
    closed socket. *)
Theorem relogin_under_free_id_keeps_former_entry ws m u v code reason s c :
  login_envelope m u -> trim u <> "" -> Map.get u (clients s) = None ->
  sockets s !! ws = Some c -> readyState c = OPEN ->
  userId c = Some v -> Map.get v (clients s) = Some ws ->
  exists s' c',
    handleWebSocketMessage ws m s = Normal Completed s' /\
    sockets s' !! ws = Some c' /\ userId c' = Some u /\
    last (sent c') = Some (Text (userId_notice LoginSuccess (Some u))) /\
    Map.get u (clients s') = Some ws /\
    Map.get v (clients s') = Some ws /\
    Map.get u (clients (step s' (Close ws code reason))) = None /\
    Map.get v (clients (step s' (Close ws code reason))) = Some ws.
Proof.
  intros Hm Hvalid Hfree Hws Hopen Hid Hv.
  assert (Hne : u <> v) by congruence.
  pose proof (login_free ws m u s c Hm Hvalid Hfree Hws Hopen) as Hlogin.
  match type of Hlogin with
  | _ = Normal Completed ?st => set (s1 := st) in *
  end.
  assert (Hws1 : sockets s1 !! ws
                 = Some (push_frame (Text (userId_notice LoginSuccess (Some u)))
                           (set_userId (Some u) (set_clientId None c))))
    by (subst s1; simpl; now rewrite !lookup_alter_eq, Hws).
  assert (Hu1 : Map.get u (clients s1) = Some ws)
    by (subst s1; simpl; apply MapFacts.get_set_eq).
  assert (Hv1 : Map.get v (clients s1) = Some ws)
    by (subst s1; simpl; now rewrite MapFacts.get_set_ne).
  destruct (close_event_departs ws u code reason s1 _ Hws1 eq_refl
              (trim_not_blank _ Hvalid) Hu1)
    as (s2 & Hrun & _ & Hreg & Hgone & _).
  assert (Hstep : step s1 (Close ws code reason) = s2) by (unfold step; now rewrite Hrun).
  eexists. eexists. split; [exact Hlogin|]. split; [exact Hws1|].
  split; [reflexivity|]. split; [apply last_snoc|].
  split; [exact Hu1|]. split; [exact Hv1|]. rewrite Hstep.
  split; [exact Hgone|].
  rewrite Hreg. simpl. now rewrite MapFacts.get_delete_ne.
Qed.

Lemma relogin_under_free_id_keeps_former_entry_witness :
  exists s',
    handleWebSocketMessage 0 (login_of "bob") alice_alone = Normal Completed s' /\
    Map.get "alice" (clients (step s' (Close 0 1000 "bye"))) = Some 0.
Proof.
  destruct (relogin_under_free_id_keeps_former_entry 0 (login_of "bob") "bob" "alice"
              1000%Z "bye" alice_alone (socket_of alice_alone 0))
    as (s' & c' & Hrun & _ & _ & _ & _ & _ & _ & Hstale).
  - split; reflexivity.
  - vm_compute. discriminate.
  - reflexivity.
  - reflexivity.
  - reflexivity.
  - reflexivity.
  - reflexivity.
  - exists s'. split; assumption.
Defined.

(** ** Shutdown *)

Lemma terminated_idempotent c : terminated (terminated c) = terminated c.
Proof.
  destruct c as [cid uid alive [| |] frames]; reflexivity.
Qed.

Lemma terminated_not_open c : readyState (terminated c) <> OPEN.
Proof. unfold terminated. case_decide; simpl; congruence. Qed.

Lemma terminate_effect x s :
  exists s',
    terminate x s = Normal tt s' /\
    clients s' = clients s /\ wss_clients s' = wss_clients s /\ log s' = log s /\
    forall h, sockets s' !! h
              = if decide (h = x) then terminated <$> sockets s !! h else sockets s !! h.
Proof.
  unfold terminate, socket, assign, update, mbind, Js_bind, socket_of.
  destruct (sockets s !! x) as [c|] eqn:Hx; simpl.
  - destruct (decide (readyState c = CLOSED)) as [Hc|Hc].
    + exists s. repeat split. intros h. case_decide; [subst|reflexivity].
      rewrite Hx. simpl. unfold terminated. now rewrite decide_True.
    + eexists. split; [reflexivity|]. repeat split. intros h. simpl.
      case_decide; [subst|now rewrite lookup_alter_ne].
      rewrite lookup_alter_eq, Hx. simpl. unfold terminated. now rewrite decide_False.
  - exists s. repeat split.
    intros h. case_decide; [subst|reflexivity]. now rewrite Hx.
Qed.

Lemma forEach_terminate l :
  forall s, exists s',
    forEach terminate l s = Normal tt s' /\
    clients s' = clients s /\ wss_clients s' = wss_clients s /\ log s' = log s /\
    forall h, sockets s' !! h
              = if decide (h ∈ l) then terminated <$> sockets s !! h else sockets s !! h.
Proof.
  induction l as [|x rest IH]; intros s.
  - exists s. repeat split.
  - simpl forEach. unfold mbind, Js_bind.
    destruct (terminate_effect x s) as (s1 & -> & Hc1 & Hw1 & Hl1 & Hs1).
    destruct (IH s1) as (s' & Hrun & Hc & Hw & Hl & Hs).
    exists s'. split; [exact Hrun|]. repeat split; try congruence.
    intros h. rewrite Hs, Hs1.
    destruct (decide (h = x)) as [->|Hne].
    + rewrite (decide_True (P := x ∈ x :: rest)) by apply list_elem_of_here.
      case_decide; [|reflexivity].
      destruct (sockets s !! x); simpl; [|reflexivity].
      now rewrite terminated_idempotent.
    + destruct (decide (h ∈ rest)) as [Hin|Hin].
      * now rewrite decide_True by (now apply list_elem_of_further).
      * rewrite decide_False; [reflexivity|].
        intros H. apply elem_of_cons in H as [H|H]; contradiction.
Qed.

Lemma close_with_empty_registry ws code reason s :
  clients s = [] ->
  clients (step s (Close ws code reason)) = []
  /\ forall h, sent (socket_of (step s (Close ws code reason)) h) = sent (socket_of s h).
Proof.
  intros Hempty. unfold step. simpl listener.
  rewrite emit_close_on_close, on_close_unfold. cbv zeta.
  change (clients (closed_by_library ws s)) with (clients s). rewrite Hempty.
  change (Map.has _ []) with false. rewrite andb_false_r.
  unfold logger_log, update. simpl. split; [exact Hempty|].
  intros h. apply (sent_socket_of_alter_readyState s ws CLOSED h).
Qed.

Lemma closes_with_empty_registry es :
  forall s,
    Forall is_close es -> clients s = [] ->
    clients (run s es) = []
    /\ forall h, sent (socket_of (run s es) h) = sent (socket_of s h).
Proof.
  induction es as [|e es IH]; intros s Hes Hempty; simpl; [auto|].
  apply Forall_cons in Hes as [He Hes].
  destruct e; try contradiction.
  destruct (close_with_empty_registry ws code reason s Hempty) as [Hc Hsent].
  destruct (IH _ Hes Hc) as [Hc' Hsent'].
  split; [exact Hc'|]. intros h. now rewrite Hsent', Hsent.
Qed.

(** X21.  [gracefulShutdown].  With a server running, the function stops
    the heartbeat timer if the variable holds it, terminates every socket of
    [wss.clients], so that no socket is left open, clears the registry and
    asks the server to close, arming the timer of 10 seconds; it writes no
    frame.  As the registry is cleared before any ['close'] event, the
    close listeners that follow broadcast no [user_left].  Without a
    server, it only waits for the pool to close.  The callback of
    [wss.close] returns the exit code 1 if the close failed and 0 otherwise,
    even when closing the pool fails. *)
Theorem shutdown_terminates_all_and_silences_departures signal g s :
  tracked_once s ->
  (wss g = true ->
   exists g' s',
     gracefulShutdown signal g s = Normal (g', AwaitServerClose 10000) s' /\
     heartbeatInterval g' = false /\
     (heartbeatInterval g = true -> heartbeat_scheduled g' = false) /\
     clients s' = [] /\
     (forall h, readyState (socket_of s' h) <> OPEN) /\
     (forall h, sent (socket_of s' h) = sent (socket_of s h)) /\
     (forall es,
        Forall is_close es ->
        clients (run s' es) = []
        /\ forall h, sent (socket_of (run s' es) h) = sent (socket_of s h))) /\
  (wss g = false ->
   exists g' s',
     gracefulShutdown signal g s = Normal (g', AwaitCloseDbPool) s' /\
     heartbeatInterval g' = false /\
     sockets s' = sockets s /\ clients s' = clients s) /\
  (forall err q s0,
     (exists s',
        server_closed err s0 = Normal tt s' /\
        sockets s' = sockets s0 /\ clients s' = clients s0) /\
     exists s',
       resume_server_closed err q s0
         = Normal (match err with Some _ => 1 | None => 0 end)%Z s' /\
       sockets s' = sockets s0 /\ clients s' = clients s0).
Proof.
  intros (_ & _ & Htracked). split; [|split].
  - intros Hwss.
    assert (Hrun : forall g0 s0,
              wss g0 = true ->
              exists s',
                (if negb (wss g0) then
                   logger_log LevelInfo
                     "WebSocket server instance was not created. Closing DB pool.";;
                   closeDbPool;;
                   mret (g0, AwaitCloseDbPool)
                 else
                   s ← state;
                   logger_log LevelInfo
                     ("Terminating " +:+ pretty (length (wss_clients s))
                      +:+ " active client connections...");;
                   forEach terminate (wss_clients s);;
                   update (with_clients (fun _ => []));;
                   logger_log LevelInfo "Closing WebSocket server...";;
                   mret (g0, AwaitServerClose 10000)) s0
                = Normal (g0, AwaitServerClose 10000) s' /\
                clients s' = [] /\
                forall h, sockets s' !! h
                          = if decide (h ∈ wss_clients s0)
                            then terminated <$> sockets s0 !! h else sockets s0 !! h).
    { intros g0 s0 ->. cbn [negb].
      unfold state, logger_log, update. unfold mbind, Js_bind.
      match goal with
      | |- context [forEach terminate ?l ?st] =>
          destruct (forEach_terminate l st) as (s1 & -> & _ & _ & _ & Hs1)
      end.
      eexists. split; [reflexivity|]. split; [reflexivity|]. exact Hs1. }
    assert (Hfinal : forall g' s0,
              wss g' = true ->
              (forall h, sockets s0 !! h = sockets s !! h) ->
              wss_clients s0 = wss_clients s ->
              exists s',
                (if negb (wss g') then
                   logger_log LevelInfo
                     "WebSocket server instance was not created. Closing DB pool.";;
                   closeDbPool;;
                   mret (g', AwaitCloseDbPool)
                 else
                   s ← state;
                   logger_log LevelInfo
                     ("Terminating " +:+ pretty (length (wss_clients s))
                      +:+ " active client connections...");;
                   forEach terminate (wss_clients s);;
                   update (with_clients (fun _ => []));;
                   logger_log LevelInfo "Closing WebSocket server...";;
                   mret (g', AwaitServerClose 10000)) s0
                = Normal (g', AwaitServerClose 10000) s' /\
                clients s' = [] /\
                (forall h, readyState (socket_of s' h) <> OPEN) /\
                (forall h, sent (socket_of s' h) = sent (socket_of s h))).
    { intros g' s0 Hg' Hs0 Hw0.
      destruct (Hrun g' s0 Hg') as (s' & Hrun' & Hc' & Hs').
      exists s'. split; [exact Hrun'|]. split; [exact Hc'|].
      split; intros h; unfold socket_of; rewrite Hs', Hs0, Hw0.
      - destruct (sockets s !! h) as [c|] eqn:Hh.
        + case_decide as Hin; simpl; [apply terminated_not_open|].
          intros Hopen. apply Hin. now apply (Htracked h c).
        + case_decide; simpl; discriminate.
      - case_decide; [|reflexivity].
        destruct (sockets s !! h) as [c|]; simpl; [|reflexivity].
        unfold terminated. now case_decide. }
    unfold gracefulShutdown, logger_log, update.
    unfold mbind at 1, Js_bind at 1.
    destruct (heartbeatInterval g) eqn:Hhb.
    + unfold mbind at 1 2, Js_bind at 1 2, mret at 1, Js_ret at 1.
      destruct (Hfinal (mkGlobals (wss g) false false)
                  (with_log (fun entries => entries ++ [mkLog LevelInfo
                     "Heartbeat interval stopped."])
                     (with_log (fun entries => entries ++ [mkLog LevelInfo
                        ("Received " +:+ signal +:+ ". Shutting down gracefully...")]) s)))
        as (s' & Hrun' & Hc' & Hopen' & Hsent'); [exact Hwss|reflexivity|reflexivity|].
      exists (mkGlobals (wss g) false false), s'.
      split; [exact Hrun'|]. repeat split; try assumption.
      * now apply closes_with_empty_registry.
      * intros h. destruct (closes_with_empty_registry es s' H Hc') as [_ Hs].
        now rewrite Hs.
    + unfold mbind at 1, Js_bind at 1, mret at 1, Js_ret at 1.
      destruct (Hfinal g
                  (with_log (fun entries => entries ++ [mkLog LevelInfo
                     ("Received " +:+ signal +:+ ". Shutting down gracefully...")]) s))
        as (s' & Hrun' & Hc' & Hopen' & Hsent'); [exact Hwss|reflexivity|reflexivity|].
      exists g, s'.
      split; [exact Hrun'|]. repeat split; try assumption; try discriminate.
      * now apply closes_with_empty_registry.
      * intros h. destruct (closes_with_empty_registry es s' H Hc') as [_ Hs].
        now rewrite Hs.
  - intros Hwss. unfold gracefulShutdown, closeDbPool, logger_log, update.
    unfold mbind, Js_bind, mret, Js_ret.
    destruct (heartbeatInterval g) eqn:Hhb; simpl; rewrite Hwss; simpl;
      eexists; eexists; (split; [reflexivity|]); repeat split; assumption.
  - intros err q s0. split.
    + unfold server_closed, closeDbPool, logger_log, update, mbind, Js_bind.
      destruct err; eexists; (split; [reflexivity|]); split; reflexivity.
    + unfold resume_server_closed, resume_closeDbPool, try_catch, throw.
      unfold logger_log, update, mbind, Js_bind, mret, Js_ret.
      destruct q; eexists; (split; [reflexivity|]); split; reflexivity.
Qed.

Lemma shutdown_terminates_all_and_silences_departures_witness :
  exists g' s',
    gracefulShutdown "SIGINT" (mkGlobals true true true) alice_and_bob
      = Normal (g', AwaitServerClose 10000) s' /\
    clients s' = [] /\
    readyState (socket_of s' 0) <> OPEN /\ readyState (socket_of s' 1) <> OPEN.
Proof.
  destruct (shutdown_terminates_all_and_silences_departures "SIGINT"
              (mkGlobals true true true) alice_and_bob) as [Hrunning _].
  - unfold alice_and_bob, alice_and_guest, alice_alone.
    apply (tracked_once_run [_]), (tracked_once_run [_]), reachable_tracked_once.
  - destruct (Hrunning eq_refl) as (g' & s' & Hrun & _ & _ & Hc & Hopen & _).
    exists g', s'. auto.
Defined.
